(** * Scene indexing, quantified utterances and ad-hoc referents

    A shallow embedding of [parse_scene], [calculate_ad_hoc_matrix] and the
    retry logic of [add_ad_hoc_random_objects] from
    [image_generation/render_images.py], with the properties of the
    natural-language specification stated and settled against it. The
    second part adds the choice of the referent in [render_ad_hoc_scene],
    [compute_all_relationships] and the counting in [check_visibility],
    and proves further properties of all of them.

    Modelling conventions.
    - Python [str] is [string]; [in], [replace], [split] and [join] on
      strings are the functions of module [Py] below.
    - A Python [dict] is insertion ordered: [dict V] is an association list
      in which [dset] overwrites in place and appends fresh keys, so that
      [dkeys] is [list(d.keys())].
    - A Python [set] of object ids is a duplicate-free list; the code only
      observes membership, emptiness and cardinality of such sets.
    - Exceptions are explicit: a computation returns [exn + A].
    - numpy floats in [calculate_ad_hoc_matrix] are exact rationals [Q]. Every
      entry of the matrix is [m / (c + 1/1000)] for small natural numbers
      [m], [c]; two such entries are equal as reals only when they are
      computed from the same [m] and [c], and they are separated from each
      other and from the threshold 0.9 by far more than a rounding error, so
      the comparisons of the code agree with the exact ones. *)

From Stdlib Require Import String Ascii List Arith Bool Lia ZArith QArith.
From Stdlib Require Import Permutation.
Import ListNotations.
Open Scope string_scope.
Open Scope list_scope.
Open Scope nat_scope.

(** ** Python strings *)

Module Py.

(** [sub in s] *)
Fixpoint contains (sub s : string) : bool :=
  prefix sub s ||
  match s with
  | EmptyString => false
  | String _ s' => contains sub s'
  end.

(** [sep.join(l)] *)
Definition join (sep : string) (l : list string) : string := String.concat sep l.

(** [s.replace(old, new)] for a non-empty [old] (every call site passes a
    non-empty literal). Occurrences are replaced left to right without
    overlap: after a match the next [length old - 1] characters are
    skipped. *)
Fixpoint replace_from (old new : string) (skip : nat) (s : string) : string :=
  match s with
  | EmptyString => EmptyString
  | String c s' =>
      match skip with
      | S k => replace_from old new k s'
      | O => if prefix old s
             then new ++ replace_from old new (String.length old - 1) s'
             else String c (replace_from old new 0 s')
      end
  end.

Definition replace (old new s : string) : string := replace_from old new 0 s.

(** [s.split(sep)] for a non-empty [sep]. *)
Fixpoint split_from (sep : string) (skip : nat) (s : string) : list string :=
  match s with
  | EmptyString => [EmptyString]
  | String c s' =>
      match skip with
      | S k => split_from sep k s'
      | O => if prefix sep s
             then EmptyString :: split_from sep (String.length sep - 1) s'
             else match split_from sep 0 s' with
                  | piece :: rest => String c piece :: rest
                  | [] => [String c EmptyString]
                  end
      end
  end.

Definition split (sep s : string) : list string := split_from sep 0 s.

(** [l[-1]] of a list of strings that is never empty here *)
Definition last_piece (l : list string) : string := List.last l EmptyString.

(** [s.startswith(p)] *)
Definition startswith (p s : string) : bool := prefix p s.

(** [x in l] for a list of strings *)
Definition mem (x : string) (l : list string) : bool :=
  existsb (String.eqb x) l.

(** [a == b] on lists of strings *)
Fixpoint list_eqb (a b : list string) : bool :=
  match a, b with
  | [], [] => true
  | x :: a', y :: b' => String.eqb x y && list_eqb a' b'
  | _, _ => false
  end.

(** [set(l)] for strings, and [s - t] *)
Definition to_set (l : list string) : list string := nodup string_dec l.

Definition set_diff (s t : list string) : list string :=
  filter (fun x => negb (mem x t)) s.

(** the same for sets of object ids *)
Definition memn (x : nat) (l : list nat) : bool := existsb (Nat.eqb x) l.

Definition to_setn (l : list nat) : list nat := nodup Nat.eq_dec l.

Definition set_diffn (s t : list nat) : list nat :=
  filter (fun x => negb (memn x t)) s.

Definition set_intern (s t : list nat) : list nat :=
  filter (fun x => memn x t) s.

(** [enumerate(l)] *)
Definition enumerate {A} (l : list A) : list (nat * A) :=
  combine (seq 0 (length l)) l.

(** the indices [j] of [l], in order, with [p l[j]]: the shape of every
    [count]/[obj_inds] loop of the source *)
Definition inds {A} (p : A -> bool) (l : list A) : list nat :=
  map fst (filter (fun jx => p (snd jx)) (enumerate l)).

(** [l[i:j]] for [0 <= i <= j] *)
Definition slice {A} (l : list A) (i j : nat) : list A :=
  firstn (j - i) (skipn i l).

(** [itertools.combinations(range(n), 2)], in its lexicographic order *)
Definition combinations2 (n : nat) : list (nat * nat) :=
  flat_map (fun i => map (fun j => (i, j)) (seq (S i) (n - S i))) (seq 0 n).

End Py.

(** ** Insertion-ordered dictionaries with string keys *)

Definition dict (V : Type) : Type := list (string * V).

Fixpoint dget {V} (k : string) (d : dict V) : option V :=
  match d with
  | [] => None
  | (k', v) :: d' => if String.eqb k k' then Some v else dget k d'
  end.

(** [d[k] = v] *)
Fixpoint dset {V} (k : string) (v : V) (d : dict V) : dict V :=
  match d with
  | [] => [(k, v)]
  | (k', v') :: d' =>
      if String.eqb k k' then (k', v) :: d' else (k', v') :: dset k v d'
  end.

(** [list(d.keys())] *)
Definition dkeys {V} (d : dict V) : list string := map fst d.

(** a dictionary filled by a sequence of assignments [d[k] = v] *)
Definition dfold {V} (ws : list (string * V)) (d : dict V) : dict V :=
  fold_left (fun d kv => dset (fst kv) (snd kv) d) ws d.

(** ** Exceptions *)

Inductive exn : Type :=
| KeyError (key : string)
| IndexError.

Definition result (A : Type) : Type := (exn + A)%type.

Definition ret {A} (a : A) : result A := inr a.
Definition raise {A} (e : exn) : result A := inl e.

Definition bind {A B} (c : result A) (k : A -> result B) : result B :=
  match c with
  | inl e => inl e
  | inr a => k a
  end.

Notation "x <- c ;; k" := (bind c (fun x => k))
  (at level 61, c at next level, right associativity).

(** [d[k]], raising [KeyError] *)
Definition dget_exn {V} (k : string) (d : dict V) : result V :=
  match dget k d with
  | Some v => ret v
  | None => raise (KeyError k)
  end.

(** [l[i]] for a natural index, raising [IndexError] *)
Definition nth_exn {A} (l : list A) (i : nat) : result A :=
  match nth_error l i with
  | Some a => ret a
  | None => raise IndexError
  end.

(** a [for] loop whose body may raise and that collects what each
    iteration appends *)
Fixpoint for_each {A B} (f : A -> result (list B)) (l : list A)
  : result (list B) :=
  match l with
  | [] => ret []
  | a :: l' =>
      xs <- f a ;;
      ys <- for_each f l' ;;
      ret (xs ++ ys)
  end.

(** a [for] loop that builds one value per iteration *)
Fixpoint map_exn {A B} (f : A -> result B) (l : list A) : result (list B) :=
  match l with
  | [] => ret []
  | a :: l' =>
      x <- f a ;;
      ys <- map_exn f l' ;;
      ret (x :: ys)
  end.

(** ** The scene *)

Record SceneObject : Type := {
  size : string;
  color : string;
  material : string;
  shape : string
}.

(** [scene_dict["relationships"]]: for each direction, one list of object
    ids per object *)
Record Relationships : Type := {
  rel_left : list (list nat);
  rel_right : list (list nat);
  rel_front : list (list nat);
  rel_behind : list (list nat)
}.

Record Scene : Type := {
  objects : list SceneObject;
  relationships : Relationships
}.

(** ** [parse_scene] *)

Module ParseScene.

(** [objd = [obj['size'], obj['color'], obj['material'], obj['shape']]] *)
Definition objd_list_of (obj : SceneObject) : list string :=
  [size obj; color obj; material obj; shape obj].

Definition objd_of (obj : SceneObject) : string :=
  Py.join " " (objd_list_of obj).

(** the slices [objd_list[comb_i:comb_j]] of length [k], in the order in
    which [itertools.combinations(range(len(objd_list)+1), 2)] yields
    them *)
Definition combs (k : nat) (objd_list : list string) : list (list string) :=
  filter (fun w => length w =? k)
    (map (fun ij => Py.slice objd_list (fst ij) (snd ij))
       (Py.combinations2 (S (length objd_list)))).

(** *** 1. Image-level description *)

Record Index : Type := {
  image_some2ids : dict (list nat);
  image_all : list string;
  image_2ids : dict (list nat)
}.

Definition empty_index : Index :=
  {| image_some2ids := []; image_all := []; image_2ids := [] |}.

(** the tail of every counting loop:
    [if count != len_objects: image_some2ids[key] = obj_inds]
    [else: image_all.append(key)], then [image_2ids[key] = obj_inds] *)
Definition record_ext (len_objects : nat) (key : string) (obj_inds : list nat)
    (ix : Index) : Index :=
  let count := length obj_inds in
  if negb (count =? len_objects)
  then {| image_some2ids := dset key obj_inds (image_some2ids ix);
          image_all := image_all ix;
          image_2ids := dset key obj_inds (image_2ids ix) |}
  else {| image_some2ids := image_some2ids ix;
          image_all := image_all ix ++ [key];
          image_2ids := dset key obj_inds (image_2ids ix) |}.

(** single items: [attr in objd] is substring containment in the joined
    description of object [j] *)
Definition ext1 (objds : list string) (attr : string) : list nat :=
  Py.inds (fun objd => Py.contains attr objd) objds.

(** double and triple items: [len(set(new_objd_list) - comb_set) == rest] *)
Definition ext_set (objd_lists : list (list string)) (rest : nat)
    (w : list string) : list nat :=
  Py.inds (fun new_objd_list =>
             length (Py.set_diff (Py.to_set new_objd_list) (Py.to_set w))
             =? rest) objd_lists.

(** full items: [new_objd_list == objd_list] *)
Definition ext_full (objd_lists : list (list string)) (objd_list : list string)
    : list nat :=
  Py.inds (fun new_objd_list => Py.list_eqb new_objd_list objd_list) objd_lists.

(** the body of [for i, objd_list in enumerate(objd_lists)] *)
Definition index_object (len_objects : nat) (objd_lists : list (list string))
    (objds : list string) (ix : Index) (i_objd : nat * list string) : Index :=
  let i := fst i_objd in
  let objd_list := snd i_objd in
  let ix1 := fold_left (fun ix attr =>
                          record_ext len_objects attr (ext1 objds attr) ix)
               objd_list ix in
  let ix2 := fold_left (fun ix w =>
                          record_ext len_objects (Py.join " " w)
                            (ext_set objd_lists 2 w) ix)
               (combs 2 objd_list) ix1 in
  let ix3 := fold_left (fun ix w =>
                          record_ext len_objects (Py.join " " w)
                            (ext_set objd_lists 1 w) ix)
               (combs 3 objd_list) ix2 in
  record_ext len_objects (nth i objds EmptyString)
    (ext_full objd_lists objd_list) ix3.

Definition build_index (objs : list SceneObject) : Index :=
  let objd_lists := map objd_list_of objs in
  let objds := map objd_of objs in
  fold_left (index_object (length objs) objd_lists objds)
    (Py.enumerate objd_lists) empty_index.

(** *** 2. Object-level structures *)

(** [full_current_objd]; the lists [left], [right], [front], [behind] that
    the second pass adds are the [d_] fields of [Described] below *)
Record ObjectStruct : Type := {
  os_obj : string;
  os_id : nat;
  left_names : list string;
  left_child : list (list string);
  right_child : list (list string);
  behind_child : list (list string);
  front_child : list (list string)
}.

(** the quantified name of a one-attribute window (the loop over
    [comb1d_lists] that fills [available_primary_names]) *)
Definition primary_name (ix : Index) (comb1d : string) : string :=
  match dget comb1d (image_some2ids ix) with
  | Some ids =>
      if length ids =? 1 then ("Exactly one all " ++ comb1d)%string
      else ("some " ++ comb1d)%string
  | None => ("all " ++ comb1d)%string
  end.

Definition primary_names (ix : Index) (objd_list : list string) : list string :=
  "some objects" ::
  map (primary_name ix) (map (Py.join " ") (combs 1 objd_list)).

(** [for rel_obj_ind in rel: child.append(objd_lists[rel_obj_ind])] *)
Definition children (objd_lists : list (list string)) (rel : list nat)
    : result (list (list string)) :=
  map_exn (nth_exn objd_lists) rel.

(** the body of [for i, objd in enumerate(objds)] *)
Definition object_struct (ix : Index) (objd_lists : list (list string))
    (rels : Relationships) (i_objd : nat * string) : result ObjectStruct :=
  let i := fst i_objd in
  let objd := snd i_objd in
  objd_list <- nth_exn objd_lists i ;;
  let available_primary_names := primary_names ix objd_list in
  left_rel <- nth_exn (rel_left rels) i ;;
  right_rel <- nth_exn (rel_right rels) i ;;
  front_rel <- nth_exn (rel_front rels) i ;;
  behind_rel <- nth_exn (rel_behind rels) i ;;
  lc <- children objd_lists left_rel ;;
  rc <- children objd_lists right_rel ;;
  fc <- children objd_lists front_rel ;;
  bc <- children objd_lists behind_rel ;;
  ret {| os_obj := objd; os_id := i;
         left_names := available_primary_names;
         left_child := lc; right_child := rc;
         behind_child := bc; front_child := fc |}.

(** *** Adjusting the names of the related objects *)

(** the [# 1d] loop body: the quantified name of a one-attribute window of
    a related object, judged against the ids related to the pivot *)
Definition secondary_name (ix : Index) (rel_object_ids : list nat)
    (comb1d : string) : result string :=
  all_ids <- dget_exn comb1d (image_2ids ix) ;;
  if 0 <? length (Py.set_diffn (Py.to_setn all_ids) (Py.to_setn rel_object_ids))
  then ret ("some " ++ comb1d)%string
  else if length all_ids =? 1
       then ret ("Exactly one all " ++ comb1d)%string
       else ret ("all " ++ comb1d)%string.

(** [for objectd_list in left_objects: ... for comb1d in comb1d_lists] *)
Definition secondary_names (ix : Index) (rel_object_ids : list nat)
    (rel_objects : list (list string)) : result (list string) :=
  for_each (fun objectd_list =>
              map_exn (secondary_name ix rel_object_ids)
                (map (Py.join " ") (combs 1 objectd_list)))
    rel_objects.

(** an [object_struct] with its four lists of secondary names *)
Record Described : Type := {
  struct_of : ObjectStruct;
  d_left : list string;
  d_right : list string;
  d_front : list string;
  d_behind : list string
}.

Definition describe (ix : Index) (rels : Relationships)
    (i_os : nat * ObjectStruct) : result Described :=
  let i := fst i_os in
  let os := snd i_os in
  left_object_ids <- nth_exn (rel_left rels) i ;;
  right_object_ids <- nth_exn (rel_right rels) i ;;
  front_object_ids <- nth_exn (rel_front rels) i ;;
  behind_object_ids <- nth_exn (rel_behind rels) i ;;
  dl <- secondary_names ix left_object_ids (left_child os) ;;
  dr <- secondary_names ix right_object_ids (right_child os) ;;
  df <- secondary_names ix front_object_ids (front_child os) ;;
  db <- secondary_names ix behind_object_ids (behind_child os) ;;
  ret {| struct_of := os; d_left := dl; d_right := dr;
         d_front := df; d_behind := db |}.

(** *** Adjusting the primary names: the utterances *)

(** a loop over ids that updates [(some_flag, count_ids)] and may raise *)
Fixpoint fold_exn {A S} (f : S -> A -> result S) (l : list A) (s : S)
  : result S :=
  match l with
  | [] => ret s
  | a :: l' => s' <- f s a ;; fold_exn f l' s'
  end.

(** the ["all" in descrip.split(" ")] case: [inv_rel] is the relation
    opposite to the list [descrip] comes from
    ([relationships['right']] while looping over [object_struct['left']]) *)
Definition count_all (ix : Index) (inv_rel : list (list nat))
    (primary_object_ids : list nat) (descrip : string)
    : result (bool * list nat) :=
  let object_under_discuss_name := Py.last_piece (Py.split "all " descrip) in
  second_object_ids <- dget_exn object_under_discuss_name (image_2ids ix) ;;
  fold_exn (fun st second_object_id =>
              rel <- nth_exn inv_rel second_object_id ;;
              let missing := Py.set_diffn primary_object_ids (Py.to_setn rel) in
              if 0 <? length missing
              then ret (true,
                        snd st ++ Py.set_diffn primary_object_ids missing)
              else ret st)
    second_object_ids (false, []).

(** the ["some" in descrip] case: [same_rel] is the relation the list
    [descrip] comes from *)
Definition count_some (ix : Index) (same_rel : list (list nat))
    (primary_object_ids : list nat) (descrip : string)
    : result (bool * list nat) :=
  let object_under_discuss_name := Py.last_piece (Py.split "some " descrip) in
  second_object_ids <- dget_exn object_under_discuss_name (image_2ids ix) ;;
  fold_exn (fun st primary_object_id =>
              rel <- nth_exn same_rel primary_object_id ;;
              match Py.set_intern (Py.to_setn rel) (Py.to_setn second_object_ids)
              with
              | [] => ret (true, snd st)
              | _ :: _ => ret (fst st, snd st ++ [primary_object_id])
              end)
    primary_object_ids (false, []).

(** [(some_flag, count_ids)] after the [if]/[elif] on [descrip] *)
Definition count_related (ix : Index) (inv_rel same_rel : list (list nat))
    (primary_object_ids : list nat) (descrip : string)
    : result (bool * list nat) :=
  if Py.mem "all" (Py.split " " descrip)
  then count_all ix inv_rel primary_object_ids descrip
  else if Py.contains "some" descrip
       then count_some ix same_rel primary_object_ids descrip
       else ret (false, []).

(** what is appended to [utterances], after the [count_ids] override *)
Definition render (phrase name_ descrip : string) (st : bool * list nat)
    : string :=
  let base := if fst st
              then ("some " ++ name_ ++ phrase ++ descrip)%string
              else ("all " ++ name_ ++ phrase ++ descrip)%string in
  if length (Py.to_setn (snd st)) =? 1
  then ("Exactly one " ++ base)%string
  else base.

(** one iteration of [for descrip in object_struct[...]] under a "some"
    primary name *)
Definition relate (ix : Index) (inv_rel same_rel : list (list nat))
    (phrase name_ : string) (primary_object_ids : list nat) (descrip : string)
    : result string :=
  st <- count_related ix inv_rel same_rel primary_object_ids descrip ;;
  ret (render phrase name_ descrip st).

(** the branch [if "some" in name] *)
Definition utterances_some (ix : Index) (rels : Relationships) (d : Described)
    (name : string) : result (list string) :=
  let name_ := Py.replace "some " "" name in
  if String.eqb name_ "objects" then ret []
  else
    ids <- dget_exn name_ (image_2ids ix) ;;
    let primary_object_ids := Py.to_setn ids in
    ul <- map_exn (relate ix (rel_right rels) (rel_left rels)
                     " on the right of " name_ primary_object_ids)
            (d_left d) ;;
    ur <- map_exn (relate ix (rel_left rels) (rel_right rels)
                     " on the left of " name_ primary_object_ids)
            (d_right d) ;;
    uf <- map_exn (relate ix (rel_behind rels) (rel_front rels)
                     " behind " name_ primary_object_ids)
            (d_front d) ;;
    ub <- map_exn (relate ix (rel_front rels) (rel_behind rels)
                     " in front of " name_ primary_object_ids)
            (d_behind d) ;;
    ret (ul ++ ur ++ uf ++ ub).

(** [descrip_.replace("some ", "").replace("Exactly one all ", "")
             .replace("all ", "")] *)
Definition strip_quantifier (descrip_ : string) : string :=
  Py.replace "all " ""
    (Py.replace "Exactly one all " "" (Py.replace "some " "" descrip_)).

(** one of the four loops of the [else] branch *)
Definition trivial_free (phrase name_ : string) (descrips : list string)
    : list string :=
  flat_map (fun descrip_ =>
              let descrip := strip_quantifier descrip_ in
              if String.eqb descrip name_ then []
              else [("some " ++ name_ ++ phrase ++ descrip)%string])
    descrips.

(** the branch [else: # all] *)
Definition utterances_all (ix : Index) (d : Described) (name : string)
    : result (list string) :=
  let name_ := Py.replace "all " "" name in
  if String.eqb name_ "objects" then ret []
  else
    ids <- dget_exn name_ (image_2ids ix) ;;
    ret (trivial_free "on the right of" name_ (d_left d) ++
         trivial_free "on the left of" name_ (d_right d) ++
         trivial_free "behind" name_ (d_front d) ++
         trivial_free "on the front of" name_ (d_behind d)).

(** the body of [for name in primary_names] *)
Definition utterances_of_name (ix : Index) (rels : Relationships)
    (d : Described) (name : string) : result (list string) :=
  if Py.contains "some" name
  then utterances_some ix rels d name
  else utterances_all ix d name.

(** the body of [for i, object_struct in enumerate(objects_structs)] *)
Definition utterances_of_object (ix : Index) (rels : Relationships)
    (d : Described) : result (list string) :=
  for_each (utterances_of_name ix rels d) (left_names (struct_of d)).

(** what [parse_scene] writes: the two lists of the intrinsic JSON file
    and the set of utterances, one file each *)
Record Output : Type := {
  intrinsic_some : list string;
  intrinsic_all : list string;
  utterance_set : list string
}.

Definition parse_scene (scene_dict : Scene) : result Output :=
  let objs := objects scene_dict in
  let rels := relationships scene_dict in
  let objd_lists := map objd_list_of objs in
  let objds := map objd_of objs in
  let ix := build_index objs in
  objects_structs <-
    map_exn (object_struct ix objd_lists rels) (Py.enumerate objds) ;;
  described <-
    map_exn (describe ix rels) (Py.enumerate objects_structs) ;;
  utterances <- for_each (utterances_of_object ix rels) described ;;
  ret {| intrinsic_some := dkeys (image_some2ids ix);
         intrinsic_all := image_all ix;
         utterance_set := nodup string_dec utterances |}.

End ParseScene.

(** ** [calculate_ad_hoc_matrix] and its caller *)

Module AdHoc.

(** [np.zeros(n)]; before normalisation a vector only ever holds small
    whole numbers, kept as [nat] *)
Definition zeros (n : nat) : list nat := repeat 0 n.

(** [v[i] = x] *)
Fixpoint set_nth (i x : nat) (v : list nat) : list nat :=
  match v, i with
  | [], _ => []
  | _ :: v', O => x :: v'
  | y :: v', S i' => y :: set_nth i' x v'
  end.

(** [if value not in utterance_lists: ... = np.zeros(len(objects)); ...[i] = 1]
    [else: utterance_lists[value][i] += 1] *)
Definition tally (n i : nat) (ul : dict (list nat)) (value : string)
    : dict (list nat) :=
  match dget value ul with
  | None => dset value (set_nth i 1 (zeros n)) ul
  | Some v => dset value (set_nth i (nth i v 0 + 1) v) ul
  end.

(** the body of the first loop: shape, size, material, color, in this
    order ([objects_whole_string] is only read by commented-out code and is
    left out) *)
Definition tally_object (n : nat) (ul : dict (list nat))
    (i_obj : nat * SceneObject) : dict (list nat) :=
  let i := fst i_obj in
  let obj := snd i_obj in
  fold_left (tally n i) [shape obj; size obj; material obj; color obj] ul.

Definition utterance_lists (objs : list SceneObject) : dict (list nat) :=
  fold_left (tally_object (length objs)) (Py.enumerate objs) [].

Definition sum (v : list nat) : nat := fold_right Nat.add 0 v.

Definition of_nat (x : nat) : Q := inject_Z (Z.of_nat x).

(** [v / (np.sum(v) + 1e-3)] *)
Definition normalize (v : list nat) : list Q :=
  map (fun x => (of_nat x / (of_nat (sum v) + (1 # 1000)))%Q) v.

(** [keys] and [full_matrix]: row [r] is the normalised vector of
    [keys[r]] *)
Definition keys_of (objs : list SceneObject) : list string :=
  dkeys (utterance_lists objs).

Definition full_matrix_of (objs : list SceneObject) : list (list Q) :=
  map (fun kv => normalize (snd kv)) (utterance_lists objs).

(** [full_matrix[:,i]] *)
Definition column (m : list (list Q)) (i : nat) : list Q :=
  map (fun row => nth i row 0%Q) m.

Definition qmax (a b : Q) : Q := if Qle_bool a b then b else a.

(** [c.max()] of a non-empty column *)
Definition maximum (c : list Q) : Q :=
  match c with
  | [] => 0%Q
  | x :: c' => fold_left qmax c' x
  end.

(** [np.where(c == c.max())[0]] *)
Definition where_max (c : list Q) : list nat :=
  Py.inds (fun x => Qeq_bool x (maximum c)) c.

(** [np.argmax(c)]: the first row that attains the maximum *)
Definition argmax (c : list Q) : nat := hd 0 (where_max c).

Definition key_at (keys : list string) (r : nat) : string :=
  nth r keys EmptyString.

(** an entry of [full_utterance_obj_pairs]: [[i, [key, ...]]] from the
    first two branches, [[i, key]] from the third *)
Inductive FullEntry : Type :=
| Listed (i : nat) (ks : list string)
| Dominant (i : nat) (k : string).

Record Scan : Type := {
  utterance_obj_pairs : list (nat * string);
  repeat_obj_pairs : list string;
  full_utterance_obj_pairs : list FullEntry
}.

(** the body of [for i, obj_name in enumerate(objects)] *)
Definition scan_object (keys : list string) (m : list (list Q)) (st : Scan)
    (i : nat) : Scan :=
  let c := column m i in
  let hits := where_max c in
  if (length hits =? 1) && negb (Qle_bool (9 # 10) (maximum c))
  then {| utterance_obj_pairs :=
            utterance_obj_pairs st ++ [(i, key_at keys (argmax c))];
          repeat_obj_pairs := repeat_obj_pairs st;
          full_utterance_obj_pairs :=
            full_utterance_obj_pairs st ++ [Listed i [key_at keys (argmax c)]] |}
  else if negb (length hits =? 1)
  then let temp_keys := map (key_at keys) hits in
       {| utterance_obj_pairs := utterance_obj_pairs st;
          repeat_obj_pairs := repeat_obj_pairs st ++ temp_keys;
          full_utterance_obj_pairs :=
            full_utterance_obj_pairs st ++ [Listed i temp_keys] |}
  else if Qle_bool (9 # 10) (maximum c)
  then {| utterance_obj_pairs := utterance_obj_pairs st;
          repeat_obj_pairs := repeat_obj_pairs st;
          full_utterance_obj_pairs :=
            full_utterance_obj_pairs st ++ [Dominant i (key_at keys (argmax c))] |}
  else st.

Definition scan (keys : list string) (m : list (list Q)) (n : nat) : Scan :=
  fold_left (scan_object keys m) (seq 0 n)
    {| utterance_obj_pairs := []; repeat_obj_pairs := [];
       full_utterance_obj_pairs := [] |}.

(** [utterance_count]: for each value, the positions [j] in
    [utterance_obj_pairs] that carry it *)
Definition count_pair (uc : dict (list nat)) (j_pair : nat * (nat * string))
    : dict (list nat) :=
  let j := fst j_pair in
  let happy := snd (snd j_pair) in
  match dget happy uc with
  | None => dset happy [j] uc
  | Some js => dset happy (js ++ [j]) uc
  end.

Definition utterance_count (pairs : list (nat * string)) : dict (list nat) :=
  fold_left count_pair (Py.enumerate pairs) [].

(** [updated_utterance_obj_pairs] *)
Definition updated_pairs (pairs : list (nat * string)) (repeated : list string)
    : list (nat * string) :=
  flat_map (fun kv =>
              if (length (snd kv) =? 1) && negb (Py.mem (fst kv) repeated)
              then [nth (hd 0 (snd kv)) pairs (0, EmptyString)]
              else [])
    (utterance_count pairs).

(** the final filtered candidate set, before the test for emptiness *)
Definition filtered (objs : list SceneObject) : list (nat * string) :=
  let st := scan (keys_of objs) (full_matrix_of objs) (length objs) in
  updated_pairs (utterance_obj_pairs st) (repeat_obj_pairs st).

(** [None] is [return None, None, None] *)
Definition calculate_ad_hoc_matrix (objs : list SceneObject)
    : option (list FullEntry * list (nat * string) * list (list Q)) :=
  let keys := keys_of objs in
  let m := full_matrix_of objs in
  let st := scan keys m (length objs) in
  let updated := updated_pairs (utterance_obj_pairs st) (repeat_obj_pairs st) in
  match updated with
  | [] => None
  | _ :: _ => Some (full_utterance_obj_pairs st, updated, m)
  end.

(** One pass through the body of [add_ad_hoc_random_objects] draws the
    objects at random; what the draws give is an [Attempt]: placement ran
    out of retries, or the objects were placed, with the outcome of
    [check_visibility]. The recursion of the source consumes one attempt
    per call; [None] means that the attempts given do not suffice. *)
Inductive Attempt : Type :=
| OutOfRetries
| Placed (objs : list SceneObject) (all_visible : bool).

Fixpoint add_ad_hoc_random_objects (attempts : list Attempt)
  : option (list SceneObject * list (nat * string) * list (list Q)
            * list FullEntry) :=
  match attempts with
  | [] => None
  | OutOfRetries :: rest => add_ad_hoc_random_objects rest
  | Placed objs all_visible :: rest =>
      match calculate_ad_hoc_matrix objs with
      | None => add_ad_hoc_random_objects rest
      | Some (raw_utterance_obj_pairs, utterance_obj_pairs, full_matrix) =>
          if all_visible
          then Some (objs, utterance_obj_pairs, full_matrix,
                     raw_utterance_obj_pairs)
          else add_ad_hoc_random_objects rest
      end
  end.

(** the rows that attain the maximum of the column of object [i], and the
    two ways in which a value can be "best" for an object *)
Definition best_rows (objs : list SceneObject) (i : nat) : list nat :=
  where_max (column (full_matrix_of objs) i).

Definition ties_for_best (objs : list SceneObject) (v : string) (i : nat)
    : Prop :=
  i < length objs /\
  length (best_rows objs i) <> 1 /\
  In v (map (key_at (keys_of objs)) (best_rows objs i)).

Definition unique_best (objs : list SceneObject) (v : string) (i : nat)
    : Prop :=
  i < length objs /\
  exists r, best_rows objs i = [r] /\ key_at (keys_of objs) r = v.

(** how often object [o] carries the value [v] *)
Definition mult (v : string) (o : SceneObject) : nat :=
  length (filter (String.eqb v) [shape o; size o; material o; color o]).

(** the score of value [v] for object [i]: the entry of [full_matrix] in
    the row of [v] and the column of [i] *)
Definition score (objs : list SceneObject) (v : string) (i : nat) : Q :=
  (of_nat (nth i (map (mult v) objs) 0%nat)
   / (of_nat (sum (map (mult v) objs)) + (1 # 1000)))%Q.

(** what one iteration of the scan adds to [utterance_obj_pairs] and to
    [repeat_obj_pairs] *)
Definition candidates_at (keys : list string) (m : list (list Q)) (i : nat)
    : list (nat * string) :=
  let c := column m i in
  if (length (where_max c) =? 1) && negb (Qle_bool (9 # 10) (maximum c))
  then [(i, key_at keys (argmax c))]
  else [].

Definition repeated_at (keys : list string) (m : list (list Q)) (i : nat)
    : list string :=
  let c := column m i in
  if length (where_max c) =? 1 then [] else map (key_at keys) (where_max c).

(** the positions of [utterance_obj_pairs] that carry the value [k] *)
Definition positions_of (k : string) (pairs : list (nat * string)) : list nat :=
  Py.inds (fun p => String.eqb (snd p) k) pairs.

(** [utterance_lists] after the first loop has gone through the objects
    [p], out of [n]: a value has a vector when some object of [p] carries
    it, and the vector counts its occurrences object by object *)
Definition tallied (n : nat) (p : list SceneObject) (ul : dict (list nat))
    : Prop :=
  forall v,
    dget v ul = if 0 <? sum (map (mult v) p)
                then Some (map (mult v) p ++ zeros (n - length p))
                else None.

(** the same in the middle of the loop body for object number [length p],
    of which [cnt v] occurrences of [v] have been seen *)
Definition counted (n : nat) (p : list SceneObject) (cnt : string -> nat)
    (ul : dict (list nat)) : Prop :=
  forall v,
    dget v ul = if 0 <? sum (map (mult v) p) + cnt v
                then Some (map (mult v) p ++ cnt v :: zeros (n - length p - 1))
                else None.

End AdHoc.

(** ** Vocabulary of the statements *)

(** the contiguous windows of a description, all ten of them *)
Definition windows (objd_list : list string) : list (list string) :=
  ParseScene.combs 1 objd_list ++ ParseScene.combs 2 objd_list ++
  ParseScene.combs 3 objd_list ++ ParseScene.combs 4 objd_list.

(** the four attribute values of an object are pairwise distinct *)
Definition distinct_values (o : SceneObject) : Prop :=
  NoDup (ParseScene.objd_list_of o).

(** no attribute value of the object contains a space *)
Definition space_free (o : SceneObject) : Prop :=
  forall a, In a (ParseScene.objd_list_of o) -> Py.contains " " a = false.

(** the extension that [build_index] computes for a window, by its
    length *)
Definition extension_of (objs : list SceneObject) (w : list string)
    : list nat :=
  let objd_lists := map ParseScene.objd_list_of objs in
  let objds := map ParseScene.objd_of objs in
  match w with
  | [attr] => ParseScene.ext1 objds attr
  | [_; _] => ParseScene.ext_set objd_lists 2 w
  | [_; _; _] => ParseScene.ext_set objd_lists 1 w
  | _ => ParseScene.ext_full objd_lists w
  end.

(** the assignments [image_2ids[key] = obj_inds] of one object and of the
    whole first pass, in the order in which they happen *)
Definition writes_of_object (objs : list SceneObject) (o : SceneObject)
    : list (string * list nat) :=
  let l := ParseScene.objd_list_of o in
  map (fun w => (Py.join " " w, extension_of objs w))
    (ParseScene.combs 1 l ++ ParseScene.combs 2 l ++ ParseScene.combs 3 l
     ++ [l]).

Definition writes (objs : list SceneObject) : list (string * list nat) :=
  flat_map (writes_of_object objs) objs.

(** [record_ext] along a sequence of assignments *)
Definition replay (len_objects : nat) (ws : list (string * list nat))
    (ix : ParseScene.Index) : ParseScene.Index :=
  fold_left (fun ix kv => ParseScene.record_ext len_objects (fst kv) (snd kv) ix)
    ws ix.

(** ** Scenes used below *)

Module Examples.

Definition obj (sz c m sh : string) : SceneObject :=
  {| size := sz; color := c; material := m; shape := sh |}.

(** the three objects of the scenarios of the specification, with object 2
    having objects 0 and 1 in its [left] list and the inverse [right]
    lists *)
Definition objs3 : list SceneObject :=
  [obj "small" "red" "rubber" "cube";
   obj "large" "red" "rubber" "cube";
   obj "small" "blue" "metal" "sphere"].

Definition rels3 : Relationships :=
  {| rel_left := [[]; []; [0; 1]];
     rel_right := [[2]; [2]; []];
     rel_front := [[]; []; []];
     rel_behind := [[]; []; []] |}.

Definition scene3 : Scene := {| objects := objs3; relationships := rels3 |}.

Definition ix3 : ParseScene.Index := ParseScene.build_index objs3.

(** the structures of the three pivots after the second and third pass *)
Definition described3 : result (list ParseScene.Described) :=
  objects_structs <-
    map_exn (ParseScene.object_struct ix3
               (map ParseScene.objd_list_of objs3) rels3)
      (Py.enumerate (map ParseScene.objd_of objs3)) ;;
  map_exn (ParseScene.describe ix3 rels3) (Py.enumerate objects_structs).

(** for every pivot and every primary name, what the utterance loop does *)
Definition per_name3 : list (list (result (list string))) :=
  match described3 with
  | inr ds =>
      map (fun d =>
             map (ParseScene.utterances_of_name ix3 rels3 d)
               (ParseScene.left_names (ParseScene.struct_of d)))
        ds
  | inl _ => []
  end.

(** what the utterance loop appends for pivot [i] of [scene3] under the
    primary name [name] *)
Definition utterances3 (i : nat) (name : string) : result (list string) :=
  ds <- described3 ;;
  d <- nth_exn ds i ;;
  ParseScene.utterances_of_name ix3 rels3 d name.

(** an utterance that speaks of red, of "on the right of" and of blue *)
Definition red_right_of_blue (u : string) : bool :=
  Py.contains "red" u && Py.contains "on the right of" u
  && Py.contains "blue" u.

Definition none_red_right_of_blue
    (rs : list (list (result (list string)))) : bool :=
  forallb (forallb (fun r => match r with
                             | inr us => forallb (fun u => negb (red_right_of_blue u)) us
                             | inl _ => true
                             end)) rs.

(** two objects that differ in colour only *)
Definition scene_two_colors : Scene :=
  {| objects := [obj "small" "red" "rubber" "cube";
                 obj "small" "blue" "rubber" "cube"];
     relationships :=
       {| rel_left := [[]; [0]]; rel_right := [[1]; []];
          rel_front := [[1]; []]; rel_behind := [[]; [0]] |} |}.

(** one object alone *)
Definition scene_single : Scene :=
  {| objects := [obj "small" "red" "rubber" "cube"];
     relationships :=
       {| rel_left := [[]]; rel_right := [[]];
          rel_front := [[]]; rel_behind := [[]] |} |}.

(** two objects with the same four attributes *)
Definition scene_twins : Scene :=
  {| objects := [obj "small" "red" "rubber" "cube";
                 obj "small" "red" "rubber" "cube"];
     relationships :=
       {| rel_left := [[]; [0]]; rel_right := [[1]; []];
          rel_front := [[]; []]; rel_behind := [[]; []] |} |}.

(** a colour name that occurs inside another colour name *)
Definition objs_darkred : list SceneObject :=
  [obj "small" "red" "rubber" "cube";
   obj "large" "darkred" "metal" "sphere"].

(** an attribute value with a space in it: the size of object 0 reads like
    the first two attributes of object 1 *)
Definition objs_spaced : list SceneObject :=
  [obj "a b" "c" "d" "e"; obj "a" "b" "x" "y"].

(** the same two objects in the other order *)
Definition objs_spaced_rev : list SceneObject :=
  [obj "a" "b" "x" "y"; obj "a b" "c" "d" "e"].

(** four objects, one blue and three red, alike otherwise; the same with a
    second blue object; and a variant in which the second blue object has a
    shape of its own *)
Definition one_blue : list SceneObject :=
  [obj "large" "blue" "rubber" "cube"; obj "large" "red" "rubber" "cube";
   obj "large" "red" "rubber" "cube"; obj "large" "red" "rubber" "cube"].

Definition two_blue : list SceneObject :=
  [obj "large" "blue" "rubber" "cube"; obj "large" "blue" "rubber" "cube";
   obj "large" "red" "rubber" "cube"; obj "large" "red" "rubber" "cube"].

Definition two_blue_one_sphere : list SceneObject :=
  [obj "large" "blue" "rubber" "cube"; obj "large" "blue" "rubber" "sphere";
   obj "large" "red" "rubber" "cube"; obj "large" "red" "rubber" "cube"].

End Examples.

(** ** Vocabulary of the further statements *)

(** row [i] of a relationship list exists and names objects only *)
Definition row_ok (n : nat) (rel : list (list nat)) (i : nat) : bool :=
  match nth_error rel i with
  | Some ids => forallb (fun j => j <? n) ids
  | None => false
  end.

Definition rows_at (n : nat) (rels : Relationships) (i : nat) : bool :=
  row_ok n (rel_left rels) i && row_ok n (rel_right rels) i
  && row_ok n (rel_front rels) i && row_ok n (rel_behind rels) i.

(** every object has its row in each of the four relationship lists *)
Definition rows_ok (n : nat) (rels : Relationships) : bool :=
  forallb (rows_at n rels) (seq 0 n).

(** an attribute value that the quantified names can carry: no space, no
    "some" inside, and neither of the words "all" and "Exactly" *)
Definition plain_value (a : string) : Prop :=
  Py.contains " " a = false /\ Py.contains "some" a = false /\
  a <> "all" /\ a <> "Exactly".

Definition plain_object (o : SceneObject) : Prop :=
  forall a, In a (ParseScene.objd_list_of o) -> plain_value a.

(** [attr] is an attribute value of some object *)
Definition attribute_of (objs : list SceneObject) (attr : string) : Prop :=
  exists o, In o objs /\ In attr (ParseScene.objd_list_of o).

(** an attribute value found in the description of exactly one of several
    objects *)
Definition lone_attribute (objs : list SceneObject) (attr : string) : Prop :=
  attribute_of objs attr /\
  length (extension_of objs [attr]) = 1 /\ length objs <> 1.

(** a secondary name: a quantifier in front of an attribute value *)
Definition secondary_form (objs : list SceneObject) (descrip : string) : Prop :=
  exists y, attribute_of objs y /\
            (descrip = ("some " ++ y)%string \/
             descrip = ("all " ++ y)%string \/
             descrip = ("Exactly one all " ++ y)%string).

(** what the second pass stores for object [fst i_objd] when it does not
    raise: its primary names, and descriptions of objects as children *)
Definition struct_ok (ix : ParseScene.Index) (objd_lists : list (list string))
    (i_objd : nat * string) (s : ParseScene.ObjectStruct) : Prop :=
  ParseScene.left_names s
  = ParseScene.primary_names ix (nth (fst i_objd) objd_lists []) /\
  Forall (fun c => In c objd_lists) (ParseScene.left_child s) /\
  Forall (fun c => In c objd_lists) (ParseScene.right_child s) /\
  Forall (fun c => In c objd_lists) (ParseScene.front_child s) /\
  Forall (fun c => In c objd_lists) (ParseScene.behind_child s).

(** what the third pass adds: four lists of secondary names *)
Definition described_ok (objs : list SceneObject)
    (i_os : nat * ParseScene.ObjectStruct) (d : ParseScene.Described) : Prop :=
  ParseScene.struct_of d = snd i_os /\
  Forall (secondary_form objs) (ParseScene.d_left d) /\
  Forall (secondary_form objs) (ParseScene.d_right d) /\
  Forall (secondary_form objs) (ParseScene.d_front d) /\
  Forall (secondary_form objs) (ParseScene.d_behind d).

(** every object id below [n] has a row in [rel] *)
Definition has_rows (n : nat) (rel : list (list nat)) : Prop :=
  forall i, i < n -> exists r, nth_exn rel i = inr r.

Definition key_error (e : exn) : Prop := exists k, e = KeyError k.

(** ** Further scenes *)

Module Scenes.

(** two pairs of alike objects: no attribute value is held by one object
    only *)
Definition scene_pairs : Scene :=
  {| objects := [Examples.obj "small" "red" "rubber" "cube";
                 Examples.obj "large" "blue" "metal" "sphere";
                 Examples.obj "small" "red" "rubber" "cube";
                 Examples.obj "large" "blue" "metal" "sphere"];
     relationships :=
       {| rel_left := [[]; [0]; [0; 1]; [0; 1; 2]];
          rel_right := [[1; 2; 3]; [2; 3]; [3]; []];
          rel_front := [[1]; []; [3]; []];
          rel_behind := [[]; [0]; []; [2]] |} |}.

End Scenes.

(** ** Vocabulary for [full_utterance_obj_pairs] *)

(** the object id of an entry *)
Definition entry_id (e : AdHoc.FullEntry) : nat :=
  match e with
  | AdHoc.Listed i _ => i
  | AdHoc.Dominant i _ => i
  end.

(** what one iteration of the scan appends to [full_utterance_obj_pairs] *)
Definition entry_at (keys : list string) (m : list (list Q)) (i : nat)
    : AdHoc.FullEntry :=
  let c := AdHoc.column m i in
  let hits := AdHoc.where_max c in
  if (length hits =? 1) && negb (Qle_bool (9 # 10) (AdHoc.maximum c))
  then AdHoc.Listed i [AdHoc.key_at keys (AdHoc.argmax c)]
  else if negb (length hits =? 1)
       then AdHoc.Listed i (map (AdHoc.key_at keys) hits)
       else AdHoc.Dominant i (AdHoc.key_at keys (AdHoc.argmax c)).

(** the four attribute values of an object, in the order of the tally *)
Definition values_of (o : SceneObject) : list string :=
  [shape o; size o; material o; color o].

(** ** [render_ad_hoc_scene]: the choice of the referent

    The part of [render_ad_hoc_scene] between the call of
    [add_ad_hoc_random_objects] and the rendering: [obj_uttr_pair] is what
    [random.sample(utterance_obj_pairs, 1)[0]] drew. The loop that sets
    [temp_obj_id] is left out: the variable is never read. *)

Module RenderAdHoc.

(** what is written to [output_type_txt] *)
Inductive Difficulty : Type := Easy | Difficult.

(** [return None, None], or [return (obj_ind, utterance)] after
    [scene_struct['referent']] has been set *)
Inductive Returned : Type :=
| NoReferent
| Referent (obj_ind : nat) (utterance : string) (referent : string).

(** [obj['size'] + " " + obj['color'] + " " + obj['material'] + " "
     + obj['shape']] *)
Definition description (obj : SceneObject) : string :=
  (size obj ++ " " ++ color obj ++ " " ++ material obj ++ " " ++ shape obj)
  %string.

(** [temp_flag] after the loop over [utterance_split] *)
Definition temp_flag (utterance_split : list string) (obj : SceneObject)
    : bool :=
  forallb (fun u_split => Py.contains u_split (description obj))
    utterance_split.

(** [raw_utterance_obj_pairs[i][1][0]]: the first key of a list of keys;
    of an entry with a single key, a string, its first character *)
Definition first_of (e : AdHoc.FullEntry) : result string :=
  match e with
  | AdHoc.Listed _ ks => nth_exn ks 0
  | AdHoc.Dominant _ k =>
      match k with
      | EmptyString => raise IndexError
      | String c _ => ret (String c EmptyString)
      end
  end.

(** [other_utterances] after the loop over the objects *)
Definition other_utterances (objs : list SceneObject)
    (raw_utterance_obj_pairs : list AdHoc.FullEntry) (obj_ind : nat)
    (utterance : string) : result (list string) :=
  let utterance_split := Py.split " " utterance in
  for_each (fun i_obj =>
              if temp_flag utterance_split (snd i_obj)
                 && negb (obj_ind =? fst i_obj)
              then e <- nth_exn raw_utterance_obj_pairs (fst i_obj) ;;
                   u <- first_of e ;;
                   ret [u]
              else ret [])
    (Py.enumerate objs).

(** [len(other_utterances) == len(other_utterances_set)] *)
Definition difficulty (others : list string) : Difficulty :=
  if length others =? length (Py.to_set others) then Easy else Difficult.

(** [count]: the pairs that carry the utterance drawn *)
Definition count (utterance_obj_pairs : list (nat * string))
    (utterance : string) : nat :=
  length (filter (fun p => String.eqb (snd p) utterance) utterance_obj_pairs).

Definition choose_referent (objs : list SceneObject)
    (utterance_obj_pairs : list (nat * string))
    (raw_utterance_obj_pairs : list AdHoc.FullEntry)
    (obj_uttr_pair : nat * string) : result (Difficulty * Returned) :=
  let obj_ind := fst obj_uttr_pair in
  let utterance := snd obj_uttr_pair in
  others <- other_utterances objs raw_utterance_obj_pairs obj_ind utterance ;;
  if 1 <? count utterance_obj_pairs utterance
  then ret (difficulty others, NoReferent)
  else
    obj <- nth_exn objs obj_ind ;;
    ret (difficulty others, Referent obj_ind utterance (description obj)).

End RenderAdHoc.

(** ** [compute_all_relationships]

    Coordinates are exact rationals, as in [calculate_ad_hoc_matrix]. The
    statements proved about the lists use that a difference and a product
    change sign with their arguments, which holds of floating-point numbers
    as well. *)

Module Spatial.

Definition vec : Type := (Q * Q * Q)%type.

(** an element of [scene_struct['objects']] as the placement loops build
    it *)
Record PlacedObject : Type := {
  described : SceneObject;
  coords3d : vec;
  rotation : Q;
  pixel_coords : list Q
}.

(** [scene_struct['directions']]; the entries 'above' and 'below' are
    skipped by the loop and left out *)
Record Directions : Type := {
  dir_behind : vec;
  dir_front : vec;
  dir_left : vec;
  dir_right : vec
}.

(** [tuple(-plane_behind)] *)
Definition neg (v : vec) : vec :=
  let '(x, y, z) := v in (- x, - y, - z)%Q.

(** the four assignments to [scene_struct['directions']] in
    [render_scene] and [render_ad_hoc_scene] *)
Definition directions_of (plane_behind plane_left : vec) : Directions :=
  {| dir_behind := plane_behind; dir_front := neg plane_behind;
     dir_left := plane_left; dir_right := neg plane_left |}.

Definition vec_eqb (a b : vec) : bool :=
  let '(x, y, z) := a in
  let '(x', y', z') := b in
  Qeq_bool x x' && Qeq_bool y y' && Qeq_bool z z'.

Fixpoint list_Qeqb (a b : list Q) : bool :=
  match a, b with
  | [], [] => true
  | x :: a', y :: b' => Qeq_bool x y && list_Qeqb a' b'
  | _, _ => false
  end.

(** [obj1 == obj2] on the dictionaries of two objects *)
Definition same_object (obj1 obj2 : PlacedObject) : bool :=
  String.eqb (shape (described obj1)) (shape (described obj2))
  && String.eqb (size (described obj1)) (size (described obj2))
  && String.eqb (material (described obj1)) (material (described obj2))
  && vec_eqb (coords3d obj1) (coords3d obj2)
  && Qeq_bool (rotation obj1) (rotation obj2)
  && list_Qeqb (pixel_coords obj1) (pixel_coords obj2)
  && String.eqb (color (described obj1)) (color (described obj2)).

(** [diff = [coords2[k] - coords1[k] for k in [0, 1, 2]]] and
    [dot = sum(diff[k] * direction_vec[k] for k in [0, 1, 2])] *)
Definition dot (coords1 coords2 direction_vec : vec) : Q :=
  let '(x1, y1, z1) := coords1 in
  let '(x2, y2, z2) := coords2 in
  let '(dx, dy, dz) := direction_vec in
  (0 + (x2 - x1) * dx + (y2 - y1) * dy + (z2 - z1) * dz)%Q.

(** [sorted(list(related))] for one [obj1]: the indices are added to the
    set in increasing order, each once *)
Definition related (direction_vec : vec) (eps : Q)
    (objs : list PlacedObject) (obj1 : PlacedObject) : list nat :=
  Py.inds (fun obj2 =>
             negb (same_object obj1 obj2)
             && negb (Qle_bool (dot (coords3d obj1) (coords3d obj2)
                                  direction_vec) eps))
    objs.

(** [all_relationships[name]] *)
Definition related_lists (direction_vec : vec) (eps : Q)
    (objs : list PlacedObject) : list (list nat) :=
  map (related direction_vec eps objs) objs.

(** with the default [eps=0.2], as every caller has it *)
Definition compute_all_relationships (directions : Directions)
    (objs : list PlacedObject) : Relationships :=
  let eps := (2 # 10)%Q in
  {| rel_left := related_lists (dir_left directions) eps objs;
     rel_right := related_lists (dir_right directions) eps objs;
     rel_front := related_lists (dir_front directions) eps objs;
     rel_behind := related_lists (dir_behind directions) eps objs |}.

(** the scene that [parse_scene] reads back: the objects with their
    relationships *)
Definition scene_of (directions : Directions) (objs : list PlacedObject)
    : Scene :=
  {| objects := map described objs;
     relationships := compute_all_relationships directions objs |}.

End Spatial.

(** ** The shapes of the utterances *)

(** an utterance of the branch [if "some" in name]: a quantifier, the
    primary attribute, a preposition between spaces and a secondary name *)
Definition relational_shape (objs : list SceneObject) (u : string) : Prop :=
  exists q x phrase descrip,
    In q ["some "; "all "; "Exactly one some "; "Exactly one all "] /\
    attribute_of objs x /\
    In phrase [" on the right of "; " on the left of "; " behind ";
               " in front of "] /\
    secondary_form objs descrip /\
    u = (q ++ x ++ phrase ++ descrip)%string.

(** an utterance of the branch [else]: "some", the primary attribute, a
    preposition and another attribute, the last three not separated *)
Definition bare_shape (objs : list SceneObject) (u : string) : Prop :=
  exists x phrase y,
    attribute_of objs x /\
    In phrase ["on the right of"; "on the left of"; "behind";
               "on the front of"] /\
    attribute_of objs y /\ y <> x /\
    u = ("some " ++ x ++ phrase ++ y)%string.

(** ** [check_visibility]

    The part after the shadeless image has been rendered and loaded: [p]
    is [list(img.pixels)], [blender_objects] the number of objects. *)

Module Visibility.

Definition rgba : Type := (Q * Q * Q * Q)%type.

Definition rgba_eqb (a b : rgba) : bool :=
  let '(r, g, b0, a0) := a in
  let '(r', g', b', a') := b in
  Qeq_bool r r' && Qeq_bool g g' && Qeq_bool b0 b' && Qeq_bool a0 a'.

(** [(p[i], p[i+1], p[i+2], p[i+3]) for i in range(0, len(p), 4)] *)
Fixpoint colors_of (p : list Q) : result (list rgba) :=
  match p with
  | [] => ret []
  | r :: g :: b :: a :: rest =>
      cs <- colors_of rest ;;
      ret ((r, g, b, a) :: cs)
  | _ => raise IndexError
  end.

(** [color_count[c] += 1] *)
Fixpoint count_color (c : rgba) (color_count : list (rgba * nat))
    : list (rgba * nat) :=
  match color_count with
  | [] => [(c, 1)]
  | (c', k) :: rest =>
      if rgba_eqb c c' then (c', S k) :: rest
      else (c', k) :: count_color c rest
  end.

(** [Counter(...)] *)
Definition Counter (cs : list rgba) : list (rgba * nat) :=
  fold_left (fun color_count c => count_color c color_count) cs [].

(** the loop over [most_common()] returns [False] at the first count
    below the minimum, whatever the order *)
Definition check_visibility (p : list Q) (blender_objects : nat)
    (min_pixels_per_object : nat) : result bool :=
  cs <- colors_of p ;;
  let color_count := Counter cs in
  if negb (length color_count =? blender_objects + 1) then ret false
  else ret (forallb (fun kc => negb (snd kc <? min_pixels_per_object))
              color_count).

(** the pixels that a counter accounts for *)
Definition counted_pixels (color_count : list (rgba * nat)) : nat :=
  fold_right (fun kc acc => snd kc + acc) 0 color_count.

End Visibility.

(** ** A placement *)

Module Placements.

(** two objects side by side, seen from the front: 'left' points along
    the negative first axis *)
Definition placed_pair : list Spatial.PlacedObject :=
  [{| Spatial.described := Examples.obj "small" "red" "rubber" "cube";
      Spatial.coords3d := (0, 0, 0)%Q;
      Spatial.rotation := 30%Q;
      Spatial.pixel_coords := [120; 200; 11]%Q |};
   {| Spatial.described := Examples.obj "small" "blue" "rubber" "cube";
      Spatial.coords3d := (1, 1 # 2, 0)%Q;
      Spatial.rotation := 45%Q;
      Spatial.pixel_coords := [260; 180; 12]%Q |}].

Definition plane_behind : Spatial.vec := (0, 1, 0)%Q.

Definition plane_left : Spatial.vec := (- (1), 0, 0)%Q.

End Placements.

(** * Properties *)

(** ** Dictionaries *)

Section DictFacts.

Context {V : Type}.
Implicit Types (d : dict V) (k : string) (v : V).

Lemma dget_dset_eq k v d : dget k (dset k v d) = Some v.
Proof.
  induction d as [|[k' v'] d IH]; simpl.
  - now rewrite String.eqb_refl.
  - destruct (String.eqb k k') eqn:E; simpl; rewrite E; auto.
Qed.

Lemma dget_dset_ne k k' v d : k <> k' -> dget k (dset k' v d) = dget k d.
Proof.
  intros Hne. induction d as [|[k0 v0] d IH]; simpl.
  - destruct (String.eqb_spec k k'); congruence.
  - destruct (String.eqb_spec k' k0) as [->|Hk]; simpl.
    + destruct (String.eqb_spec k k0); congruence.
    + destruct (String.eqb_spec k k0); auto.
Qed.

Lemma dkeys_dset k k' v d :
  In k (dkeys (dset k' v d)) <-> k = k' \/ In k (dkeys d).
Proof.
  unfold dkeys. induction d as [|[k0 v0] d IH]; simpl.
  - intuition.
  - destruct (String.eqb_spec k' k0) as [->|Hk]; simpl.
    + intuition.
    + rewrite IH. intuition.
Qed.

Lemma NoDup_dkeys_dset k v d : NoDup (dkeys d) -> NoDup (dkeys (dset k v d)).
Proof.
  unfold dkeys. induction d as [|[k0 v0] d IH]; simpl; intros Hnd.
  - constructor; [intros []|constructor].
  - inversion Hnd as [|? ? Hnin Hnd']; subst.
    destruct (String.eqb_spec k k0) as [->|Hk]; simpl.
    + now constructor.
    + constructor; [|auto].
      intros Hin. apply (dkeys_dset k0 k v d) in Hin.
      destruct Hin as [->|Hin]; [congruence|]. now apply Hnin.
Qed.

Lemma dget_None k d : dget k d = None <-> ~ In k (dkeys d).
Proof.
  unfold dkeys. induction d as [|[k0 v0] d IH]; simpl.
  - intuition.
  - destruct (String.eqb_spec k k0) as [->|Hk].
    + split; [discriminate|]. intros H. exfalso. apply H. now left.
    + rewrite IH. intuition congruence.
Qed.

Lemma In_dget k v d : NoDup (dkeys d) -> In (k, v) d -> dget k d = Some v.
Proof.
  unfold dkeys. induction d as [|[k0 v0] d IH]; simpl; [intros _ []|].
  intros Hnd Hin. inversion Hnd as [|? ? Hnin Hnd']; subst.
  destruct Hin as [[= -> ->]|Hin].
  - now rewrite String.eqb_refl.
  - destruct (String.eqb_spec k k0) as [->|Hk]; [|auto].
    exfalso. apply Hnin. change k0 with (fst (k0, v)). now apply in_map.
Qed.

Lemma NoDup_dfold ws d : NoDup (dkeys d) -> NoDup (dkeys (dfold ws d)).
Proof.
  revert d. induction ws as [|[k v] ws IH]; simpl; intros d Hd; [easy|].
  apply IH. now apply NoDup_dkeys_dset.
Qed.

Lemma dfold_untouched k ws d :
  (forall v, ~ In (k, v) ws) -> dget k (dfold ws d) = dget k d.
Proof.
  revert d. induction ws as [|[k0 v0] ws IH]; simpl; intros d Hno; [easy|].
  rewrite IH.
  - apply dget_dset_ne. intros ->. apply (Hno v0). now left.
  - intros v Hin. apply (Hno v). now right.
Qed.

(** when all assignments to [k] carry the same value, that value is what
    the dictionary holds in the end *)
Lemma dfold_agreed k v ws d :
  (forall v', In (k, v') ws -> v' = v) -> In (k, v) ws ->
  dget k (dfold ws d) = Some v.
Proof.
  revert d. induction ws as [|[k0 v0] ws IH]; simpl; intros d Hall Hin; [easy|].
  destruct (in_dec (fun a b => string_dec a b) k (map fst ws)) as [Hk|Hk].
  - apply in_map_iff in Hk. destruct Hk as [[k1 v1] [Hk1 Hin1]]. simpl in Hk1.
    subst k1. assert (v1 = v) by (apply Hall; now right). subst v1.
    apply IH; auto.
  - destruct Hin as [[= -> ->]|Hin].
    + rewrite dfold_untouched.
      * apply dget_dset_eq.
      * intros v' Hin'. apply Hk. change k with (fst (k, v')).
        now apply in_map.
    + exfalso. apply Hk. change k with (fst (k, v)). now apply in_map.
Qed.

Lemma dfold_origin k v ws d :
  dget k (dfold ws d) = Some v -> In (k, v) ws \/ dget k d = Some v.
Proof.
  revert d. induction ws as [|[k0 v0] ws IH]; simpl; intros d H; [now right|].
  apply IH in H. destruct H as [H|H]; [left; now right|].
  destruct (String.eqb_spec k k0) as [->|Hk].
  - rewrite dget_dset_eq in H. injection H as ->. left. now left.
  - rewrite dget_dset_ne in H by assumption. now right.
Qed.

End DictFacts.

(** ** Strings *)

Section StringFacts.

Local Open Scope string_scope.

Lemma prefix_app (p s : string) : prefix p (p ++ s) = true.
Proof.
  induction p as [|c p IH]; simpl; [now destruct s|].
  destruct (ascii_dec c c); [exact IH|congruence].
Qed.

Lemma contains_prefix (x s : string) :
  prefix x s = true -> Py.contains x s = true.
Proof. intros H. destruct s; cbn [Py.contains]; rewrite H; reflexivity. Qed.

Lemma contains_app_r (x p s : string) :
  Py.contains x s = true -> Py.contains x (p ++ s) = true.
Proof.
  intros H. induction p as [|c p IH]; simpl; [exact H|].
  rewrite IH. apply orb_true_r.
Qed.

Lemma contains_middle (x p s : string) : Py.contains x (p ++ x ++ s) = true.
Proof.
  apply contains_app_r. apply contains_prefix, prefix_app.
Qed.

Lemma contains_self (x : string) : Py.contains x x = true.
Proof.
  pose proof (contains_middle x "" "") as H. simpl in H.
  replace (x ++ "") with x in H; [exact H|].
  clear H. induction x; simpl; congruence.
Qed.

(** every element of a list occurs in the joined string *)
Lemma contains_join (a : string) (l : list string) :
  In a l -> Py.contains a (Py.join " " l) = true.
Proof.
  unfold Py.join. induction l as [|x l IH]; [intros []|].
  intros [->|Hin].
  - destruct l as [|y l]; simpl.
    + apply contains_self.
    + apply (contains_middle a "").
  - destruct l as [|y l]; [destruct Hin|].
    change (String.concat " " (x :: y :: l))
      with (x ++ " " ++ String.concat " " (y :: l)).
    apply contains_app_r. apply (contains_app_r a " "). auto.
Qed.

Lemma nospace_cons (c : ascii) (s : string) :
  Py.contains " " (String c s) = false ->
  c <> " "%char /\ Py.contains " " s = false.
Proof.
  cbn [Py.contains prefix]. destruct (ascii_dec " " c) as [<-|Hc].
  - destruct s; discriminate.
  - simpl. intros H. split; [congruence|exact H].
Qed.

Lemma space_in_app (x y : string) : Py.contains " " (x ++ " " ++ y) = true.
Proof. apply contains_middle. Qed.

Lemma app_space_inj (a a' r r' : string) :
  Py.contains " " a = false -> Py.contains " " a' = false ->
  a ++ " " ++ r = a' ++ " " ++ r' -> a = a' /\ r = r'.
Proof.
  revert a'. induction a as [|c a IH]; intros [|c' a'] Ha Ha' E; simpl in E.
  - injection E as ->. auto.
  - injection E as <- _. apply nospace_cons in Ha'. now destruct Ha'.
  - injection E as -> _. apply nospace_cons in Ha. now destruct Ha.
  - injection E as -> E. apply nospace_cons in Ha. apply nospace_cons in Ha'.
    destruct (IH a') as [-> ->]; tauto.
Qed.

(** joining with spaces loses nothing when no element contains a space *)
Lemma join_inj (l l' : list string) :
  l <> [] -> l' <> [] ->
  Forall (fun a => Py.contains " " a = false) l ->
  Forall (fun a => Py.contains " " a = false) l' ->
  Py.join " " l = Py.join " " l' -> l = l'.
Proof.
  unfold Py.join. revert l'.
  induction l as [|a l IH]; intros [|a' l'] Hl Hl' Fl Fl' E; try congruence.
  inversion Fl as [|? ? Ha Fl0]; inversion Fl' as [|? ? Ha' Fl0']; subst.
  destruct l as [|b l]; destruct l' as [|b' l'].
  - simpl in E. now subst.
  - change (a = a' ++ " " ++ String.concat " " (b' :: l')) in E.
    rewrite E, space_in_app in Ha. discriminate.
  - change (a ++ " " ++ String.concat " " (b :: l) = a') in E.
    rewrite <- E, space_in_app in Ha'. discriminate.
  - change (a ++ " " ++ String.concat " " (b :: l)
            = a' ++ " " ++ String.concat " " (b' :: l')) in E.
    apply app_space_inj in E; auto. destruct E as [-> E].
    f_equal. apply IH; auto; discriminate.
Qed.

End StringFacts.

(** ** Index loops *)

Lemma in_enumerate_from {A} (l : list A) (k j : nat) (x : A) :
  In (j, x) (combine (seq k (length l)) l) <->
  k <= j /\ nth_error l (j - k) = Some x.
Proof.
  revert k. induction l as [|y l IH]; intros k; simpl.
  - split; [intros []|]. intros [_ H]. destruct (j - k); discriminate.
  - rewrite IH. split.
    + intros [[= <- <-]|[Hk Hn]].
      * rewrite Nat.sub_diag. auto.
      * split; [lia|]. replace (j - k) with (S (j - S k)) by lia. exact Hn.
    + intros [Hk Hn]. destruct (Nat.eq_dec j k) as [->|Hne].
      * rewrite Nat.sub_diag in Hn. simpl in Hn. left. congruence.
      * right. split; [lia|].
        replace (j - k) with (S (j - S k)) in Hn by lia. exact Hn.
Qed.

Lemma inds_spec {A} (p : A -> bool) (l : list A) (j : nat) :
  In j (Py.inds p l) <-> exists x, nth_error l j = Some x /\ p x = true.
Proof.
  unfold Py.inds, Py.enumerate. rewrite in_map_iff. split.
  - intros [[j' x] [<- H]]. apply filter_In in H. destruct H as [H Hp].
    apply in_enumerate_from in H. rewrite Nat.sub_0_r in H. simpl in *.
    exists x. tauto.
  - intros [x [Hn Hp]]. exists (j, x). split; [reflexivity|].
    apply filter_In. split; [|exact Hp].
    apply in_enumerate_from. rewrite Nat.sub_0_r. split; [lia|exact Hn].
Qed.

Import ParseScene.

(** ** The first pass as a sequence of assignments *)

Lemma replay_app n ws1 ws2 ix :
  replay n (ws1 ++ ws2) ix = replay n ws2 (replay n ws1 ix).
Proof. apply fold_left_app. Qed.

Lemma index_object_replay objs o i ix :
  nth i (map objd_of objs) EmptyString = objd_of o ->
  index_object (length objs) (map objd_list_of objs) (map objd_of objs) ix
    (i, objd_list_of o)
  = replay (length objs) (writes_of_object objs o) ix.
Proof.
  intros Hi. destruct o as [sz c m sh].
  unfold index_object. cbn [fst snd]. rewrite Hi. reflexivity.
Qed.

Lemma build_index_from objs pre post ix :
  objs = pre ++ post ->
  fold_left (index_object (length objs) (map objd_list_of objs)
               (map objd_of objs))
    (combine (seq (length pre) (length (map objd_list_of post)))
       (map objd_list_of post)) ix
  = replay (length objs) (flat_map (writes_of_object objs) post) ix.
Proof.
  revert pre ix. induction post as [|o post IH]; intros pre ix E; [reflexivity|].
  cbn [map length seq combine fold_left flat_map].
  rewrite replay_app, index_object_replay.
  - specialize (IH (pre ++ [o]) (replay (length objs) (writes_of_object objs o) ix)).
    rewrite length_app in IH. cbn [length] in IH.
    rewrite Nat.add_1_r in IH. apply IH.
    now rewrite <- app_assoc.
  - rewrite E, map_app, app_nth2; rewrite length_map; [|lia].
    now rewrite Nat.sub_diag.
Qed.

Lemma build_index_replay objs :
  build_index objs = replay (length objs) (writes objs) empty_index.
Proof.
  unfold build_index, Py.enumerate, writes.
  now apply (build_index_from objs [] objs).
Qed.

Lemma replay_cons n k v ws ix :
  replay n ((k, v) :: ws) ix = replay n ws (record_ext n k v ix).
Proof. reflexivity. Qed.

Lemma replay_2ids n ws ix :
  image_2ids (replay n ws ix) = dfold ws (image_2ids ix).
Proof.
  revert ix. induction ws as [|[k v] ws IH]; intros ix; [reflexivity|].
  rewrite replay_cons, IH. unfold record_ext.
  now destruct (negb (length v =? n)).
Qed.

Lemma replay_some n ws ix :
  image_some2ids (replay n ws ix)
  = dfold (filter (fun kv => negb (length (snd kv) =? n)) ws)
      (image_some2ids ix).
Proof.
  revert ix. induction ws as [|[k v] ws IH]; intros ix; [reflexivity|].
  rewrite replay_cons, IH. unfold record_ext. cbn [filter snd].
  now destruct (negb (length v =? n)).
Qed.

Lemma replay_all n ws ix :
  image_all (replay n ws ix)
  = image_all ix ++ map fst (filter (fun kv => length (snd kv) =? n) ws).
Proof.
  revert ix. induction ws as [|[k v] ws IH]; intros ix.
  - simpl. now rewrite app_nil_r.
  - rewrite replay_cons, IH. unfold record_ext. cbn [filter snd].
    destruct (length v =? n); simpl; [now rewrite <- app_assoc|reflexivity].
Qed.

Lemma build_index_2ids objs :
  image_2ids (build_index objs) = dfold (writes objs) [].
Proof. now rewrite build_index_replay, replay_2ids. Qed.

Lemma build_index_some objs :
  image_some2ids (build_index objs)
  = dfold (filter (fun kv => negb (length (snd kv) =? length objs))
             (writes objs)) [].
Proof. now rewrite build_index_replay, replay_some. Qed.

Lemma build_index_all objs :
  image_all (build_index objs)
  = map fst (filter (fun kv => length (snd kv) =? length objs) (writes objs)).
Proof. now rewrite build_index_replay, replay_all. Qed.

(** ** Windows and what is assigned for them *)

Lemma windows_objd o :
  windows (objd_list_of o)
  = combs 1 (objd_list_of o) ++ combs 2 (objd_list_of o)
    ++ combs 3 (objd_list_of o) ++ [objd_list_of o].
Proof. now destruct o. Qed.

Lemma windows_cases o w :
  In w (windows (objd_list_of o)) ->
  w = [size o] \/ w = [color o] \/ w = [material o] \/ w = [shape o] \/
  w = [size o; color o] \/ w = [color o; material o] \/
  w = [material o; shape o] \/
  w = [size o; color o; material o] \/ w = [color o; material o; shape o] \/
  w = objd_list_of o.
Proof.
  destruct o as [sz c m sh]. cbn. intuition auto.
Qed.

Lemma window_incl o w :
  In w (windows (objd_list_of o)) -> w <> [] /\ incl w (objd_list_of o).
Proof.
  intros H. apply windows_cases in H. unfold objd_list_of in *.
  repeat (destruct H as [->|H]); try subst w;
    (split; [discriminate|]); intros x Hx; simpl in *; intuition auto.
Qed.

Lemma window_NoDup o w :
  distinct_values o -> In w (windows (objd_list_of o)) -> NoDup w.
Proof.
  unfold distinct_values, objd_list_of. intros Hnd H.
  apply windows_cases in H. unfold objd_list_of in H.
  inversion Hnd as [|? ? N1 Hnd1]; subst.
  inversion Hnd1 as [|? ? N2 Hnd2]; subst.
  inversion Hnd2 as [|? ? N3 Hnd3]; subst.
  simpl in N1, N2, N3.
  repeat (destruct H as [->|H]); try subst w;
    repeat constructor; simpl; intuition auto.
Qed.

Lemma in_writes objs k v :
  In (k, v) (writes objs) <->
  exists o w, In o objs /\ In w (windows (objd_list_of o)) /\
              k = Py.join " " w /\ v = extension_of objs w.
Proof.
  unfold writes. rewrite in_flat_map. split.
  - intros [o [Ho H]]. unfold writes_of_object in H.
    rewrite <- windows_objd in H. apply in_map_iff in H.
    destruct H as [w [[= <- <-] Hw]]. now exists o, w.
  - intros [o [w [Ho [Hw [-> ->]]]]]. exists o. split; [exact Ho|].
    unfold writes_of_object. rewrite <- windows_objd.
    now apply (in_map (fun w => (Py.join " " w, extension_of objs w))).
Qed.

Lemma window_space_free o w :
  space_free o -> In w (windows (objd_list_of o)) ->
  Forall (fun a => Py.contains " " a = false) w.
Proof.
  intros Hs Hw. apply Forall_forall. intros a Ha. apply Hs.
  now apply (proj2 (window_incl o w Hw)).
Qed.

(** with space-free values, a description text determines its window, and
    so all assignments to one key carry the same extension *)
Lemma writes_agree objs k v v' :
  (forall o, In o objs -> space_free o) ->
  In (k, v) (writes objs) -> In (k, v') (writes objs) -> v = v'.
Proof.
  intros Hs H H'. apply in_writes in H. apply in_writes in H'.
  destruct H as [o [w [Ho [Hw [-> ->]]]]].
  destruct H' as [o' [w' [Ho' [Hw' [E ->]]]]].
  f_equal. apply join_inj; auto.
  - apply (window_incl o w Hw).
  - apply (window_incl o' w' Hw').
  - apply (window_space_free o); auto.
  - apply (window_space_free o'); auto.
Qed.

Lemma stored_2ids objs o w :
  (forall o, In o objs -> space_free o) ->
  In o objs -> In w (windows (objd_list_of o)) ->
  dget (Py.join " " w) (image_2ids (build_index objs))
  = Some (extension_of objs w).
Proof.
  intros Hs Ho Hw. rewrite build_index_2ids.
  assert (Hin : In (Py.join " " w, extension_of objs w) (writes objs))
    by (apply in_writes; now exists o, w).
  apply dfold_agreed; [|exact Hin].
  intros v' Hv'. now apply (writes_agree objs (Py.join " " w)).
Qed.

Lemma stored_some objs o w :
  (forall o, In o objs -> space_free o) ->
  In o objs -> In w (windows (objd_list_of o)) ->
  dget (Py.join " " w) (image_some2ids (build_index objs))
  = if length (extension_of objs w) =? length objs then None
    else Some (extension_of objs w).
Proof.
  intros Hs Ho Hw. rewrite build_index_some.
  assert (Hin : In (Py.join " " w, extension_of objs w) (writes objs))
    by (apply in_writes; now exists o, w).
  destruct (length (extension_of objs w) =? length objs) eqn:E.
  - rewrite dfold_untouched; [reflexivity|].
    intros v Hv. apply filter_In in Hv. destruct Hv as [Hv Hlen].
    assert (v = extension_of objs w)
      by (now apply (writes_agree objs (Py.join " " w))).
    subst v. cbn [snd] in Hlen. now rewrite E in Hlen.
  - apply dfold_agreed.
    + intros v' Hv'. apply filter_In in Hv'.
      now apply (writes_agree objs (Py.join " " w)).
    + apply filter_In. split; [exact Hin|]. cbn [snd]. now rewrite E.
Qed.

Lemma in_image_all objs k :
  In k (image_all (build_index objs)) <->
  exists v, In (k, v) (writes objs) /\ length v = length objs.
Proof.
  rewrite build_index_all, in_map_iff. split.
  - intros [[k' v] [<- H]]. apply filter_In in H. destruct H as [H E].
    exists v. split; [exact H|]. now apply Nat.eqb_eq.
  - intros [v [H E]]. exists (k, v). split; [reflexivity|].
    apply filter_In. split; [exact H|]. now apply Nat.eqb_eq.
Qed.

Lemma in_some_keys objs k :
  In k (dkeys (image_some2ids (build_index objs))) ->
  exists v, In (k, v) (writes objs) /\ length v <> length objs.
Proof.
  intros Hk. destruct (dget k (image_some2ids (build_index objs))) as [v|] eqn:E.
  - exists v. rewrite build_index_some in E. apply dfold_origin in E.
    destruct E as [E|E]; [|discriminate].
    apply filter_In in E. destruct E as [E Hlen]. split; [exact E|].
    cbn [snd] in Hlen. apply negb_true_iff, Nat.eqb_neq in Hlen. exact Hlen.
  - apply dget_None in E. contradiction.
Qed.

(** ** Who is in an extension *)

Lemma mem_In x l : Py.mem x l = true <-> In x l.
Proof.
  unfold Py.mem. rewrite existsb_exists. split.
  - intros [y [Hy E]]. apply String.eqb_eq in E. now subst.
  - intros H. exists x. split; [exact H|apply String.eqb_refl].
Qed.

Lemma list_eqb_refl l : Py.list_eqb l l = true.
Proof. induction l; simpl; [reflexivity|]. now rewrite String.eqb_refl. Qed.

(** [len(set(l) - set(w))] when [w] is part of [l] *)
Lemma set_diff_count (l w : list string) :
  NoDup l -> NoDup w -> incl w l ->
  length (Py.set_diff (Py.to_set l) (Py.to_set w)) = length l - length w.
Proof.
  intros Hl Hw Hi. unfold Py.to_set, Py.set_diff.
  rewrite !nodup_fixed_point by assumption.
  pose proof (filter_length (fun x => Py.mem x w) l) as Hlen.
  assert (Hp : Permutation (filter (fun x => Py.mem x w) l) w).
  { apply NoDup_Permutation; [now apply NoDup_filter|exact Hw|].
    intros x. rewrite filter_In, mem_In. split; [tauto|]. intros H.
    split; [now apply Hi|exact H]. }
  apply Permutation_length in Hp. cbv beta in Hlen.
  rewrite Hp in Hlen. rewrite <- Hlen. lia.
Qed.

Lemma in_extension objs j o' w :
  nth_error objs j = Some o' -> distinct_values o' ->
  NoDup w -> w <> [] -> incl w (objd_list_of o') ->
  length w < 4 \/ w = objd_list_of o' ->
  In j (extension_of objs w).
Proof.
  intros Hj Hd Hw Hne Hi Hlen.
  assert (HL : nth_error (map objd_list_of objs) j = Some (objd_list_of o'))
    by (now apply map_nth_error).
  assert (HD : nth_error (map objd_of objs) j = Some (objd_of o'))
    by (now apply map_nth_error).
  assert (Hset : length (Py.set_diff (Py.to_set (objd_list_of o')) (Py.to_set w))
                 = 4 - length w)
    by (now rewrite set_diff_count).
  destruct w as [|a [|b [|c [|d w]]]]; [congruence| | | |].
  - apply inds_spec. exists (objd_of o'). split; [exact HD|].
    apply contains_join. apply Hi. now left.
  - apply inds_spec. exists (objd_list_of o'). split; [exact HL|].
    now rewrite Hset.
  - apply inds_spec. exists (objd_list_of o'). split; [exact HL|].
    now rewrite Hset.
  - destruct Hlen as [Hlen | ->]; [simpl in Hlen; lia|].
    assert (E : extension_of objs (objd_list_of o')
                = ext_full (map objd_list_of objs) (objd_list_of o'))
      by reflexivity.
    rewrite E. apply inds_spec. exists (objd_list_of o').
    split; [exact HL|apply list_eqb_refl].
Qed.

Lemma window_short_or_full o w :
  In w (windows (objd_list_of o)) -> length w < 4 \/ w = objd_list_of o.
Proof.
  intros H. apply windows_cases in H.
  repeat (destruct H as [->|H]); try subst w; simpl; auto.
Qed.

Lemma singleton_window o attr :
  In attr (objd_list_of o) -> In [attr] (windows (objd_list_of o)).
Proof.
  destruct o as [sz c m sh]. cbn. intuition (subst; auto 10).
Qed.

Lemma in_ext1 objs j o' a :
  nth_error objs j = Some o' -> In a (objd_list_of o') ->
  In j (extension_of objs [a]).
Proof.
  intros Hj Ha. apply inds_spec. exists (objd_of o').
  split; [now apply map_nth_error|now apply contains_join].
Qed.

Lemma primary_names_objd ix o :
  primary_names ix (objd_list_of o)
  = "some objects" :: map (primary_name ix) (objd_list_of o).
Proof. now destruct o. Qed.

Lemma some_all_by_size objs o w :
  (forall o', In o' objs -> space_free o') ->
  In o objs -> In w (windows (objd_list_of o)) ->
  let ix := build_index objs in
  let ext := extension_of objs w in
  (In (Py.join " " w) (image_all ix) <-> length ext = length objs) /\
  (In (Py.join " " w) (dkeys (image_some2ids ix)) <-> length ext <> length objs).
Proof.
  intros Hs Ho Hw ix ext.
  assert (Hin : In (Py.join " " w, ext) (writes objs))
    by (apply in_writes; now exists o, w).
  split.
  - unfold ix. rewrite in_image_all. split.
    + intros [v [Hv Hlen]].
      now rewrite (writes_agree objs _ _ _ Hs Hin Hv).
    + intros Hlen. now exists ext.
  - pose proof (stored_some objs o w Hs Ho Hw) as H1. fold ix ext in H1.
    pose proof (dget_None (Py.join " " w) (image_some2ids ix)) as HN.
    destruct (length ext =? length objs) eqn:E.
    + apply Nat.eqb_eq in E. split; [|congruence].
      intros Hk. exfalso. now apply (proj1 HN H1).
    + apply Nat.eqb_neq in E. split; [auto|]. intros _.
      destruct (in_dec string_dec (Py.join " " w) (dkeys (image_some2ids ix)))
        as [Hk|Hk]; [exact Hk|].
      apply HN in Hk. congruence.
Qed.

(** the label of a one-attribute window, by the size of its extension *)
Lemma primary_label_cases (objs : list SceneObject) (o : SceneObject)
    (attr : string) :
  (forall o', In o' objs -> space_free o') ->
  In o objs -> In attr (objd_list_of o) ->
  let ix := build_index objs in
  let n := length objs in
  exists ext,
    dget attr (image_2ids ix) = Some ext /\
    0 < length ext /\
    (primary_name ix attr = ("all " ++ attr)%string <-> length ext = n) /\
    (primary_name ix attr = ("Exactly one all " ++ attr)%string
     <-> length ext = 1 /\ length ext <> n) /\
    (primary_name ix attr = ("some " ++ attr)%string
     <-> length ext <> 1 /\ length ext <> n).
Proof.
  intros Hs Ho Ha ix n.
  pose proof (singleton_window o attr Ha) as Hw.
  exists (extension_of objs [attr]).
  pose proof (stored_2ids objs o [attr] Hs Ho Hw) as H2.
  pose proof (stored_some objs o [attr] Hs Ho Hw) as H1.
  change (Py.join " " [attr]) with attr in H1, H2.
  split; [exact H2|]. split.
  { destruct (In_nth_error objs o Ho) as [i Hi].
    pose proof (in_ext1 objs i o attr Hi Ha) as Hin.
    destruct (extension_of objs [attr]); [destruct Hin|simpl; lia]. }
  unfold primary_name. fold ix in H1. rewrite H1. fold n.
  destruct (length (extension_of objs [attr]) =? n) eqn:En;
    [apply Nat.eqb_eq in En
    |apply Nat.eqb_neq in En;
     destruct (length (extension_of objs [attr]) =? 1) eqn:E1;
     [apply Nat.eqb_eq in E1|apply Nat.eqb_neq in E1]];
    repeat split; intros; try discriminate; try lia; try tauto.
Qed.

(** C3 (as amended): every description of the index is listed under "all"
    exactly when its extension holds all [n] objects and under "some"
    otherwise; the label given to a one-attribute window of an object is
    "all" exactly when its extension has [n] elements, "Exactly one all"
    exactly when the extension has one element and [n] is not 1, and
    "some" in the remaining case, and that extension is never empty. *)
Theorem quantifier_label_by_size (objs : list SceneObject) :
  (forall o, In o objs -> space_free o) ->
  let ix := build_index objs in
  let n := length objs in
  (forall o w, In o objs -> In w (windows (objd_list_of o)) ->
     exists ext,
       dget (Py.join " " w) (image_2ids ix) = Some ext /\
       (In (Py.join " " w) (image_all ix) <-> length ext = n) /\
       (In (Py.join " " w) (dkeys (image_some2ids ix)) <-> length ext <> n)) /\
  (forall o attr, In o objs -> In attr (objd_list_of o) ->
     In (primary_name ix attr) (primary_names ix (objd_list_of o)) /\
     exists ext,
       dget attr (image_2ids ix) = Some ext /\
       0 < length ext /\
       (primary_name ix attr = ("all " ++ attr)%string <-> length ext = n) /\
       (primary_name ix attr = ("Exactly one all " ++ attr)%string
        <-> length ext = 1 /\ length ext <> n) /\
       (primary_name ix attr = ("some " ++ attr)%string
        <-> length ext <> 1 /\ length ext <> n)).
Proof.
  intros Hs ix n. split.
  { intros o w Ho Hw. exists (extension_of objs w). split.
    - now apply (stored_2ids objs o).
    - now apply (some_all_by_size objs o). }
  intros o attr Ho Ha. split.
  { rewrite primary_names_objd. right. now apply in_map. }
  now apply (primary_label_cases objs o).
Qed.

(** C8 (as amended): when the four values of every object are pairwise
    distinct and contain no space, every key of [image_2ids] is the text
    of a window of some object that belongs to the stored extension, and
    the extension stored for the text of a window of an object contains
    that object, every object with the same window, and, for windows of
    fewer than four attributes, every object that has all its values. *)
Theorem stored_extension_covers (objs : list SceneObject) :
  (forall o, In o objs -> distinct_values o) ->
  (forall o, In o objs -> space_free o) ->
  let ix := build_index objs in
  (forall key ext, dget key (image_2ids ix) = Some ext ->
     exists i o w,
       nth_error objs i = Some o /\ In w (windows (objd_list_of o)) /\
       key = Py.join " " w /\ In i ext) /\
  (forall i o w,
     nth_error objs i = Some o -> In w (windows (objd_list_of o)) ->
     exists ext,
       dget (Py.join " " w) (image_2ids ix) = Some ext /\
       In i ext /\
       (forall j o', nth_error objs j = Some o' ->
                     In w (windows (objd_list_of o')) -> In j ext) /\
       (forall j o', nth_error objs j = Some o' -> length w < 4 ->
                     incl w (objd_list_of o') -> In j ext)).
Proof.
  intros Hd Hs ix.
  assert (Hgen : forall j o' w, nth_error objs j = Some o' ->
                   In w (windows (objd_list_of o')) ->
                   In j (extension_of objs w)).
  { intros j o' w Hj Hw. assert (Ho' : In o' objs) by (eapply nth_error_In; eauto).
    apply (in_extension objs j o' w); auto.
    - now apply (window_NoDup o'); auto.
    - apply (window_incl o' w Hw).
    - apply (window_incl o' w Hw).
    - now apply window_short_or_full. }
  split.
  - intros key ext Hget. unfold ix in Hget. rewrite build_index_2ids in Hget.
    apply dfold_origin in Hget. destruct Hget as [Hin|Hin]; [|discriminate].
    apply in_writes in Hin. destruct Hin as [o [w [Ho [Hw [-> ->]]]]].
    destruct (In_nth_error objs o Ho) as [i Hi].
    exists i, o, w. repeat split; auto. now apply (Hgen i o).
  - intros i o w Hi Hw.
    assert (Ho : In o objs) by (eapply nth_error_In; eauto).
    exists (extension_of objs w). split; [now apply (stored_2ids objs o)|].
    split; [now apply (Hgen i o)|]. split.
    + intros j o' Hj Hw'. now apply (Hgen j o').
    + intros j o' Hj Hlen Hincl.
      assert (Ho' : In o' objs) by (eapply nth_error_In; eauto).
      apply (in_extension objs j o' w); auto.
      * now apply (window_NoDup o); auto.
      * apply (window_incl o w Hw).
Qed.

(** C9 (as amended): when no attribute value contains a space, no
    description is listed under both "some" and "all", and none is listed
    twice under "some"; these are the two lists that [parse_scene] writes
    when it returns. *)
Theorem some_all_disjoint (objs : list SceneObject) :
  (forall o, In o objs -> space_free o) ->
  let ix := build_index objs in
  NoDup (dkeys (image_some2ids ix)) /\
  (forall s, In s (dkeys (image_some2ids ix)) -> ~ In s (image_all ix)) /\
  (forall rels out,
     parse_scene {| objects := objs; relationships := rels |} = inr out ->
     intrinsic_some out = dkeys (image_some2ids ix) /\
     intrinsic_all out = image_all ix).
Proof.
  intros Hs ix. split; [|split].
  - unfold ix. rewrite build_index_some. apply NoDup_dfold. constructor.
  - intros s Hsome Hall. apply in_some_keys in Hsome.
    apply in_image_all in Hall.
    destruct Hsome as [v [Hv Hlen]]. destruct Hall as [v' [Hv' Hlen']].
    rewrite (writes_agree objs s v v' Hs Hv Hv') in Hlen. contradiction.
  - intros rels out H. unfold parse_scene in H. cbn [objects relationships] in H.
    destruct (map_exn _ _) as [e|structs]; [discriminate|]. cbn [bind] in H.
    destruct (map_exn _ _) as [e|described]; [discriminate|]. cbn [bind] in H.
    destruct (for_each _ _) as [e|us]; [discriminate|]. cbn [bind] in H.
    injection H as <-. split; reflexivity.
Qed.

Import AdHoc.

(** ** Scores *)

Lemma denominator_pos (c : nat) : (0 < of_nat c + (1 # 1000))%Q.
Proof. unfold of_nat, Qlt, Qplus, inject_Z. simpl. lia. Qed.

Lemma score_pos (m c : nat) :
  (0 < of_nat m / (of_nat c + (1 # 1000)))%Q <-> 0 < m.
Proof.
  split.
  - intros H. destruct m; [|lia]. exfalso.
    assert (E : (of_nat 0 / (of_nat c + (1 # 1000)) == 0)%Q)
      by (unfold of_nat; simpl; apply Qmult_0_l).
    rewrite E in H. now apply Qlt_irrefl in H.
  - intros H. apply Qlt_shift_div_l; [apply denominator_pos|].
    unfold of_nat, Qlt, Qmult, Qplus, inject_Z; cbn [Qnum Qden]; lia.
Qed.

(** a value that some other object carries too scores below the
    threshold *)
Lemma shared_below_threshold (m c : nat) :
  m <= 4 -> m < c ->
  Qle_bool (9 # 10) (of_nat m / (of_nat c + (1 # 1000))) = false.
Proof.
  intros H4 Hc. apply not_true_is_false. intros H.
  apply Qle_bool_iff in H. apply Qle_not_lt in H. apply H.
  apply Qlt_shift_div_r; [apply denominator_pos|].
  unfold of_nat, Qlt, Qmult, Qplus, inject_Z; cbn [Qnum Qden]; lia.
Qed.

(** a value that only this object carries scores above it *)
Lemma own_above_threshold (m : nat) :
  0 < m ->
  Qle_bool (9 # 10) (of_nat m / (of_nat m + (1 # 1000))) = true.
Proof.
  intros H. apply Qle_bool_iff.
  apply Qle_shift_div_l; [apply denominator_pos|].
  unfold of_nat, Qle, Qmult, Qplus, inject_Z; cbn [Qnum Qden]; lia.
Qed.

(** ** Maxima *)

Lemma qmax_l a b : (a <= qmax a b)%Q.
Proof.
  unfold qmax. destruct (Qle_bool a b) eqn:E.
  - now apply Qle_bool_iff.
  - apply Qle_refl.
Qed.

Lemma qmax_r a b : (b <= qmax a b)%Q.
Proof.
  unfold qmax. destruct (Qle_bool a b) eqn:E.
  - apply Qle_refl.
  - apply Qlt_le_weak, Qnot_le_lt. intros H. apply Qle_bool_iff in H. congruence.
Qed.

Lemma fold_qmax_ge (c : list Q) (x : Q) :
  (x <= fold_left qmax c x)%Q /\
  forall y, In y c -> (y <= fold_left qmax c x)%Q.
Proof.
  revert x. induction c as [|z c IH]; intros x; simpl.
  - split; [apply Qle_refl|intros y []].
  - destruct (IH (qmax x z)) as [H1 H2]. split.
    + eapply Qle_trans; [apply qmax_l|exact H1].
    + intros y [<-|Hy]; [|auto].
      eapply Qle_trans; [apply qmax_r|exact H1].
Qed.

Lemma maximum_ge (c : list Q) (y : Q) : In y c -> (y <= maximum c)%Q.
Proof.
  destruct c as [|x c]; [intros []|]. simpl. intros [<-|Hy].
  - apply (proj1 (fold_qmax_ge c x)).
  - now apply (proj2 (fold_qmax_ge c x)).
Qed.

(** ** The tally of attribute values *)

Lemma sum_app a b : sum (a ++ b) = sum a + sum b.
Proof. unfold sum. induction a; simpl; lia. Qed.

Lemma sum_zero_all v : sum v = 0 -> v = zeros (length v).
Proof.
  unfold sum, zeros. induction v as [|x v IH]; simpl; [reflexivity|].
  intros H. assert (x = 0) by lia. subst. f_equal. apply IH. lia.
Qed.

Lemma zeros_split a b : zeros (a + S b) = zeros a ++ 0 :: zeros b.
Proof. unfold zeros. now rewrite repeat_app. Qed.

Lemma set_nth_middle a y z b : set_nth (length a) y (a ++ z :: b) = a ++ y :: b.
Proof. induction a; simpl; congruence. Qed.

Lemma nth_middle_nat (a : list nat) z b : nth (length a) (a ++ z :: b) 0 = z.
Proof. induction a; simpl; auto. Qed.

Lemma tally_step n p ul x cnt :
  length p < n -> counted n p cnt ul ->
  counted n p (fun v => cnt v + if String.eqb v x then 1 else 0)
    (tally n (length p) ul x).
Proof.
  intros Hlt Inv v. unfold tally.
  destruct (String.eqb_spec v x) as [->|Hne].
  - rewrite (Inv x).
    destruct (0 <? sum (map (mult x) p) + cnt x) eqn:E.
    + rewrite dget_dset_eq.
      replace (0 <? sum (map (mult x) p) + (cnt x + 1)) with true
        by (symmetry; apply Nat.ltb_lt; lia).
      f_equal.
      rewrite <- (length_map (mult x) p).
      now rewrite nth_middle_nat, set_nth_middle.
    + apply Nat.ltb_ge in E.
      assert (Hs : sum (map (mult x) p) = 0) by lia.
      assert (Hc : cnt x = 0) by lia.
      rewrite dget_dset_eq, Hs, Hc. cbn [Nat.add Nat.ltb Nat.leb]. f_equal.
      apply sum_zero_all in Hs. rewrite length_map in Hs.
      assert (Hz : zeros n = zeros (length p) ++ 0 :: zeros (n - length p - 1))
        by (rewrite <- zeros_split; f_equal; lia).
      rewrite Hz, Hs.
      pose proof (set_nth_middle (zeros (length p)) 1 0
                    (zeros (n - length p - 1))) as HM.
      unfold zeros in HM at 1. rewrite repeat_length in HM. exact HM.
  - rewrite Nat.add_0_r, <- (Inv v).
    destruct (dget x ul); now apply dget_dset_ne.
Qed.

Lemma mult_indicators v o :
  0 + (if String.eqb v (shape o) then 1 else 0)
    + (if String.eqb v (size o) then 1 else 0)
    + (if String.eqb v (material o) then 1 else 0)
    + (if String.eqb v (color o) then 1 else 0) = mult v o.
Proof.
  unfold mult. simpl.
  destruct (String.eqb v (shape o)), (String.eqb v (size o)),
    (String.eqb v (material o)), (String.eqb v (color o)); reflexivity.
Qed.

Lemma tally_object_step n p o ul :
  length p < n -> tallied n p ul ->
  tallied n (p ++ [o]) (tally_object n ul (length p, o)).
Proof.
  intros Hlt Inv.
  assert (H0 : counted n p (fun _ => 0) ul).
  { intros v. rewrite (Inv v), Nat.add_0_r.
    destruct (n - length p) as [|k] eqn:E; [lia|].
    cbn [Nat.sub]. now rewrite Nat.sub_0_r. }
  unfold tally_object. cbn [fst snd fold_left].
  apply (tally_step n p ul (shape o)) in H0; [|exact Hlt].
  apply (tally_step n p _ (size o)) in H0; [|exact Hlt].
  apply (tally_step n p _ (material o)) in H0; [|exact Hlt].
  apply (tally_step n p _ (color o)) in H0; [|exact Hlt].
  intros v. rewrite (H0 v), mult_indicators.
  rewrite map_app, sum_app, length_app. cbn [map length sum fold_right].
  rewrite Nat.add_0_r, <- app_assoc.
  replace (n - (length p + 1)) with (n - length p - 1) by lia.
  reflexivity.
Qed.

Lemma tally_from n post pre ul :
  length pre + length post = n -> tallied n pre ul ->
  tallied n (pre ++ post)
    (fold_left (tally_object n)
       (combine (seq (length pre) (length post)) post) ul).
Proof.
  revert pre ul. induction post as [|o post IH]; intros pre ul Hlen Inv.
  - simpl. now rewrite app_nil_r.
  - cbn [length seq combine fold_left]. simpl in Hlen.
    specialize (IH (pre ++ [o]) (tally_object n ul (length pre, o))).
    rewrite length_app, <- app_assoc in IH. cbn [length app] in IH.
    rewrite Nat.add_1_r in IH. apply IH; [lia|].
    apply tally_object_step; [lia|exact Inv].
Qed.

(** what the first loop leaves in [utterance_lists] *)
Lemma utterance_lists_spec objs v :
  dget v (utterance_lists objs)
  = if 0 <? sum (map (mult v) objs) then Some (map (mult v) objs) else None.
Proof.
  pose proof (tally_from (length objs) objs [] []) as H.
  cbn [length app] in H. specialize (H eq_refl).
  assert (H0 : tallied (length objs) [] []) by (intros w; reflexivity).
  specialize (H H0 v). unfold utterance_lists, Py.enumerate.
  rewrite H, Nat.sub_diag. cbn [zeros repeat]. now rewrite app_nil_r.
Qed.

Lemma NoDup_tally n i ul x :
  NoDup (dkeys ul) -> NoDup (dkeys (tally n i ul x)).
Proof. intros H. unfold tally. destruct (dget x ul); now apply NoDup_dkeys_dset. Qed.

Lemma NoDup_keys objs : NoDup (keys_of objs).
Proof.
  unfold keys_of, utterance_lists.
  assert (H : forall l ul, NoDup (dkeys ul) ->
                NoDup (dkeys (fold_left (tally_object (length objs)) l ul))).
  { induction l as [|[i o] l IH]; intros ul Hul; [exact Hul|].
    simpl. apply IH. unfold tally_object. cbn [fst snd fold_left].
    now repeat apply NoDup_tally. }
  apply H. constructor.
Qed.

(** ** The matrix *)

Lemma key_held objs v :
  In v (keys_of objs) <-> 0 < sum (map (mult v) objs).
Proof.
  pose proof (utterance_lists_spec objs v) as H.
  pose proof (dget_None v (utterance_lists objs)) as HN.
  unfold keys_of. destruct (0 <? sum (map (mult v) objs)) eqn:E.
  - apply Nat.ltb_lt in E. split; [auto|]. intros _.
    destruct (in_dec string_dec v (dkeys (utterance_lists objs))) as [Hk|Hk];
      [exact Hk|].
    apply HN in Hk. congruence.
  - apply Nat.ltb_ge in E. split; [|lia]. intros Hk. exfalso.
    now apply (proj1 HN H).
Qed.

Lemma column_scores objs i :
  i < length objs ->
  column (full_matrix_of objs) i = map (fun v => score objs v i) (keys_of objs).
Proof.
  intros Hi. unfold column, full_matrix_of, keys_of, dkeys.
  rewrite !map_map. apply map_ext_in. intros [v vec] Hin. cbn [fst snd].
  apply In_dget in Hin; [|apply NoDup_keys].
  rewrite utterance_lists_spec in Hin.
  destruct (0 <? sum (map (mult v) objs)); [|discriminate].
  injection Hin as <-. unfold normalize, score.
  set (f := fun x : nat =>
              (of_nat x / (of_nat (sum (map (mult v) objs)) + (1 # 1000)))%Q).
  rewrite (nth_indep _ 0%Q (f 0)) by (now rewrite !length_map).
  now rewrite (map_nth f).
Qed.

Lemma sum_ge_nth l i : nth i l 0 <= sum l.
Proof.
  unfold sum. revert i. induction l as [|x l IH]; intros [|i]; simpl; try lia.
  specialize (IH i). lia.
Qed.

Lemma sum_ge_two l i j : i <> j -> nth i l 0 + nth j l 0 <= sum l.
Proof.
  unfold sum. revert i j.
  induction l as [|x l IH]; intros [|i] [|j] Hne; simpl; try lia.
  - pose proof (sum_ge_nth l j). unfold sum in *. lia.
  - pose proof (sum_ge_nth l i). unfold sum in *. lia.
  - specialize (IH i j). lia.
Qed.

Lemma mult_le_4 v o : mult v o <= 4.
Proof.
  unfold mult. simpl.
  destruct (String.eqb v (shape o)), (String.eqb v (size o)),
    (String.eqb v (material o)), (String.eqb v (color o)); simpl; lia.
Qed.

Lemma count_le_4 objs v i : nth i (map (mult v) objs) 0 <= 4.
Proof.
  destruct (nth_in_or_default i (map (mult v) objs) 0) as [H|H]; [|lia].
  apply in_map_iff in H. destruct H as [o [<- _]]. apply mult_le_4.
Qed.

Lemma score_positive objs v i :
  (0 < score objs v i)%Q <-> 0 < nth i (map (mult v) objs) 0.
Proof. apply score_pos. Qed.

(** a value carried by two objects scores below the threshold for
    both *)
Lemma shared_value_below objs v i j :
  i <> j ->
  0 < nth i (map (mult v) objs) 0 -> 0 < nth j (map (mult v) objs) 0 ->
  Qle_bool (9 # 10) (score objs v i) = false.
Proof.
  intros Hne Hi Hj. apply shared_below_threshold.
  - apply count_le_4.
  - pose proof (sum_ge_two (map (mult v) objs) i j Hne). lia.
Qed.

(** a value carried by one object only scores above it there *)
Lemma own_value_above objs v i :
  0 < nth i (map (mult v) objs) 0 ->
  sum (map (mult v) objs) = nth i (map (mult v) objs) 0 ->
  Qle_bool (9 # 10) (score objs v i) = true.
Proof.
  intros Hi Hs. unfold score. rewrite Hs. now apply own_above_threshold.
Qed.

Lemma shape_count objs i o :
  nth_error objs i = Some o -> 0 < nth i (map (mult (shape o)) objs) 0.
Proof.
  intros Hi. rewrite (nth_error_nth _ _ 0 (map_nth_error _ _ _ Hi)).
  unfold mult. simpl. rewrite String.eqb_refl. simpl. lia.
Qed.

(** the best score of an object is positive *)
Lemma maximum_positive objs i :
  i < length objs -> (0 < maximum (column (full_matrix_of objs) i))%Q.
Proof.
  intros Hi. destruct (nth_error objs i) as [o|] eqn:E;
    [|apply nth_error_None in E; lia].
  pose proof (shape_count objs i o E) as Hc.
  eapply Qlt_le_trans; [apply (proj2 (score_positive objs (shape o) i) Hc)|].
  apply maximum_ge. rewrite column_scores by exact Hi.
  apply in_map_iff. exists (shape o). split; [reflexivity|].
  apply key_held. pose proof (sum_ge_nth (map (mult (shape o)) objs) i). lia.
Qed.

(** a row that attains the maximum of a column: its key scores the
    maximum, and the object carries the key *)
Lemma best_row_score objs i r :
  i < length objs -> In r (best_rows objs i) ->
  r < length (keys_of objs) /\
  (score objs (key_at (keys_of objs) r) i
   == maximum (column (full_matrix_of objs) i))%Q /\
  0 < nth i (map (mult (key_at (keys_of objs) r)) objs) 0.
Proof.
  intros Hi Hr. unfold best_rows, where_max in Hr. apply inds_spec in Hr.
  destruct Hr as [x [Hx Heq]]. apply Qeq_bool_iff in Heq.
  rewrite column_scores in Hx by exact Hi.
  assert (Hlen : r < length (keys_of objs)).
  { assert (H : nth_error (map (fun v => score objs v i) (keys_of objs)) r
                <> None) by congruence.
    apply nth_error_Some in H. now rewrite length_map in H. }
  destruct (nth_error (keys_of objs) r) as [k|] eqn:Ek;
    [|apply nth_error_None in Ek; lia].
  rewrite (map_nth_error _ _ _ Ek) in Hx. injection Hx as <-.
  unfold key_at. rewrite (nth_error_nth _ _ _ Ek).
  split; [exact Hlen|]. split; [exact Heq|].
  apply score_positive. rewrite Heq. now apply maximum_positive.
Qed.

(** ** The scan over the objects *)

Lemma scan_object_adds keys m st i :
  utterance_obj_pairs (scan_object keys m st i)
  = utterance_obj_pairs st ++ candidates_at keys m i /\
  repeat_obj_pairs (scan_object keys m st i)
  = repeat_obj_pairs st ++ repeated_at keys m i.
Proof.
  unfold scan_object, candidates_at, repeated_at.
  destruct (length (where_max (column m i)) =? 1);
    destruct (Qle_bool (9 # 10) (maximum (column m i)));
    cbn [andb negb utterance_obj_pairs repeat_obj_pairs];
    rewrite ?app_nil_r; auto.
Qed.

Lemma scan_from keys m l st :
  utterance_obj_pairs (fold_left (scan_object keys m) l st)
  = utterance_obj_pairs st ++ flat_map (candidates_at keys m) l /\
  repeat_obj_pairs (fold_left (scan_object keys m) l st)
  = repeat_obj_pairs st ++ flat_map (repeated_at keys m) l.
Proof.
  revert st. induction l as [|i l IH]; intros st; simpl.
  - now rewrite !app_nil_r.
  - destruct (IH (scan_object keys m st i)) as [H1 H2].
    destruct (scan_object_adds keys m st i) as [E1 E2].
    rewrite H1, H2, E1, E2, <- !app_assoc. auto.
Qed.

Lemma scan_pairs keys m n :
  utterance_obj_pairs (scan keys m n) = flat_map (candidates_at keys m) (seq 0 n).
Proof. apply (scan_from keys m (seq 0 n)). Qed.

Lemma scan_repeated keys m n :
  repeat_obj_pairs (scan keys m n) = flat_map (repeated_at keys m) (seq 0 n).
Proof. apply (scan_from keys m (seq 0 n)). Qed.

(** ** Counting the candidates per value *)

Lemma enumerate_from_snoc {A} (l : list A) (x : A) (k : nat) :
  combine (seq k (length (l ++ [x]))) (l ++ [x])
  = combine (seq k (length l)) l ++ [(k + length l, x)].
Proof.
  revert k. induction l as [|y l IH]; intros k; simpl.
  - now rewrite Nat.add_0_r.
  - rewrite IH. now rewrite Nat.add_succ_r.
Qed.

Lemma enumerate_snoc {A} (l : list A) (x : A) :
  Py.enumerate (l ++ [x]) = Py.enumerate l ++ [(length l, x)].
Proof. apply (enumerate_from_snoc l x 0). Qed.

Lemma inds_snoc {A} (p : A -> bool) (l : list A) (x : A) :
  Py.inds p (l ++ [x]) = Py.inds p l ++ (if p x then [length l] else []).
Proof.
  unfold Py.inds. rewrite enumerate_snoc, filter_app, map_app. cbn [filter snd].
  now destruct (p x).
Qed.

Lemma utterance_count_spec pairs :
  NoDup (dkeys (utterance_count pairs)) /\
  forall k, dget k (utterance_count pairs)
            = match positions_of k pairs with
              | [] => None
              | js => Some js
              end.
Proof.
  unfold utterance_count.
  induction pairs as [|p pairs IH] using rev_ind.
  - split; [constructor|reflexivity].
  - destruct IH as [Hnd IH]. rewrite enumerate_snoc, fold_left_app.
    cbn [fold_left].
    set (uc := fold_left count_pair (Py.enumerate pairs) []) in *.
    unfold count_pair. cbv beta zeta. cbn [fst snd].
    split.
    + destruct (dget (snd p) uc); now apply NoDup_dkeys_dset.
    + intros k. unfold positions_of. rewrite inds_snoc.
      fold (positions_of k pairs).
      destruct (String.eqb_spec (snd p) k) as [<-|Hne].
      * rewrite (IH (snd p)).
        destruct (positions_of (snd p) pairs) eqn:E; now rewrite dget_dset_eq.
      * rewrite app_nil_r, <- (IH k).
        destruct (dget (snd p) uc); apply dget_dset_ne; congruence.
Qed.

(** what survives the final filter: a candidate pair whose value is the
    candidate of no other object and is in no tie *)
Lemma updated_pairs_sound pairs repeated o v :
  In (o, v) (updated_pairs pairs repeated) ->
  In (o, v) pairs /\ ~ In v repeated /\ length (positions_of v pairs) = 1.
Proof.
  unfold updated_pairs. rewrite in_flat_map. intros [[k js] [Hin H]].
  cbn [fst snd] in H.
  destruct (length js =? 1) eqn:E1; [|destruct H].
  destruct (Py.mem k repeated) eqn:E2; [destruct H|].
  cbn [andb negb] in H. destruct H as [H|[]].
  apply Nat.eqb_eq in E1.
  destruct (utterance_count_spec pairs) as [Hnd Hspec].
  apply In_dget in Hin; [|exact Hnd]. rewrite Hspec in Hin.
  destruct (positions_of k pairs) as [|j0 js0] eqn:Ep; [discriminate|].
  injection Hin as <-.
  destruct js0; [|discriminate]. cbn [hd] in H.
  assert (Hj : In j0 (positions_of k pairs)) by (rewrite Ep; now left).
  apply inds_spec in Hj. destruct Hj as [p [Hp Hk]].
  rewrite (nth_error_nth _ _ _ Hp) in H. subst p. cbn [snd] in Hk.
  apply String.eqb_eq in Hk. subst k. split; [|split].
  - eapply nth_error_In; eauto.
  - intros Hr. apply mem_In in Hr. congruence.
  - now rewrite Ep.
Qed.

(** ** Candidates *)

Lemma threshold_morphism (x y : Q) :
  (x == y)%Q -> Qle_bool (9 # 10) x = Qle_bool (9 # 10) y.
Proof.
  intros E. destruct (Qle_bool (9 # 10) x) eqn:Hx, (Qle_bool (9 # 10) y) eqn:Hy;
    try reflexivity.
  - apply Qle_bool_iff in Hx. rewrite E in Hx. apply Qle_bool_iff in Hx. congruence.
  - apply Qle_bool_iff in Hy. rewrite <- E in Hy. apply Qle_bool_iff in Hy. congruence.
Qed.

(** a candidate pair: the value is the only best one of the object, the
    object carries it, and so does another object *)
Lemma candidate_inv objs i v :
  In (i, v) (utterance_obj_pairs
               (scan (keys_of objs) (full_matrix_of objs) (length objs))) ->
  unique_best objs v i /\
  0 < nth i (map (mult v) objs) 0 /\
  nth i (map (mult v) objs) 0 < sum (map (mult v) objs).
Proof.
  rewrite scan_pairs, in_flat_map. intros [i' [Hi' H]].
  apply in_seq in Hi'. unfold candidates_at in H.
  fold (best_rows objs i') in H.
  destruct (length (best_rows objs i') =? 1) eqn:E1; [|destruct H].
  destruct (Qle_bool (9 # 10) (maximum (column (full_matrix_of objs) i')))
    eqn:E2; [destruct H|].
  cbn [andb negb] in H. destruct H as [[= -> <-]|[]].
  apply Nat.eqb_eq in E1. unfold argmax. fold (best_rows objs i).
  destruct (best_rows objs i) as [|r [|r' rs]] eqn:Eb; try discriminate.
  cbn [hd].
  destruct (best_row_score objs i r) as [Hr [Hs Hc]]; [lia|rewrite Eb; now left|].
  split; [split; [lia|now exists r]|]. split; [exact Hc|].
  pose proof (sum_ge_nth (map (mult (key_at (keys_of objs) r)) objs) i) as Hle.
  destruct (Nat.eq_dec (sum (map (mult (key_at (keys_of objs) r)) objs))
              (nth i (map (mult (key_at (keys_of objs) r)) objs) 0)) as [E|E];
    [|lia].
  apply own_value_above in E; [|exact Hc].
  rewrite (threshold_morphism _ _ Hs) in E. congruence.
Qed.

(** the only best value of an object is its candidate as soon as another
    object carries the value *)
Lemma unique_best_candidate objs v i j :
  unique_best objs v i -> i <> j -> 0 < nth j (map (mult v) objs) 0 ->
  In (i, v) (utterance_obj_pairs
               (scan (keys_of objs) (full_matrix_of objs) (length objs))).
Proof.
  intros [Hi [r [Hb Hk]]] Hne Hj. rewrite scan_pairs, in_flat_map.
  exists i. split; [apply in_seq; lia|].
  destruct (best_row_score objs i r) as [Hr [Hs Hc]];
    [exact Hi|rewrite Hb; now left|].
  rewrite Hk in Hs, Hc.
  unfold candidates_at, argmax. fold (best_rows objs i). rewrite Hb.
  cbn [length hd Nat.eqb andb].
  rewrite <- (threshold_morphism _ _ Hs).
  rewrite (shared_value_below objs v i j Hne Hc Hj). cbn [negb].
  rewrite Hk. now left.
Qed.

Lemma unique_best_held objs v i :
  unique_best objs v i -> 0 < nth i (map (mult v) objs) 0.
Proof.
  intros [Hi [r [Hb Hk]]].
  destruct (best_row_score objs i r) as [_ [_ Hc]];
    [exact Hi|rewrite Hb; now left|].
  now rewrite Hk in Hc.
Qed.

Lemma two_positions (pairs : list (nat * string)) v i j :
  i <> j -> In (i, v) pairs -> In (j, v) pairs ->
  length (positions_of v pairs) <> 1.
Proof.
  intros Hne Hi Hj Hlen.
  destruct (In_nth_error _ _ Hi) as [a Ha].
  destruct (In_nth_error _ _ Hj) as [b Hb].
  assert (Hina : In a (positions_of v pairs))
    by (apply inds_spec; exists (i, v); split; [exact Ha|apply String.eqb_refl]).
  assert (Hinb : In b (positions_of v pairs))
    by (apply inds_spec; exists (j, v); split; [exact Hb|apply String.eqb_refl]).
  destruct (positions_of v pairs) as [|x [|y l]]; try discriminate.
  destruct Hina as [<-|[]]. destruct Hinb as [<-|[]]. congruence.
Qed.

Lemma calculate_some objs full updated m :
  calculate_ad_hoc_matrix objs = Some (full, updated, m) ->
  updated = filtered objs /\ updated <> [].
Proof.
  unfold calculate_ad_hoc_matrix, filtered.
  destruct (updated_pairs _ _); [discriminate|].
  intros [= <- <- <-]. split; [reflexivity|discriminate].
Qed.

(** C7: a value that is among several best values of some object, or that
    is the only best value of two different objects, is the distinguishing
    value of no object in the final set. *)
Theorem tied_or_shared_value_excluded (objs : list SceneObject) (v : string) :
  (exists i, ties_for_best objs v i) \/
  (exists i j, i <> j /\ unique_best objs v i /\ unique_best objs v j) ->
  (forall o, ~ In (o, v) (filtered objs)) /\
  (forall full updated m,
     calculate_ad_hoc_matrix objs = Some (full, updated, m) ->
     forall o, ~ In (o, v) updated).
Proof.
  intros H.
  assert (Hf : forall o, ~ In (o, v) (filtered objs)).
  { intros o Hin. unfold filtered in Hin.
    apply updated_pairs_sound in Hin. destruct Hin as [Hp [Hr Hc]].
    destruct H as [[i [Hi [Hlen Hv]]]|[i [j [Hne [Hbi Hbj]]]]].
    - apply Hr. rewrite scan_repeated, in_flat_map.
      exists i. split; [apply in_seq; lia|].
      unfold repeated_at. fold (best_rows objs i).
      destruct (length (best_rows objs i) =? 1) eqn:E; [|exact Hv].
      apply Nat.eqb_eq in E. contradiction.
    - revert Hc. apply (two_positions _ v i j Hne).
      + apply (unique_best_candidate objs v i j); auto.
        now apply unique_best_held.
      + apply (unique_best_candidate objs v j i); auto.
        now apply unique_best_held. }
  split; [exact Hf|].
  intros full updated m Hc o. apply calculate_some in Hc.
  destruct Hc as [-> _]. apply Hf.
Qed.

(** C10: [calculate_ad_hoc_matrix] returns its no-result value exactly
    when the final filtered set is empty and returns that set otherwise;
    the caller drops a scene with no result and goes on to the next
    attempt. *)
Theorem no_result_iff_empty (objs : list SceneObject) :
  (calculate_ad_hoc_matrix objs = None <-> filtered objs = []) /\
  (forall full updated m,
     calculate_ad_hoc_matrix objs = Some (full, updated, m) ->
     updated = filtered objs /\ updated <> []) /\
  (forall all_visible rest,
     calculate_ad_hoc_matrix objs = None ->
     add_ad_hoc_random_objects (Placed objs all_visible :: rest)
     = add_ad_hoc_random_objects rest).
Proof.
  split; [|split].
  - unfold calculate_ad_hoc_matrix, filtered.
    destruct (updated_pairs _ _); split; intros; try reflexivity; discriminate.
  - apply calculate_some.
  - intros all_visible rest H. cbn [add_ad_hoc_random_objects]. now rewrite H.
Qed.

(** every value of the final set is carried by its object and by another
    one *)
Lemma returned_value_shared objs o v :
  In (o, v) (filtered objs) ->
  0 < nth o (map (mult v) objs) 0 /\
  nth o (map (mult v) objs) 0 < sum (map (mult v) objs).
Proof.
  intros H. unfold filtered in H. apply updated_pairs_sound in H.
  destruct H as [H _]. now apply candidate_inv in H.
Qed.

Lemma sum_single l b : (forall j, j <> b -> nth j l 0 = 0) -> sum l = nth b l 0.
Proof.
  unfold sum. revert b. induction l as [|x l IH]; intros b H.
  - now destruct b.
  - destruct b as [|b]; simpl.
    + assert (E : fold_right Nat.add 0 l = 0).
      { destruct l as [|y l]; [reflexivity|].
        rewrite (IH 0).
        - apply (H 1). lia.
        - intros j Hj. apply (H (S j)). lia. }
      lia.
    + rewrite (IH b).
      * pose proof (H 0) as H0. simpl in H0. rewrite H0; lia.
      * intros j Hj. apply (H (S j)). lia.
Qed.

Import Examples.

Lemma mult_absent v o :
  shape o <> v -> size o <> v -> material o <> v -> color o <> v ->
  mult v o = 0.
Proof.
  intros H1 H2 H3 H4. unfold mult. cbn [filter].
  destruct (String.eqb_spec v (shape o)); [congruence|].
  destruct (String.eqb_spec v (size o)); [congruence|].
  destruct (String.eqb_spec v (material o)); [congruence|].
  destruct (String.eqb_spec v (color o)); [congruence|]. reflexivity.
Qed.

(** C2 (as amended): in a scene of four objects of which one is blue and
    three are red, and in which "blue" names nothing but a colour, "blue"
    is the distinguishing value of no object in the returned set: the only
    blue object scores above the threshold and is entered in
    [full_utterance_obj_pairs] alone. With four objects that are
    alike but for their colour there is no result, with one blue object
    and with two; when the second blue object has a shape of its own,
    "blue" is returned for the first. *)
Theorem lone_blue_value_never_returned :
  (forall (objs : list SceneObject) (b : nat) (ob : SceneObject),
     length objs = 4 ->
     nth_error objs b = Some ob -> color ob = "blue" ->
     (forall j o, nth_error objs j = Some o -> j <> b -> color o = "red") ->
     (forall o, In o objs ->
                size o <> "blue" /\ material o <> "blue" /\ shape o <> "blue") ->
     (forall o, ~ In (o, "blue") (filtered objs)) /\
     (forall full updated m,
        calculate_ad_hoc_matrix objs = Some (full, updated, m) ->
        forall o, ~ In (o, "blue") updated)) /\
  full_utterance_obj_pairs
    (scan (keys_of one_blue) (full_matrix_of one_blue) (length one_blue))
  = [Dominant 0 "blue"; Listed 1 ["red"]; Listed 2 ["red"]; Listed 3 ["red"]] /\
  calculate_ad_hoc_matrix one_blue = None /\
  calculate_ad_hoc_matrix two_blue = None /\
  filtered two_blue_one_sphere = [(0, "blue")].
Proof.
  split; [|repeat split; vm_compute; reflexivity].
  intros objs b ob Hlen Hb Hcol Hred Hother.
  assert (Hzero : forall j, j <> b -> nth j (map (mult "blue") objs) 0 = 0).
  { intros j Hj. destruct (nth_error objs j) as [o|] eqn:E.
    - rewrite (nth_error_nth _ _ 0 (map_nth_error _ _ _ E)).
      assert (Ho : In o objs) by (eapply nth_error_In; eauto).
      destruct (Hother o Ho) as [H1 [H2 H3]].
      apply mult_absent; auto. rewrite (Hred j o E Hj). discriminate.
    - apply nth_error_None in E. apply nth_overflow. now rewrite length_map. }
  assert (Hf : forall o, ~ In (o, "blue") (filtered objs)).
  { intros o Hin. apply returned_value_shared in Hin.
    rewrite (sum_single _ b Hzero) in Hin.
    destruct (Nat.eq_dec o b) as [->|Hne]; [lia|].
    rewrite (Hzero o Hne) in Hin. lia. }
  split; [exact Hf|].
  intros full updated m Hc o. apply calculate_some in Hc.
  destruct Hc as [-> _]. apply Hf.
Qed.

(** ** Membership in an extension, in both directions *)

(** [len(set(l) - set(w)) == len(l) - len(w)] only when [w] is part of
    [l] *)
Lemma set_diff_count_inv (l w : list string) :
  NoDup l -> NoDup w -> length w <= length l ->
  length (Py.set_diff (Py.to_set l) (Py.to_set w)) = length l - length w ->
  incl w l.
Proof.
  intros Hl Hw Hle E. unfold Py.to_set, Py.set_diff in E.
  rewrite !nodup_fixed_point in E by assumption.
  pose proof (filter_length (fun x => Py.mem x w) l) as Hlen.
  cbv beta in Hlen. rewrite E in Hlen.
  assert (Hsub : incl (filter (fun x => Py.mem x w) l) w).
  { intros x Hx. apply filter_In in Hx. now apply mem_In. }
  assert (Hback : incl w (filter (fun x => Py.mem x w) l)).
  { apply NoDup_length_incl; [now apply NoDup_filter|lia|exact Hsub]. }
  intros x Hx. apply Hback in Hx. apply filter_In in Hx. tauto.
Qed.

(** for descriptions of two and three attributes the extension is
    structural: the objects that have all the values of the window; for a
    single attribute it is the objects whose joined description contains
    the attribute as a substring *)
Lemma extension_membership (objs : list SceneObject) (j : nat) :
  (forall o, In o objs -> distinct_values o) ->
  (forall w, NoDup w -> length w = 2 \/ length w = 3 ->
     (In j (extension_of objs w) <->
      exists o', nth_error objs j = Some o' /\ incl w (objd_list_of o'))) /\
  (forall attr,
     In j (extension_of objs [attr]) <->
     exists o', nth_error objs j = Some o' /\
                Py.contains attr (objd_of o') = true).
Proof.
  intros Hd. split.
  - intros w Hw Hlen.
    assert (E : extension_of objs w
                = ext_set (map objd_list_of objs) (4 - length w) w).
    { destruct w as [|a [|b [|c [|d w]]]]; simpl in Hlen; try lia; reflexivity. }
    rewrite E. unfold ext_set. rewrite inds_spec. split.
    + intros [l [Hl Hc]].
      destruct (nth_error objs j) as [o'|] eqn:Ej.
      * rewrite (map_nth_error _ _ _ Ej) in Hl. injection Hl as <-.
        exists o'. split; [reflexivity|].
        assert (Ho' : In o' objs) by (eapply nth_error_In; eauto).
        apply Nat.eqb_eq in Hc.
        apply set_diff_count_inv; auto.
        -- apply (Hd o' Ho').
        -- simpl. lia.
      * apply nth_error_None in Ej.
        assert (nth_error (map objd_list_of objs) j = None)
          by (apply nth_error_None; now rewrite length_map).
        congruence.
    + intros [o' [Ej Hi]]. exists (objd_list_of o').
      split; [now apply map_nth_error|].
      assert (Ho' : In o' objs) by (eapply nth_error_In; eauto).
      rewrite set_diff_count by (auto; apply (Hd o' Ho')).
      apply Nat.eqb_refl.
  - intros attr. unfold extension_of, ext1. rewrite inds_spec. split.
    + intros [s [Hs Hc]]. destruct (nth_error objs j) as [o'|] eqn:Ej.
      * rewrite (map_nth_error _ _ _ Ej) in Hs. injection Hs as <-.
        now exists o'.
      * apply nth_error_None in Ej.
        assert (nth_error (map objd_of objs) j = None)
          by (apply nth_error_None; now rewrite length_map).
        congruence.
    + intros [o' [Ej Hc]]. exists (objd_of o').
      split; [now apply map_nth_error|exact Hc].
Qed.

(** ** Sets of object ids and the objects counted for an utterance *)

Lemma memn_In x l : Py.memn x l = true <-> In x l.
Proof.
  unfold Py.memn. rewrite existsb_exists. split.
  - intros [y [Hy E]]. apply Nat.eqb_eq in E. now subst.
  - intros H. exists x. split; [exact H|apply Nat.eqb_refl].
Qed.

Lemma set_diffn_In x s t : In x (Py.set_diffn s t) <-> In x s /\ ~ In x t.
Proof.
  unfold Py.set_diffn. rewrite filter_In, negb_true_iff.
  pose proof (memn_In x t) as H.
  destruct (Py.memn x t); split; intros [H1 H2]; split; auto.
  - discriminate.
  - exfalso. apply H2. now apply H.
  - intros Hin. apply H in Hin. discriminate.
Qed.

Lemma set_intern_In x s t : In x (Py.set_intern s t) <-> In x s /\ In x t.
Proof. unfold Py.set_intern. now rewrite filter_In, memn_In. Qed.

Lemma to_setn_In x l : In x (Py.to_setn l) <-> In x l.
Proof. apply nodup_In. Qed.

(** a set of ids has one element when its members are one id *)
Lemma one_element (l : list nat) :
  length (Py.to_setn l) = 1 <-> exists p, forall q, In q l <-> q = p.
Proof.
  split.
  - intros H. destruct (Py.to_setn l) as [|p [|p' t]] eqn:E; try discriminate.
    exists p. intros q. rewrite <- to_setn_In, E. simpl. intuition.
  - intros [p Hp].
    assert (Hnd : NoDup (Py.to_setn l)) by apply NoDup_nodup.
    assert (Hin : forall q, In q (Py.to_setn l) <-> q = p)
      by (intros q; now rewrite to_setn_In).
    destruct (Py.to_setn l) as [|a [|b t]].
    + exfalso. now apply (proj2 (Hin p)).
    + reflexivity.
    + exfalso. inversion Hnd as [|? ? Hna _]; subst.
      apply Hna. left.
      rewrite (proj1 (Hin a)) by (now left).
      rewrite (proj1 (Hin b)) by (right; now left). reflexivity.
Qed.

Lemma nth_exn_inr {A} (l : list A) i a :
  nth_exn l i = inr a <-> nth_error l i = Some a.
Proof.
  unfold nth_exn. destruct (nth_error l i); split; intros H;
    try discriminate; now injection H as ->.
Qed.

(** the loop of the "some" case: the primary objects with a related
    object among the secondary ones are counted, and the flag is raised
    when a primary object has none *)
Lemma count_some_loop same_rel second l st st' :
  fold_exn (fun st primary_object_id =>
              rel <- nth_exn same_rel primary_object_id ;;
              match Py.set_intern (Py.to_setn rel) (Py.to_setn second) with
              | [] => ret (true, snd st)
              | _ :: _ => ret (fst st, snd st ++ [primary_object_id])
              end) l st = inr st' ->
  (forall q, In q (snd st') <->
     In q (snd st) \/
     (In q l /\ exists rel, nth_error same_rel q = Some rel /\
                            exists s, In s rel /\ In s second)) /\
  (fst st' = true <->
     fst st = true \/
     exists q, In q l /\ exists rel, nth_error same_rel q = Some rel /\
                                     forall s, In s rel -> ~ In s second).
Proof.
  revert st. induction l as [|p l IH]; intros st H.
  - injection H as <-. split.
    + intros q. simpl. intuition.
    + split; [auto|]. intros [E|[q [[] _]]]. exact E.
  - cbn [fold_exn] in H.
    destruct (nth_exn same_rel p) as [e|rel] eqn:Erel; [discriminate|].
    apply nth_exn_inr in Erel. cbn [bind] in H.
    destruct (Py.set_intern (Py.to_setn rel) (Py.to_setn second))
      as [|s0 rest] eqn:Ei; cbn [bind ret] in H; apply IH in H;
      destruct H as [Hc Hf]; cbn [fst snd] in Hc, Hf.
    + assert (Hnone : forall s, In s rel -> ~ In s second).
      { intros s Hs Hs2.
        assert (Hin : In s (Py.set_intern (Py.to_setn rel) (Py.to_setn second)))
          by (apply set_intern_In; now rewrite !to_setn_In).
        rewrite Ei in Hin. destruct Hin. }
      split.
      * intros q. rewrite Hc. split.
        -- intros [Hq|[Hq Hr]]; [now left|right; split; [now right|exact Hr]].
        -- intros [Hq|[[<-|Hq] Hr]]; [now left| |right; now split].
           destruct Hr as [rel' [Erel' [s [Hs Hs2]]]].
           rewrite Erel in Erel'. injection Erel' as <-.
           exfalso. now apply (Hnone s).
      * rewrite Hf. split; [|intros _; now left].
        intros _. right. exists p. split; [now left|]. now exists rel.
    + assert (Hsome : exists s, In s rel /\ In s second).
      { exists s0.
        assert (Hin : In s0 (Py.set_intern (Py.to_setn rel) (Py.to_setn second)))
          by (rewrite Ei; now left).
        apply set_intern_In in Hin. now rewrite !to_setn_In in Hin. }
      split.
      * intros q. rewrite Hc, in_app_iff. simpl. split.
        -- intros [[Hq|[<-|[]]]|[Hq Hr]].
           ++ now left.
           ++ right. split; [now left|]. now exists rel.
           ++ right. split; [now right|exact Hr].
        -- intros [Hq|[[<-|Hq] Hr]].
           ++ left. now left.
           ++ left. right. now left.
           ++ right. now split.
      * rewrite Hf. split.
        -- intros [E|[q [Hq Hr]]]; [now left|].
           right. exists q. split; [now right|exact Hr].
        -- intros [E|[q [[<-|Hq] Hr]]]; [now left| |].
           ++ destruct Hr as [rel' [Erel' Hr]].
              rewrite Erel in Erel'. injection Erel' as <-.
              destruct Hsome as [s [Hs Hs2]]. exfalso. now apply (Hr s).
           ++ right. now exists q.
Qed.

(** the loop of the "all" case: for every secondary object to which not
    all primary objects are related, the flag is raised and the primary
    objects that are related to it are counted *)
Lemma count_all_loop inv_rel primary l st st' :
  fold_exn (fun st second_object_id =>
              rel <- nth_exn inv_rel second_object_id ;;
              let missing := Py.set_diffn primary (Py.to_setn rel) in
              if 0 <? length missing
              then ret (true, snd st ++ Py.set_diffn primary missing)
              else ret st) l st = inr st' ->
  (forall q, In q (snd st') <->
     In q (snd st) \/
     exists s, In s l /\ exists rel, nth_error inv_rel s = Some rel /\
       (exists m, In m primary /\ ~ In m rel) /\ In q primary /\ In q rel) /\
  (fst st' = true <->
     fst st = true \/
     exists s, In s l /\ exists rel, nth_error inv_rel s = Some rel /\
       exists m, In m primary /\ ~ In m rel).
Proof.
  revert st. induction l as [|s0 l IH]; intros st H.
  - injection H as <-. split.
    + intros q. split; [auto|]. intros [Hq|[s [[] _]]]. exact Hq.
    + split; [auto|]. intros [E|[s [[] _]]]. exact E.
  - cbn [fold_exn] in H.
    destruct (nth_exn inv_rel s0) as [e|rel] eqn:Erel; [discriminate|].
    apply nth_exn_inr in Erel. cbn [bind] in H. cbv zeta in H.
    destruct (0 <? length (Py.set_diffn primary (Py.to_setn rel))) eqn:Em;
      cbn [ret] in H; apply IH in H; destruct H as [Hc Hf];
      cbn [fst snd] in Hc, Hf.
    + assert (Hmiss : exists m, In m primary /\ ~ In m rel).
      { destruct (Py.set_diffn primary (Py.to_setn rel)) as [|m t] eqn:Ed;
          [discriminate|].
        exists m.
        assert (Hin : In m (Py.set_diffn primary (Py.to_setn rel)))
          by (rewrite Ed; now left).
        apply set_diffn_In in Hin. now rewrite to_setn_In in Hin. }
      assert (Hback : forall q,
                 In q (Py.set_diffn primary
                         (Py.set_diffn primary (Py.to_setn rel)))
                 <-> In q primary /\ In q rel).
      { intros q. rewrite !set_diffn_In, to_setn_In.
        destruct (in_dec Nat.eq_dec q rel); tauto. }
      split.
      * intros q. rewrite Hc, in_app_iff, Hback. split.
        -- intros [[Hq|Hq]|[s [Hs Hr]]].
           ++ now left.
           ++ right. exists s0. split; [now left|]. exists rel. tauto.
           ++ right. exists s. split; [now right|exact Hr].
        -- intros [Hq|[s [[<-|Hs] Hr]]].
           ++ left. now left.
           ++ destruct Hr as [rel' [Erel' Hr]].
              rewrite Erel in Erel'. injection Erel' as <-.
              left. right. tauto.
           ++ right. now exists s.
      * rewrite Hf. split; [|intros _; now left].
        intros _. right. exists s0. split; [now left|]. now exists rel.
    + assert (Hfull : forall m, In m primary -> In m rel).
      { intros m Hm. destruct (in_dec Nat.eq_dec m rel) as [Hr|Hr]; [exact Hr|].
        assert (Hin : In m (Py.set_diffn primary (Py.to_setn rel)))
          by (apply set_diffn_In; now rewrite to_setn_In).
        destruct (Py.set_diffn primary (Py.to_setn rel)); [destruct Hin|].
        discriminate. }
      split.
      * intros q. rewrite Hc. split.
        -- intros [Hq|[s [Hs Hr]]]; [now left|].
           right. exists s. split; [now right|exact Hr].
        -- intros [Hq|[s [[<-|Hs] Hr]]]; [now left| |right; now exists s].
           destruct Hr as [rel' [Erel' [[m [Hm Hnm]] _]]].
           rewrite Erel in Erel'. injection Erel' as <-.
           exfalso. apply Hnm. now apply Hfull.
      * rewrite Hf. split.
        -- intros [E|[s [Hs Hr]]]; [now left|].
           right. exists s. split; [now right|exact Hr].
        -- intros [E|[s [[<-|Hs] Hr]]]; [now left| |right; now exists s].
           destruct Hr as [rel' [Erel' [m [Hm Hnm]]]].
           rewrite Erel in Erel'. injection Erel' as <-.
           exfalso. apply Hnm. now apply Hfull.
Qed.

(** ** The scenes of the specification, evaluated *)

Ltac evaluate := vm_compute; reflexivity.

Ltac concrete_space_free :=
  let o := fresh "o" in
  let a := fresh "a" in
  let Ho := fresh "Ho" in
  let Ha := fresh "Ha" in
  intros o Ho a Ha; simpl in Ho;
  repeat (destruct Ho as [<-|Ho]; [simpl in Ha; intuition (subst; reflexivity)|]);
  destruct Ho.

Ltac concrete_distinct :=
  let o := fresh "o" in
  let Ho := fresh "Ho" in
  intros o Ho; simpl in Ho;
  repeat (destruct Ho as [<-|Ho];
          [repeat constructor; simpl; intuition discriminate|]);
  destruct Ho.

(** C1: on two objects that differ in colour only, a well-formed scene in
    which "red" is true of exactly one object, [parse_scene] raises
    [KeyError]: the primary name "Exactly one all red" reaches the [else]
    branch, which strips "all " only and looks up "Exactly one red". *)
Theorem parse_scene_raises_on_unique_attribute :
  parse_scene scene_two_colors = inl (KeyError "Exactly one red") /\
  primary_names (build_index (objects scene_two_colors))
    (objd_list_of (obj "small" "red" "rubber" "cube"))
  = ["some objects"; "all small"; "Exactly one all red"; "all rubber";
     "all cube"] /\
  Py.contains "some" "Exactly one all red" = false /\
  Py.replace "all " "" "Exactly one all red" = "Exactly one red" /\
  dget "Exactly one red" (image_2ids (build_index (objects scene_two_colors)))
  = None /\
  strip_quantifier "Exactly one all red" = "red".
Proof. repeat split; evaluate. Qed.

(** C2, counterexample: with one blue object among three red ones there is
    no result at all, so the blue object is not paired with "blue". *)
Lemma lone_blue_object_not_returned :
  ~ (exists full updated m,
       calculate_ad_hoc_matrix one_blue = Some (full, updated, m) /\
       In (0, "blue") updated).
Proof.
  intros [full [updated [m [H _]]]].
  assert (E : calculate_ad_hoc_matrix one_blue = None) by evaluate.
  rewrite E in H. discriminate H.
Qed.

Lemma lone_blue_value_never_returned_witness :
  length one_blue = 4 /\
  ~ In (0, "blue") (filtered one_blue).
Proof.
  split; [reflexivity|].
  apply (proj1 lone_blue_value_never_returned one_blue 0
           (obj "large" "blue" "rubber" "cube")).
  - reflexivity.
  - reflexivity.
  - reflexivity.
  - intros j o Hj Hne. destruct j as [|[|[|[|j]]]]; simpl in Hj;
      try congruence; try (injection Hj as <-; reflexivity).
    destruct j; discriminate.
  - intros o Ho. simpl in Ho.
    repeat (destruct Ho as [<-|Ho]; [repeat split; discriminate|]).
    destruct Ho.
Defined.

(** C3, counterexample: for one object alone the extension of "red" has
    one element and the label is "all", not "Exactly one all". And when a
    value contains a space, the size "a b" of the second of two objects has
    both objects in its extension and is listed under "all", yet it is
    labelled "Exactly one all": [image_some2ids] still holds the extension
    of the window ["a"; "b"] of the first object. *)
Lemma single_object_labelled_all :
  (let ix := build_index (objects scene_single) in
   length (objects scene_single) = 1 /\
   dget "red" (image_2ids ix) = Some [0] /\
   primary_name ix "red" = "all red" /\
   primary_name ix "red" <> "Exactly one all red") /\
  (let ix := build_index objs_spaced_rev in
   length objs_spaced_rev = 2 /\
   In "a b" (objd_list_of (obj "a b" "c" "d" "e")) /\
   dget "a b" (image_2ids ix) = Some [0; 1] /\
   primary_name ix "a b" = "Exactly one all a b").
Proof.
  split; repeat split; try evaluate.
  - vm_compute. discriminate.
  - now left.
Qed.

Lemma quantifier_label_by_size_witness :
  In (obj "small" "red" "rubber" "cube") objs3 /\
  (primary_name (build_index objs3) "red" = "some red"
   <-> 2 <> 1 /\ 2 <> length objs3).
Proof.
  split; [now left|].
  assert (Hs : forall o, In o objs3 -> space_free o) by concrete_space_free.
  destruct (proj2 (quantifier_label_by_size objs3 Hs)
              (obj "small" "red" "rubber" "cube") "red")
    as [_ [ext [Hget [_ [_ [_ H]]]]]].
  - now left.
  - right. now left.
  - assert (E : dget "red" (image_2ids (build_index objs3)) = Some [0; 1])
      by evaluate.
    rewrite E in Hget. injection Hget as <-. exact H.
Defined.

(** C4, counterexample: on the scene of scenario 2 [parse_scene] raises
    when it comes to object 1, and nothing that the utterance loop would
    append for any pivot and primary name speaks of red things on the
    right of blue ones. *)
Lemma scenario2_no_red_right_of_blue :
  parse_scene scene3 = inl (KeyError "Exactly one large") /\
  length per_name3 = 3 /\
  none_red_right_of_blue per_name3 = true.
Proof. repeat split; evaluate. Qed.

(** C4 (as amended): on the scene of scenario 2, object 2 is in the
    [right] lists of objects 0 and 1; for pivot 0 and its primary name
    "some red" the loop appends "all red on the left of Exactly one all
    blue", with no "Exactly one" in front, the extension of "red" being
    objects 0 and 1. The related objects are named by one attribute
    each. *)
Theorem scenario2_red_left_of_blue :
  dget "red" (image_2ids ix3) = Some [0; 1] /\
  utterances3 0 "some red"
  = inr ["all red on the left of some small";
         "all red on the left of Exactly one all blue";
         "all red on the left of Exactly one all metal";
         "all red on the left of Exactly one all sphere"] /\
  Py.startswith "Exactly one "
    "all red on the left of Exactly one all blue" = false.
Proof. repeat split; evaluate. Qed.

(** C5, counterexample: "small" is labelled "some" and its extension has
    two elements, yet the utterances of pivot 0 under "some small" start
    with "Exactly one". *)
Lemma prefix_without_unique_primary :
  primary_name ix3 "small" = "some small" /\
  dget "small" (image_2ids ix3) = Some [0; 2] /\
  utterances3 0 "some small"
  = inr ["Exactly one some small on the left of some small";
         "Exactly one some small on the left of Exactly one all blue";
         "Exactly one some small on the left of Exactly one all metal";
         "Exactly one some small on the left of Exactly one all sphere"] /\
  Py.startswith "Exactly one "
    "Exactly one some small on the left of some small" = true.
Proof. repeat split; evaluate. Qed.

(** C5 (as amended): an utterance under a "some" primary name starts with
    "Exactly one" exactly when [count_ids] has one element, that is, when
    one primary object is counted. Against a "some" description the
    primary objects counted are those with a related object in its
    extension; against an "all" description they are those related to an
    object of its extension to which not all primary objects are related.
    A one-attribute window labelled "some" never has an extension of one
    element. *)
Theorem exactly_one_prefix_iff_one_counted :
  (forall ix inv_rel same_rel phrase name_ primary_object_ids descrip u,
     relate ix inv_rel same_rel phrase name_ primary_object_ids descrip
     = inr u ->
     exists some_flag count_ids,
       count_related ix inv_rel same_rel primary_object_ids descrip
       = inr (some_flag, count_ids) /\
       (Py.startswith "Exactly one " u = true
        <-> length (Py.to_setn count_ids) = 1) /\
       (length (Py.to_setn count_ids) = 1
        <-> exists p, forall q, In q count_ids <-> q = p)) /\
  (forall ix same_rel primary_object_ids descrip some_flag count_ids,
     count_some ix same_rel primary_object_ids descrip
     = inr (some_flag, count_ids) ->
     exists second_object_ids,
       dget (Py.last_piece (Py.split "some " descrip)) (image_2ids ix)
       = Some second_object_ids /\
       forall q, In q count_ids <->
         In q primary_object_ids /\
         exists rel, nth_error same_rel q = Some rel /\
                     exists s, In s rel /\ In s second_object_ids) /\
  (forall ix inv_rel primary_object_ids descrip some_flag count_ids,
     count_all ix inv_rel primary_object_ids descrip
     = inr (some_flag, count_ids) ->
     exists second_object_ids,
       dget (Py.last_piece (Py.split "all " descrip)) (image_2ids ix)
       = Some second_object_ids /\
       forall q, In q count_ids <->
         exists s, In s second_object_ids /\
           exists rel, nth_error inv_rel s = Some rel /\
             (exists m, In m primary_object_ids /\ ~ In m rel) /\
             In q primary_object_ids /\ In q rel) /\
  (forall objs o attr,
     (forall o', In o' objs -> space_free o') ->
     In o objs -> In attr (objd_list_of o) ->
     primary_name (build_index objs) attr = ("some " ++ attr)%string ->
     exists ids,
       dget attr (image_2ids (build_index objs)) = Some ids /\
       length ids <> 1).
Proof.
  split; [|split; [|split]].
  - intros ix inv_rel same_rel phrase name_ prim descrip u H.
    unfold relate in H.
    destruct (count_related ix inv_rel same_rel prim descrip)
      as [e|[some_flag count_ids]]; [discriminate|].
    cbn [bind] in H. injection H as <-.
    exists some_flag, count_ids. split; [reflexivity|].
    split; [|apply one_element].
    unfold render, Py.startswith. cbn [fst snd].
    destruct (length (Py.to_setn count_ids) =? 1) eqn:E.
    + apply Nat.eqb_eq in E. split; [auto|]. intros _.
      apply (prefix_app "Exactly one ").
    + apply Nat.eqb_neq in E. split; [|contradiction].
      destruct some_flag; cbn; discriminate.
  - intros ix same_rel prim descrip some_flag count_ids H.
    unfold count_some, dget_exn in H.
    destruct (dget (Py.last_piece (Py.split "some " descrip)) (image_2ids ix))
      as [second|]; [|discriminate].
    cbn [bind ret] in H. exists second. split; [reflexivity|].
    apply count_some_loop in H. destruct H as [H _]. cbn [fst snd] in H.
    intros q. rewrite H. simpl. tauto.
  - intros ix inv_rel prim descrip some_flag count_ids H.
    unfold count_all, dget_exn in H.
    destruct (dget (Py.last_piece (Py.split "all " descrip)) (image_2ids ix))
      as [second|]; [|discriminate].
    cbn [bind ret] in H. exists second. split; [reflexivity|].
    apply count_all_loop in H. destruct H as [H _]. cbn [fst snd] in H.
    intros q. rewrite H. simpl. tauto.
  - intros objs o attr Hs Ho Ha Hname.
    destruct (primary_label_cases objs o attr Hs Ho Ha)
      as [ext [Hget [_ [_ [_ Hsome]]]]].
    exists ext. split; [exact Hget|]. now apply Hsome.
Qed.

Lemma exactly_one_prefix_iff_one_counted_witness :
  relate ix3 (rel_left rels3) (rel_right rels3) " on the left of " "small"
    [0; 2] "some small"
  = inr "Exactly one some small on the left of some small" /\
  exists some_flag count_ids,
    count_related ix3 (rel_left rels3) (rel_right rels3) [0; 2] "some small"
    = inr (some_flag, count_ids) /\
    (Py.startswith "Exactly one "
       "Exactly one some small on the left of some small" = true
     <-> length (Py.to_setn count_ids) = 1) /\
    (length (Py.to_setn count_ids) = 1
     <-> exists p, forall q, In q count_ids <-> q = p).
Proof.
  split; [evaluate|].
  apply (proj1 exactly_one_prefix_iff_one_counted ix3 (rel_left rels3)
           (rel_right rels3) " on the left of " "small" [0; 2] "some small").
  evaluate.
Defined.

(** C6: for a single attribute the extension is found by looking for the
    attribute inside the joined description of each object; "red" occurs
    inside "darkred", so the second object, none of whose four values is
    "red", is in the extension of "red", which is then listed under
    "all". *)
Theorem single_attribute_extension_by_substring :
  let ix := build_index objs_darkred in
  dget "red" (image_2ids ix) = Some [0; 1] /\
  In "red" (image_all ix) /\
  nth_error objs_darkred 1 = Some (obj "large" "darkred" "metal" "sphere") /\
  ~ In "red" (objd_list_of (obj "large" "darkred" "metal" "sphere")).
Proof.
  repeat split; try evaluate.
  - vm_compute. now left.
  - simpl. intuition discriminate.
Qed.

Lemma tied_or_shared_value_excluded_witness :
  (0 <> 1 /\ unique_best two_blue "blue" 0 /\ unique_best two_blue "blue" 1) /\
  ~ In (0, "blue") (filtered two_blue).
Proof.
  assert (H0 : unique_best two_blue "blue" 0).
  { split; [simpl; lia|]. exists 3. split; evaluate. }
  assert (H1 : unique_best two_blue "blue" 1).
  { split; [simpl; lia|]. exists 3. split; evaluate. }
  split; [split; [discriminate|split; [exact H0|exact H1]]|].
  apply (proj1 (tied_or_shared_value_excluded two_blue "blue"
                  (or_intror (ex_intro _ 0 (ex_intro _ 1
                     (conj (fun E : 0 = 1 => O_S 0 E) (conj H0 H1))))))).
Defined.

(** C8, counterexample: the size "a b" of object 0 is also the text of the
    window of the first two attributes of object 1; what is stored for
    "a b" in the end is the extension of that window, and object 0 is not
    in it. *)
Lemma spaced_value_overwrites_extension :
  (forall o, In o objs_spaced -> distinct_values o) /\
  In ["a b"] (windows (objd_list_of (obj "a b" "c" "d" "e"))) /\
  nth_error objs_spaced 0 = Some (obj "a b" "c" "d" "e") /\
  dget (Py.join " " ["a b"]) (image_2ids (build_index objs_spaced))
  = Some [1] /\
  ~ In 0 [1].
Proof.
  split; [concrete_distinct|].
  repeat split; try evaluate.
  - now left.
  - simpl. lia.
Qed.

Lemma stored_extension_covers_witness :
  nth_error objs3 1 = Some (obj "large" "red" "rubber" "cube") /\
  exists ext,
    dget (Py.join " " ["red"; "rubber"]) (image_2ids (build_index objs3))
    = Some ext /\ In 1 ext.
Proof.
  split; [reflexivity|].
  assert (Hd : forall o, In o objs3 -> distinct_values o) by concrete_distinct.
  assert (Hs : forall o, In o objs3 -> space_free o) by concrete_space_free.
  destruct (proj2 (stored_extension_covers objs3 Hd Hs) 1
              (obj "large" "red" "rubber" "cube") ["red"; "rubber"])
    as [ext [Hget [Hin _]]].
  - reflexivity.
  - cbn. auto 10.
  - exists ext. split; [exact Hget|exact Hin].
Defined.

(** C9, counterexample: two objects with the same attributes; every
    description holds of both, and each is listed under "all" once per
    object. And when a value contains a space, "a b" is listed under
    "some" (as the window ["a"; "b"] of one object) and under "all" (as
    the size of the other). *)
Lemma all_list_repeats :
  (exists out,
     parse_scene scene_twins = inr out /\
     intrinsic_some out = [] /\
     ~ NoDup (intrinsic_all out)) /\
  (In "a b" (dkeys (image_some2ids (build_index objs_spaced))) /\
   In "a b" (image_all (build_index objs_spaced))).
Proof.
  split.
  - eexists. split; [evaluate|]. split; [reflexivity|].
    cbn [intrinsic_all]. intros H. apply NoDup_cons_iff in H.
    apply (proj1 H). simpl. auto 20.
  - split; vm_compute; auto 20.
Qed.

Lemma some_all_disjoint_witness :
  In "red" (dkeys (image_some2ids (build_index objs3))) /\
  ~ In "red" (image_all (build_index objs3)).
Proof.
  assert (Hs : forall o, In o objs3 -> space_free o) by concrete_space_free.
  assert (Hin : In "red" (dkeys (image_some2ids (build_index objs3))))
    by (vm_compute; auto).
  split; [exact Hin|].
  exact (proj1 (proj2 (some_all_disjoint objs3 Hs)) "red" Hin).
Defined.

Lemma no_result_iff_empty_witness :
  calculate_ad_hoc_matrix one_blue = None /\
  add_ad_hoc_random_objects [Placed one_blue true; Placed two_blue_one_sphere true]
  = add_ad_hoc_random_objects [Placed two_blue_one_sphere true].
Proof.
  assert (E : calculate_ad_hoc_matrix one_blue = None) by evaluate.
  split; [exact E|].
  exact (proj2 (proj2 (no_result_iff_empty one_blue)) true
           [Placed two_blue_one_sphere true] E).
Defined.

(** * Further properties of the code *)

(** ** Splitting and replacing where the separator does not occur *)

Section MoreStringFacts.

Local Open Scope string_scope.

Lemma prefix_split (p s : string) :
  prefix p s = true -> exists r, s = p ++ r.
Proof.
  revert s. induction p as [|c p IH]; intros s H.
  - now exists s.
  - destruct s as [|d s]; [discriminate|]. simpl in H.
    destruct (ascii_dec c d) as [->|]; [|discriminate].
    destruct (IH s H) as [r ->]. now exists r.
Qed.

Lemma contains_split (x s : string) :
  Py.contains x s = true -> exists p r, s = p ++ x ++ r.
Proof.
  induction s as [|c s IH]; cbn [Py.contains]; intros H.
  - rewrite orb_false_r in H. apply prefix_split in H.
    destruct H as [r Hr]. now exists "", r.
  - apply orb_true_iff in H. destruct H as [H|H].
    + apply prefix_split in H. destruct H as [r Hr]. now exists "", r.
    + destruct (IH H) as [p [r ->]]. now exists (String c p), r.
Qed.

Lemma app_assoc_string (x y z : string) : (x ++ y) ++ z = x ++ y ++ z.
Proof. induction x; simpl; congruence. Qed.

(** [x in y] and [y in s] give [x in s] *)
Lemma contains_trans (x y s : string) :
  Py.contains x y = true -> Py.contains y s = true -> Py.contains x s = true.
Proof.
  intros Hxy Hys. apply contains_split in Hxy. apply contains_split in Hys.
  destruct Hxy as [a [b ->]]. destruct Hys as [p [r ->]].
  rewrite !app_assoc_string. rewrite <- (app_assoc_string p a).
  apply contains_middle.
Qed.

Lemma split_absent (sep s : string) :
  Py.contains sep s = false -> Py.split_from sep 0 s = [s].
Proof.
  induction s as [|c s IH]; [reflexivity|].
  cbn [Py.contains Py.split_from]. intros H.
  apply orb_false_iff in H. destruct H as [Hp Hc].
  rewrite Hp, (IH Hc). reflexivity.
Qed.

Lemma replace_absent (old new s : string) :
  Py.contains old s = false -> Py.replace_from old new 0 s = s.
Proof.
  induction s as [|c s IH]; [reflexivity|].
  cbn [Py.contains Py.replace_from]. intros H.
  apply orb_false_iff in H. destruct H as [Hp Hc].
  rewrite Hp, (IH Hc). reflexivity.
Qed.

Lemma absent_longer (x y s : string) :
  Py.contains x y = true -> Py.contains x s = false -> Py.contains y s = false.
Proof.
  intros Hxy Hs. destruct (Py.contains y s) eqn:E; [|reflexivity].
  rewrite (contains_trans x y s Hxy E) in Hs. discriminate.
Qed.

Lemma prefix_empty (s : string) : prefix "" s = true.
Proof. now destruct s. Qed.

Ltac open_name := cbn; rewrite ?prefix_empty; cbn.

(** the quantified names, taken apart again *)
Lemma replace_some_name (x : string) :
  Py.contains "some" x = false -> Py.replace "some " "" ("some " ++ x) = x.
Proof.
  intros H. unfold Py.replace. open_name.
  apply replace_absent. now apply (absent_longer "some").
Qed.

Lemma replace_all_name (x : string) :
  Py.contains " " x = false -> Py.replace "all " "" ("all " ++ x) = x.
Proof.
  intros H. unfold Py.replace. open_name.
  apply replace_absent. now apply (absent_longer " ").
Qed.

Lemma replace_exactly_name (x : string) :
  Py.contains " " x = false ->
  Py.replace "all " "" ("Exactly one all " ++ x) = "Exactly one " ++ x.
Proof.
  intros H. unfold Py.replace. open_name.
  rewrite replace_absent; [reflexivity|]. now apply (absent_longer " ").
Qed.

Lemma split_space_some (y : string) :
  Py.contains " " y = false -> Py.split " " ("some " ++ y) = ["some"; y].
Proof. intros H. unfold Py.split. open_name. now rewrite (split_absent " " y H). Qed.

Lemma split_space_all (y : string) :
  Py.contains " " y = false -> Py.split " " ("all " ++ y) = ["all"; y].
Proof. intros H. unfold Py.split. open_name. now rewrite (split_absent " " y H). Qed.

Lemma split_space_exactly (y : string) :
  Py.contains " " y = false ->
  Py.split " " ("Exactly one all " ++ y) = ["Exactly"; "one"; "all"; y].
Proof. intros H. unfold Py.split. open_name. now rewrite (split_absent " " y H). Qed.

Lemma last_split_all (y : string) :
  Py.contains " " y = false ->
  Py.last_piece (Py.split "all " ("all " ++ y)) = y.
Proof.
  intros H. unfold Py.split. open_name.
  rewrite split_absent; [reflexivity|]. now apply (absent_longer " ").
Qed.

Lemma last_split_exactly (y : string) :
  Py.contains " " y = false ->
  Py.last_piece (Py.split "all " ("Exactly one all " ++ y)) = y.
Proof.
  intros H. unfold Py.split. open_name.
  rewrite split_absent; [reflexivity|]. now apply (absent_longer " ").
Qed.

Lemma last_split_some (y : string) :
  Py.contains "some" y = false ->
  Py.last_piece (Py.split "some " ("some " ++ y)) = y.
Proof.
  intros H. unfold Py.split. open_name.
  rewrite split_absent; [reflexivity|]. now apply (absent_longer "some").
Qed.

Lemma no_some_in_all (x : string) :
  Py.contains "some" x = false -> Py.contains "some" ("all " ++ x) = false.
Proof. intros H. open_name. now rewrite H. Qed.

Lemma no_some_in_exactly (x : string) :
  Py.contains "some" x = false ->
  Py.contains "some" ("Exactly one all " ++ x) = false.
Proof. intros H. open_name. now rewrite H. Qed.

Lemma some_in_some (x : string) : Py.contains "some" ("some " ++ x) = true.
Proof. apply (contains_middle "some" "" (" " ++ x)). Qed.

End MoreStringFacts.

(** ** Loops that may raise *)

Lemma map_exn_ok {A B} (f : A -> result B) (l : list A) (R : A -> B -> Prop) :
  (forall a, In a l -> exists b, f a = inr b /\ R a b) ->
  exists bs, map_exn f l = inr bs /\ Forall2 R l bs.
Proof.
  induction l as [|a l IH]; intros H.
  - exists []. split; [reflexivity|constructor].
  - destruct (H a (or_introl eq_refl)) as [b [Hb Rb]].
    destruct IH as [bs [Hbs HF]]; [intros x Hx; apply H; now right|].
    exists (b :: bs). split; [|now constructor].
    cbn [map_exn]. rewrite Hb. cbn [bind]. rewrite Hbs. reflexivity.
Qed.

Lemma map_exn_inl {A B} (f : A -> result B) (l : list A) (P : exn -> Prop) :
  (forall a, In a l -> (exists b, f a = inr b) \/ (exists e, f a = inl e /\ P e)) ->
  (exists a, In a l /\ exists e, f a = inl e) ->
  exists e, map_exn f l = inl e /\ P e.
Proof.
  induction l as [|a l IH]; intros H [x [Hx Hbad]]; [destruct Hx|].
  cbn [map_exn].
  destruct (H a (or_introl eq_refl)) as [[b Hb]|[e [He HP]]].
  - rewrite Hb. cbn [bind].
    destruct IH as [e [He HP]].
    + intros y Hy. apply H. now right.
    + destruct Hx as [<-|Hx]; [destruct Hbad as [e He]; congruence|].
      now exists x.
    + exists e. rewrite He. now split.
  - exists e. rewrite He. now split.
Qed.

Lemma for_each_ok {A B} (f : A -> result (list B)) (l : list A)
    (R : B -> Prop) :
  (forall a, In a l -> exists bs, f a = inr bs /\ Forall R bs) ->
  exists bs, for_each f l = inr bs /\ Forall R bs.
Proof.
  induction l as [|a l IH]; intros H.
  - exists []. split; [reflexivity|constructor].
  - destruct (H a (or_introl eq_refl)) as [b [Hb Rb]].
    destruct IH as [bs [Hbs HF]]; [intros x Hx; apply H; now right|].
    exists (b ++ bs). split; [|now apply Forall_app].
    cbn [for_each]. rewrite Hb. cbn [bind]. rewrite Hbs. reflexivity.
Qed.

Lemma for_each_inl {A B} (f : A -> result (list B)) (l : list A)
    (P : exn -> Prop) :
  (forall a, In a l -> (exists b, f a = inr b) \/ (exists e, f a = inl e /\ P e)) ->
  (exists a, In a l /\ exists e, f a = inl e) ->
  exists e, for_each f l = inl e /\ P e.
Proof.
  induction l as [|a l IH]; intros H [x [Hx Hbad]]; [destruct Hx|].
  cbn [for_each].
  destruct (H a (or_introl eq_refl)) as [[b Hb]|[e [He HP]]].
  - rewrite Hb. cbn [bind].
    destruct IH as [e [He HP]].
    + intros y Hy. apply H. now right.
    + destruct Hx as [<-|Hx]; [destruct Hbad as [e He]; congruence|].
      now exists x.
    + exists e. rewrite He. now split.
  - exists e. rewrite He. now split.
Qed.

Lemma fold_exn_ok {A S} (f : S -> A -> result S) (l : list A) (s : S) :
  (forall a st, In a l -> exists st', f st a = inr st') ->
  exists s', fold_exn f l s = inr s'.
Proof.
  revert s. induction l as [|a l IH]; intros s H.
  - now exists s.
  - destruct (H a s (or_introl eq_refl)) as [s1 Hs1].
    cbn [fold_exn]. rewrite Hs1. cbn [bind].
    apply IH. intros x st Hx. apply H. now right.
Qed.

(** ** The ids of an extension *)

Lemma inds_bound {A} (p : A -> bool) (l : list A) (j : nat) :
  In j (Py.inds p l) -> j < length l.
Proof.
  intros H. apply inds_spec in H. destruct H as [x [Hx _]].
  apply nth_error_Some. congruence.
Qed.

Lemma extension_bound objs w j :
  In j (extension_of objs w) -> j < length objs.
Proof.
  intros H. unfold extension_of, ext1, ext_set, ext_full in H.
  destruct w as [|a [|b [|c [|d w]]]];
    apply inds_bound in H; now rewrite length_map in H.
Qed.

Lemma dkeys_dfold {V} (ws : list (string * V)) (d : dict V) (k : string) :
  In k (map fst ws) \/ In k (dkeys d) -> In k (dkeys (dfold ws d)).
Proof.
  revert d. induction ws as [|[k0 v0] ws IH]; intros d H.
  - destruct H as [[]|H]. exact H.
  - cbn [dfold fold_left fst snd]. apply IH. cbn [map fst] in H.
    destruct H as [[<-|H]|H].
    + right. apply dkeys_dset. now left.
    + now left.
    + right. apply dkeys_dset. now right.
Qed.

(** every attribute value of every object is a key of [image_2ids], and
    what is stored there are object ids *)
Lemma stored_ids_bound objs key ids :
  dget key (image_2ids (build_index objs)) = Some ids ->
  forall j, In j ids -> j < length objs.
Proof.
  rewrite build_index_2ids. intros H j Hj.
  apply dfold_origin in H. destruct H as [H|H]; [|discriminate].
  apply in_writes in H. destruct H as [o [w [_ [_ [_ ->]]]]].
  now apply (extension_bound objs w).
Qed.

Lemma attribute_key_present objs attr :
  attribute_of objs attr ->
  exists ids, dget attr (image_2ids (build_index objs)) = Some ids.
Proof.
  intros [o [Ho Ha]].
  destruct (dget attr (image_2ids (build_index objs))) as [ids|] eqn:E;
    [now exists ids|].
  exfalso. apply dget_None in E. apply E.
  rewrite build_index_2ids. apply dkeys_dfold. left.
  apply in_map_iff. exists (attr, extension_of objs [attr]).
  split; [reflexivity|]. apply in_writes. exists o, [attr].
  repeat split; auto. now apply singleton_window.
Qed.

Lemma map_exn_cases {A B} (f : A -> result B) (l : list A) (P : exn -> Prop) :
  (forall a, In a l -> (exists b, f a = inr b) \/ (exists e, f a = inl e /\ P e)) ->
  (exists bs, map_exn f l = inr bs) \/ (exists e, map_exn f l = inl e /\ P e).
Proof.
  induction l as [|a l IH]; intros H.
  - left. now exists [].
  - cbn [map_exn].
    destruct (H a (or_introl eq_refl)) as [[b Hb]|[e [He HP]]].
    + rewrite Hb. cbn [bind].
      destruct IH as [[bs Hbs]|[e [He HP]]].
      * intros y Hy. apply H. now right.
      * left. rewrite Hbs. now exists (b :: bs).
      * right. exists e. rewrite He. now split.
    + right. exists e. rewrite He. now split.
Qed.

Lemma for_each_cases {A B} (f : A -> result (list B)) (l : list A)
    (P : exn -> Prop) :
  (forall a, In a l -> (exists b, f a = inr b) \/ (exists e, f a = inl e /\ P e)) ->
  (exists bs, for_each f l = inr bs) \/ (exists e, for_each f l = inl e /\ P e).
Proof.
  induction l as [|a l IH]; intros H.
  - left. now exists [].
  - cbn [for_each].
    destruct (H a (or_introl eq_refl)) as [[b Hb]|[e [He HP]]].
    + rewrite Hb. cbn [bind].
      destruct IH as [[bs Hbs]|[e [He HP]]].
      * intros y Hy. apply H. now right.
      * left. rewrite Hbs. now exists (b ++ bs).
      * right. exists e. rewrite He. now split.
    + right. exists e. rewrite He. now split.
Qed.

Lemma Forall2_In_l {A B} (R : A -> B -> Prop) l l' a :
  Forall2 R l l' -> In a l -> exists b, In b l' /\ R a b.
Proof.
  induction 1 as [|x y l l' HR HF IH]; intros Hin; [destruct Hin|].
  destruct Hin as [<-|Hin].
  - exists y. split; [now left|exact HR].
  - destruct (IH Hin) as [b [Hb Rb]]. exists b. split; [now right|exact Rb].
Qed.

Lemma Forall2_In_r {A B} (R : A -> B -> Prop) l l' b :
  Forall2 R l l' -> In b l' -> exists a, In a l /\ R a b.
Proof.
  induction 1 as [|x y l l' HR HF IH]; intros Hin; [destruct Hin|].
  destruct Hin as [<-|Hin].
  - exists x. split; [now left|exact HR].
  - destruct (IH Hin) as [a [Ha Ra]]. exists a. split; [now right|exact Ra].
Qed.

Lemma in_enumerate {A} (l : list A) (j : nat) (x : A) :
  In (j, x) (Py.enumerate l) <-> nth_error l j = Some x.
Proof.
  unfold Py.enumerate. rewrite in_enumerate_from. rewrite Nat.sub_0_r.
  split; [tauto|]. intros H. split; [lia|exact H].
Qed.

Lemma in_enumerate_lt {A} (l : list A) (j : nat) (x : A) :
  In (j, x) (Py.enumerate l) -> j < length l.
Proof.
  intros H. apply in_enumerate in H. apply nth_error_Some. congruence.
Qed.

(** ** Well-formed relationship lists *)

Lemma row_ok_true n rel i :
  row_ok n rel i = true <->
  exists ids, nth_error rel i = Some ids /\ forall j, In j ids -> j < n.
Proof.
  unfold row_ok. destruct (nth_error rel i) as [ids|].
  - rewrite forallb_forall. split.
    + intros H. exists ids. split; [reflexivity|].
      intros j Hj. apply Nat.ltb_lt. now apply H.
    + intros [ids' [[= <-] H]] j Hj. apply Nat.ltb_lt. now apply H.
  - split; [discriminate|]. intros [ids [H _]]. discriminate H.
Qed.

Lemma rows_ok_true n rels :
  rows_ok n rels = true <-> forall i, i < n -> rows_at n rels i = true.
Proof.
  unfold rows_ok. rewrite forallb_forall. split.
  - intros H i Hi. apply (H i). apply in_seq. lia.
  - intros H i Hi. apply in_seq in Hi. apply H. lia.
Qed.

Lemma rows_ok_false n rels :
  rows_ok n rels = false -> exists i, i < n /\ rows_at n rels i = false.
Proof.
  intros H. unfold rows_ok in H.
  assert (E : existsb (fun i => negb (rows_at n rels i)) (seq 0 n) = true).
  { revert H. generalize (seq 0 n). intros l. induction l as [|a l IH].
    - discriminate.
    - cbn [forallb existsb].
      destruct (rows_at n rels a); cbn [andb orb negb]; [exact IH|reflexivity]. }
  apply existsb_exists in E. destruct E as [i [Hi Hb]].
  exists i. apply in_seq in Hi. split; [lia|].
  now destruct (rows_at n rels i).
Qed.

Lemma rows_at_rows n rels i :
  rows_at n rels i = true ->
  row_ok n (rel_left rels) i = true /\ row_ok n (rel_right rels) i = true /\
  row_ok n (rel_front rels) i = true /\ row_ok n (rel_behind rels) i = true.
Proof.
  unfold rows_at. rewrite !andb_true_iff. tauto.
Qed.

(** ** The second pass *)

Lemma children_spec (objd_lists : list (list string)) (rel : list nat) :
  if forallb (fun j => j <? length objd_lists) rel
  then exists cs, children objd_lists rel = inr cs /\
                  Forall (fun c => In c objd_lists) cs
  else children objd_lists rel = inl IndexError.
Proof.
  unfold children. induction rel as [|j rel IH]; cbn [forallb map_exn].
  - exists []. split; [reflexivity|constructor].
  - destruct (j <? length objd_lists) eqn:Ej; cbn [andb].
    + apply Nat.ltb_lt in Ej.
      destruct (nth_error objd_lists j) as [c|] eqn:Ec;
        [|apply nth_error_None in Ec; lia].
      rewrite (proj2 (nth_exn_inr objd_lists j c) Ec). cbn [bind].
      destruct (forallb (fun j => j <? length objd_lists) rel).
      * destruct IH as [cs [-> HF]]. exists (c :: cs).
        split; [reflexivity|]. constructor; [|exact HF].
        eapply nth_error_In; eassumption.
      * rewrite IH. reflexivity.
    + apply Nat.ltb_ge in Ej.
      assert (Ec : nth_error objd_lists j = None) by now apply nth_error_None.
      unfold nth_exn at 1. rewrite Ec. reflexivity.
Qed.

Lemma object_struct_spec ix objd_lists rels i objd :
  i < length objd_lists ->
  if rows_at (length objd_lists) rels i
  then exists s, object_struct ix objd_lists rels (i, objd) = inr s /\
                 struct_ok ix objd_lists (i, objd) s
  else object_struct ix objd_lists rels (i, objd) = inl IndexError.
Proof.
  intros Hi. unfold object_struct, rows_at, row_ok. cbn [fst snd].
  unfold nth_exn.
  destruct (nth_error objd_lists i) as [l|] eqn:El;
    [|apply nth_error_None in El; lia].
  cbn [ret bind].
  destruct (nth_error (rel_left rels) i) as [rl|]; [|reflexivity].
  destruct (nth_error (rel_right rels) i) as [rr|];
    [|rewrite andb_false_r; reflexivity].
  destruct (nth_error (rel_front rels) i) as [rf|];
    [|rewrite andb_false_r; reflexivity].
  destruct (nth_error (rel_behind rels) i) as [rb|];
    [|rewrite andb_false_r; reflexivity].
  cbn [ret bind].
  pose proof (children_spec objd_lists rl) as Hl.
  pose proof (children_spec objd_lists rr) as Hr.
  pose proof (children_spec objd_lists rf) as Hf.
  pose proof (children_spec objd_lists rb) as Hb.
  destruct (forallb _ rl); cbn [andb]; [|rewrite Hl; reflexivity].
  destruct Hl as [cl [-> Fl]]. cbn [bind].
  destruct (forallb _ rr); cbn [andb]; [|rewrite Hr; reflexivity].
  destruct Hr as [cr [-> Fr]]. cbn [bind].
  destruct (forallb _ rf); cbn [andb]; [|rewrite Hf; reflexivity].
  destruct Hf as [cf [-> Ff]]. cbn [bind].
  destruct (forallb _ rb); cbn [andb]; [|rewrite Hb; reflexivity].
  destruct Hb as [cb [-> Fb]]. cbn [bind].
  eexists. split; [reflexivity|].
  unfold struct_ok. cbn.
  rewrite (nth_error_nth _ _ _ El). auto.
Qed.

Lemma structs_spec ix objd_lists objds rels :
  length objds = length objd_lists ->
  if rows_ok (length objd_lists) rels
  then exists structs,
         map_exn (object_struct ix objd_lists rels) (Py.enumerate objds)
         = inr structs /\
         Forall2 (struct_ok ix objd_lists) (Py.enumerate objds) structs
  else map_exn (object_struct ix objd_lists rels) (Py.enumerate objds)
       = inl IndexError.
Proof.
  intros Hlen. destruct (rows_ok (length objd_lists) rels) eqn:E.
  - apply map_exn_ok. intros [i objd] Hin.
    pose proof (in_enumerate_lt _ _ _ Hin) as Hi. rewrite Hlen in Hi.
    pose proof (object_struct_spec ix objd_lists rels i objd Hi) as H.
    rewrite (proj1 (rows_ok_true _ _) E i Hi) in H.
    exact H.
  - destruct (map_exn_inl (object_struct ix objd_lists rels)
                (Py.enumerate objds) (fun e => e = IndexError))
      as [e [He ->]]; [| |exact He].
    + intros [i objd] Hin.
      pose proof (in_enumerate_lt _ _ _ Hin) as Hi. rewrite Hlen in Hi.
      pose proof (object_struct_spec ix objd_lists rels i objd Hi) as H.
      destruct (rows_at (length objd_lists) rels i).
      * left. destruct H as [s [Hs _]]. now exists s.
      * right. now exists IndexError.
    + apply rows_ok_false in E. destruct E as [i [Hi Hbad]].
      assert (Hi' : i < length objds) by lia.
      destruct (nth_error objds i) as [objd|] eqn:Eo;
        [|apply nth_error_None in Eo; lia].
      exists (i, objd). split; [now apply in_enumerate|].
      pose proof (object_struct_spec ix objd_lists rels i objd Hi) as H.
      rewrite Hbad in H. now exists IndexError.
Qed.

(** ** The third pass *)

Lemma Forall2_Forall_r {A B} (R : A -> B -> Prop) (P : B -> Prop) l l' :
  Forall2 R l l' -> (forall a b, In a l -> R a b -> P b) -> Forall P l'.
Proof.
  induction 1 as [|x y l l' HR HF IH]; intros H; constructor.
  - apply (H x); [now left|exact HR].
  - apply IH. intros a b Ha. apply H. now right.
Qed.

Lemma secondary_name_ok objs rel_object_ids attr :
  attribute_of objs attr ->
  exists d, secondary_name (build_index objs) rel_object_ids attr = inr d /\
            secondary_form objs d.
Proof.
  intros Ha. destruct (attribute_key_present objs attr Ha) as [ids Hids].
  unfold secondary_name, dget_exn. rewrite Hids. cbn [ret bind].
  destruct (0 <? _); [|destruct (length ids =? 1)];
    eexists; (split; [reflexivity|]); exists attr; (split; [exact Ha|]); auto.
Qed.

Lemma secondary_names_ok objs rel_object_ids rel_objects :
  Forall (fun c => In c (map objd_list_of objs)) rel_objects ->
  exists ds, secondary_names (build_index objs) rel_object_ids rel_objects
             = inr ds /\ Forall (secondary_form objs) ds.
Proof.
  intros HF. unfold secondary_names. apply for_each_ok.
  intros c Hc. rewrite Forall_forall in HF. specialize (HF c Hc).
  apply in_map_iff in HF. destruct HF as [o [<- Ho]].
  replace (map (Py.join " ") (combs 1 (objd_list_of o)))
    with (objd_list_of o) by now destruct o.
  destruct (map_exn_ok (secondary_name (build_index objs) rel_object_ids)
              (objd_list_of o) (fun _ d => secondary_form objs d))
    as [ds [Hds HF2]].
  - intros attr Hattr. apply secondary_name_ok. now exists o.
  - exists ds. split; [exact Hds|].
    apply (Forall2_Forall_r _ _ _ _ HF2). auto.
Qed.

Lemma row_exists n rel i :
  row_ok n rel i = true -> exists ids, nth_exn rel i = inr ids.
Proof.
  intros H. apply row_ok_true in H. destruct H as [ids [H _]].
  exists ids. now apply nth_exn_inr.
Qed.

Lemma describe_ok objs rels i s :
  rows_at (length objs) rels i = true ->
  Forall (fun c => In c (map objd_list_of objs)) (left_child s) ->
  Forall (fun c => In c (map objd_list_of objs)) (right_child s) ->
  Forall (fun c => In c (map objd_list_of objs)) (front_child s) ->
  Forall (fun c => In c (map objd_list_of objs)) (behind_child s) ->
  exists d, describe (build_index objs) rels (i, s) = inr d /\
            described_ok objs (i, s) d.
Proof.
  intros Hrows Fl Fr Ff Fb.
  apply rows_at_rows in Hrows. destruct Hrows as [Rl [Rr [Rf Rb]]].
  unfold describe. cbn [fst snd].
  destruct (row_exists _ _ _ Rl) as [il ->].
  destruct (row_exists _ _ _ Rr) as [ir ->].
  destruct (row_exists _ _ _ Rf) as [if_ ->].
  destruct (row_exists _ _ _ Rb) as [ib ->].
  cbn [bind].
  destruct (secondary_names_ok objs il _ Fl) as [dl [-> Sl]].
  destruct (secondary_names_ok objs ir _ Fr) as [dr [-> Sr]].
  destruct (secondary_names_ok objs if_ _ Ff) as [df [-> Sf]].
  destruct (secondary_names_ok objs ib _ Fb) as [db [-> Sb]].
  cbn [bind]. eexists. split; [reflexivity|].
  unfold described_ok. cbn. auto.
Qed.

Lemma described_spec objs rels structs :
  rows_ok (length objs) rels = true ->
  Forall2 (struct_ok (build_index objs) (map objd_list_of objs))
    (Py.enumerate (map objd_of objs)) structs ->
  exists described,
    map_exn (describe (build_index objs) rels) (Py.enumerate structs)
    = inr described /\
    Forall2 (described_ok objs) (Py.enumerate structs) described.
Proof.
  intros Hrows HF. apply map_exn_ok. intros [i s] Hin.
  pose proof (in_enumerate_lt _ _ _ Hin) as Hi.
  rewrite <- (Forall2_length HF) in Hi.
  unfold Py.enumerate in Hi. rewrite length_combine, length_seq in Hi.
  rewrite Nat.min_id, length_map in Hi.
  apply in_enumerate in Hin. apply nth_error_In in Hin.
  destruct (Forall2_In_r _ _ _ _ HF Hin) as [a [_ [_ [Fl [Fr [Ff Fb]]]]]].
  apply describe_ok; auto.
  now apply (proj1 (rows_ok_true _ _) Hrows).
Qed.

(** ** The fourth pass never runs out of a list *)

Lemma rows_row n rels i :
  rows_ok n rels = true -> i < n ->
  (exists r, nth_exn (rel_left rels) i = inr r) /\
  (exists r, nth_exn (rel_right rels) i = inr r) /\
  (exists r, nth_exn (rel_front rels) i = inr r) /\
  (exists r, nth_exn (rel_behind rels) i = inr r).
Proof.
  intros H Hi. apply (proj1 (rows_ok_true _ _)) with (i := i) in H; [|exact Hi].
  apply rows_at_rows in H. destruct H as [Rl [Rr [Rf Rb]]].
  repeat split; eapply row_exists; eassumption.
Qed.

Lemma rows_have n rels :
  rows_ok n rels = true ->
  has_rows n (rel_left rels) /\ has_rows n (rel_right rels) /\
  has_rows n (rel_front rels) /\ has_rows n (rel_behind rels).
Proof.
  intros H. repeat split; intros i Hi;
    destruct (rows_row n rels i H Hi) as [A [B [C D]]]; assumption.
Qed.

Lemma dget_exn_cases {V} (k : string) (d : dict V) :
  (exists v, dget k d = Some v /\ dget_exn k d = inr v) \/
  dget_exn k d = inl (KeyError k).
Proof.
  unfold dget_exn. destruct (dget k d) as [v|].
  - left. now exists v.
  - now right.
Qed.

Lemma count_all_ok objs inv_rel primary descrip ids :
  has_rows (length objs) inv_rel ->
  dget (Py.last_piece (Py.split "all " descrip))
    (image_2ids (build_index objs)) = Some ids ->
  exists st, count_all (build_index objs) inv_rel primary descrip = inr st.
Proof.
  intros Hrows Hids. unfold count_all, dget_exn. rewrite Hids. cbn [ret bind].
  pose proof (stored_ids_bound objs _ _ Hids) as Hb. clear Hids.
  generalize (false, @nil nat). induction ids as [|s ids IH]; intros st.
  - now exists st.
  - cbn [fold_exn].
    destruct (Hrows s) as [r ->]; [apply Hb; now left|]. cbn [bind].
    destruct (0 <? _); cbn [ret bind]; apply IH; intros j Hj; apply Hb; now right.
Qed.

Lemma count_some_ok objs same_rel primary descrip ids :
  has_rows (length objs) same_rel ->
  (forall p, In p primary -> p < length objs) ->
  dget (Py.last_piece (Py.split "some " descrip))
    (image_2ids (build_index objs)) = Some ids ->
  exists st, count_some (build_index objs) same_rel primary descrip = inr st.
Proof.
  intros Hrows Hb Hids. unfold count_some, dget_exn. rewrite Hids.
  cbn [ret bind]. clear Hids.
  generalize (false, @nil nat). induction primary as [|p primary IH]; intros st.
  - now exists st.
  - cbn [fold_exn].
    destruct (Hrows p) as [r ->]; [apply Hb; now left|]. cbn [bind].
    destruct (Py.set_intern _ _); cbn [ret bind];
      apply IH; intros j Hj; apply Hb; now right.
Qed.

Lemma count_related_cases objs inv_rel same_rel primary descrip :
  has_rows (length objs) inv_rel -> has_rows (length objs) same_rel ->
  (forall p, In p primary -> p < length objs) ->
  (exists st, count_related (build_index objs) inv_rel same_rel primary descrip
              = inr st) \/
  (exists e, count_related (build_index objs) inv_rel same_rel primary descrip
             = inl e /\ key_error e).
Proof.
  intros Hi Hs Hb. unfold count_related.
  destruct (Py.mem "all" _).
  - destruct (dget (Py.last_piece (Py.split "all " descrip))
                (image_2ids (build_index objs))) as [ids|] eqn:E.
    + left. eapply count_all_ok; eassumption.
    + right. unfold count_all, dget_exn. rewrite E. cbn.
      eexists. split; [reflexivity|]. eexists. reflexivity.
  - destruct (Py.contains "some" descrip); [|left; eexists; reflexivity].
    destruct (dget (Py.last_piece (Py.split "some " descrip))
                (image_2ids (build_index objs))) as [ids|] eqn:E.
    + left. eapply count_some_ok; eassumption.
    + right. unfold count_some, dget_exn. rewrite E. cbn.
      eexists. split; [reflexivity|]. eexists. reflexivity.
Qed.

Lemma relate_cases objs inv_rel same_rel phrase name_ primary descrip :
  has_rows (length objs) inv_rel -> has_rows (length objs) same_rel ->
  (forall p, In p primary -> p < length objs) ->
  (exists u, relate (build_index objs) inv_rel same_rel phrase name_ primary
               descrip = inr u) \/
  (exists e, relate (build_index objs) inv_rel same_rel phrase name_ primary
               descrip = inl e /\ key_error e).
Proof.
  intros Hi Hs Hb. unfold relate.
  destruct (count_related_cases objs inv_rel same_rel primary descrip Hi Hs Hb)
    as [[st ->]|[e [-> He]]]; cbn [bind ret].
  - left. eexists. reflexivity.
  - right. now exists e.
Qed.

Ltac chain H :=
  match goal with
  | |- context [bind ?c _] =>
      let x := fresh "x" in let e := fresh "e" in
      let Hx := fresh "Hx" in let He := fresh "He" in
      destruct H as [[x Hx]|[e [Hx He]]]; rewrite Hx; cbn [bind];
      [|right; exists e; now split]
  end.

Lemma utterances_of_name_cases objs rels d name :
  rows_ok (length objs) rels = true ->
  (exists us, utterances_of_name (build_index objs) rels d name = inr us) \/
  (exists e, utterances_of_name (build_index objs) rels d name = inl e /\
             key_error e).
Proof.
  intros Hrows. destruct (rows_have _ _ Hrows) as [Hl [Hr [Hf Hb]]].
  unfold utterances_of_name.
  destruct (Py.contains "some" name).
  - unfold utterances_some.
    destruct (String.eqb _ "objects"); [left; eexists; reflexivity|].
    destruct (dget_exn_cases (Py.replace "some " "" name)
                (image_2ids (build_index objs))) as [[ids [Hids ->]]| ->];
      cbn [bind].
    + assert (Hbound : forall p, In p (Py.to_setn ids) -> p < length objs).
      { intros p Hp. apply (proj1 (to_setn_In _ _)) in Hp.
        now apply (stored_ids_bound objs _ _ Hids). }
      set (name_ := Py.replace "some " "" name).
      pose proof (map_exn_cases
        (relate (build_index objs) (rel_right rels) (rel_left rels)
           " on the right of " name_ (Py.to_setn ids)) (d_left d) key_error
        (fun a _ => relate_cases objs _ _ _ _ _ a Hr Hl Hbound)) as H1.
      pose proof (map_exn_cases
        (relate (build_index objs) (rel_left rels) (rel_right rels)
           " on the left of " name_ (Py.to_setn ids)) (d_right d) key_error
        (fun a _ => relate_cases objs _ _ _ _ _ a Hl Hr Hbound)) as H2.
      pose proof (map_exn_cases
        (relate (build_index objs) (rel_behind rels) (rel_front rels)
           " behind " name_ (Py.to_setn ids)) (d_front d) key_error
        (fun a _ => relate_cases objs _ _ _ _ _ a Hb Hf Hbound)) as H3.
      pose proof (map_exn_cases
        (relate (build_index objs) (rel_front rels) (rel_behind rels)
           " in front of " name_ (Py.to_setn ids)) (d_behind d) key_error
        (fun a _ => relate_cases objs _ _ _ _ _ a Hf Hb Hbound)) as H4.
      chain H1. chain H2. chain H3. chain H4.
      left. eexists. reflexivity.
    + right. eexists. split; [reflexivity|]. eexists. reflexivity.
  - unfold utterances_all.
    destruct (String.eqb _ "objects"); [left; eexists; reflexivity|].
    destruct (dget_exn_cases (Py.replace "all " "" name)
                (image_2ids (build_index objs))) as [[ids [Hids ->]]| ->];
      cbn [bind].
    + left. eexists. reflexivity.
    + right. eexists. split; [reflexivity|]. eexists. reflexivity.
Qed.

Lemma key_error_not_index e : key_error e -> e <> IndexError.
Proof. intros [k ->]. discriminate. Qed.

Lemma rows_bad_index_error (objs : list SceneObject) (rels : Relationships) :
  rows_ok (length objs) rels = false ->
  parse_scene {| objects := objs; relationships := rels |} = inl IndexError.
Proof.
  intros Hrows. unfold parse_scene. cbn [objects relationships]. cbv zeta.
  pose proof (structs_spec (build_index objs) (map objd_list_of objs)
                (map objd_of objs) rels) as H2.
  rewrite !length_map in H2. specialize (H2 eq_refl). rewrite Hrows in H2.
  rewrite H2. reflexivity.
Qed.

Lemma rows_ok_no_index_error (objs : list SceneObject) (rels : Relationships) :
  rows_ok (length objs) rels = true ->
  parse_scene {| objects := objs; relationships := rels |} <> inl IndexError.
Proof.
  intros Hrows Hbad. unfold parse_scene in Hbad.
  cbn [objects relationships] in Hbad. cbv zeta in Hbad.
  pose proof (structs_spec (build_index objs) (map objd_list_of objs)
                (map objd_of objs) rels) as H2.
  rewrite !length_map in H2. specialize (H2 eq_refl). rewrite Hrows in H2.
  destruct H2 as [structs [Hs HF]]. rewrite Hs in Hbad. cbn [bind] in Hbad.
  destruct (described_spec objs rels structs Hrows HF) as [ds [Hd _]].
  rewrite Hd in Hbad. cbn [bind] in Hbad.
  destruct (for_each_cases (utterances_of_object (build_index objs) rels) ds
              key_error) as [[us Hus]|[e [He Hk]]].
  - intros d _. unfold utterances_of_object.
    apply for_each_cases. intros name _.
    now apply utterances_of_name_cases.
  - rewrite Hus in Hbad. discriminate Hbad.
  - rewrite He in Hbad. cbn [bind] in Hbad.
    apply key_error_not_index in Hk. congruence.
Qed.

(** X1: [parse_scene] raises [IndexError] exactly when some object lacks a row
    in one of the four relationship lists, or a row names an object that
    does not exist. *)
Theorem index_error_iff_rows (scene_dict : Scene) :
  parse_scene scene_dict = inl IndexError <->
  rows_ok (length (objects scene_dict)) (relationships scene_dict) = false.
Proof.
  destruct scene_dict as [objs rels]. cbn [objects relationships].
  destruct (rows_ok (length objs) rels) eqn:Hrows.
  - split; [|discriminate]. intros Hbad.
    now apply rows_ok_no_index_error in Hbad.
  - split; [reflexivity|]. intros _. now apply rows_bad_index_error.
Qed.

(** ** Plain attribute values *)

Lemma plain_space_free o : plain_object o -> space_free o.
Proof. intros H a Ha. now destruct (H a Ha). Qed.

Lemma plain_attribute objs y :
  (forall o, In o objs -> plain_object o) -> attribute_of objs y ->
  plain_value y.
Proof. intros H [o [Ho Hy]]. now apply (H o). Qed.

Lemma exactly_key_absent objs y :
  (forall o, In o objs -> plain_object o) ->
  dget ("Exactly one " ++ y)%string (image_2ids (build_index objs)) = None.
Proof.
  intros Hplain.
  destruct (dget _ (image_2ids (build_index objs))) as [v|] eqn:E;
    [exfalso|reflexivity].
  rewrite build_index_2ids in E. apply dfold_origin in E.
  destruct E as [E|E]; [|discriminate E].
  apply in_writes in E. destruct E as [o [w [Ho [Hw [Hk _]]]]].
  specialize (Hplain o Ho).
  assert (Hs : plain_value (size o)) by (apply Hplain; cbn; auto).
  assert (Hc : plain_value (color o)) by (apply Hplain; cbn; auto).
  assert (Hm : plain_value (material o)) by (apply Hplain; cbn; auto).
  assert (Hh : plain_value (shape o)) by (apply Hplain; cbn; auto).
  destruct Hs as [Hs [_ [_ Hs']]], Hc as [Hc [_ [_ Hc']]],
           Hm as [Hm [_ [_ Hm']]], Hh as [Hh [_ [_ Hh']]].
  change ("Exactly one " ++ y)%string
    with ("Exactly" ++ " " ++ ("one " ++ y))%string in Hk.
  pose proof (space_in_app "Exactly" ("one " ++ y)) as Hsp.
  apply windows_cases in Hw.
  destruct Hw as [->|[->|[->|[->|[->|[->|[->|[->|[->| ->]]]]]]]]];
    unfold Py.join in Hk; cbn [String.concat] in Hk;
    try (rewrite Hk in Hsp; congruence);
    try (apply app_space_inj in Hk; [|reflexivity|assumption];
         destruct Hk as [Hk _]; congruence).
Qed.

(** ** The utterances of one primary name *)

Lemma count_related_ok objs inv_rel same_rel primary descrip :
  (forall o, In o objs -> plain_object o) ->
  has_rows (length objs) inv_rel -> has_rows (length objs) same_rel ->
  (forall p, In p primary -> p < length objs) ->
  secondary_form objs descrip ->
  exists st, count_related (build_index objs) inv_rel same_rel primary descrip
             = inr st.
Proof.
  intros Hplain Hi Hs Hb [y [Hy Hform]].
  destruct (attribute_key_present objs y Hy) as [ids Hids].
  destruct (plain_attribute objs y Hplain Hy) as [Hsp [Hsome [Hall _]]].
  unfold count_related.
  destruct Hform as [->|[->| ->]].
  - rewrite (split_space_some y Hsp).
    assert (E : Py.mem "all" ["some"; y] = false).
    { unfold Py.mem. cbn [existsb].
      destruct (String.eqb_spec "all" y); [congruence|reflexivity]. }
    rewrite E, some_in_some.
    apply (count_some_ok objs same_rel primary _ ids Hs Hb).
    now rewrite (last_split_some y Hsome).
  - rewrite (split_space_all y Hsp).
    change (Py.mem "all" ["all"; y]) with true. cbv iota.
    apply (count_all_ok objs inv_rel primary _ ids Hi).
    now rewrite (last_split_all y Hsp).
  - rewrite (split_space_exactly y Hsp).
    change (Py.mem "all" ["Exactly"; "one"; "all"; y]) with true. cbv iota.
    apply (count_all_ok objs inv_rel primary _ ids Hi).
    now rewrite (last_split_exactly y Hsp).
Qed.

Lemma relate_all_ok objs inv_rel same_rel phrase name_ primary descrips :
  (forall o, In o objs -> plain_object o) ->
  has_rows (length objs) inv_rel -> has_rows (length objs) same_rel ->
  (forall p, In p primary -> p < length objs) ->
  Forall (secondary_form objs) descrips ->
  exists us, map_exn (relate (build_index objs) inv_rel same_rel phrase name_
                        primary) descrips = inr us.
Proof.
  intros Hplain Hi Hs Hb HF.
  destruct (map_exn_ok (relate (build_index objs) inv_rel same_rel phrase
                          name_ primary) descrips (fun _ _ => True))
    as [us [Hus _]]; [|now exists us].
  intros descrip Hd. rewrite Forall_forall in HF.
  destruct (count_related_ok objs inv_rel same_rel primary descrip
              Hplain Hi Hs Hb (HF descrip Hd)) as [st Hst].
  unfold relate. rewrite Hst. cbn [bind]. eexists. split; [reflexivity|exact I].
Qed.

Lemma some_objects_ok ix rels d :
  utterances_of_name ix rels d "some objects" = inr [].
Proof. reflexivity. Qed.

Lemma some_name_ok objs rels d i_os y :
  (forall o, In o objs -> plain_object o) ->
  rows_ok (length objs) rels = true ->
  described_ok objs i_os d -> attribute_of objs y ->
  exists us, utterances_of_name (build_index objs) rels d ("some " ++ y)%string
             = inr us.
Proof.
  intros Hplain Hrows [_ [Fl [Fr [Ff Fb]]]] Hy.
  destruct (rows_have _ _ Hrows) as [Hl [Hr [Hf Hb]]].
  destruct (attribute_key_present objs y Hy) as [ids Hids].
  destruct (plain_attribute objs y Hplain Hy) as [_ [Hsome _]].
  unfold utterances_of_name. rewrite some_in_some.
  unfold utterances_some. rewrite (replace_some_name y Hsome).
  destruct (String.eqb y "objects"); [eexists; reflexivity|].
  unfold dget_exn. rewrite Hids. cbn [ret bind].
  assert (Hbound : forall p, In p (Py.to_setn ids) -> p < length objs).
  { intros p Hp. apply (proj1 (to_setn_In _ _)) in Hp.
    now apply (stored_ids_bound objs _ _ Hids). }
  destruct (relate_all_ok objs (rel_right rels) (rel_left rels)
              " on the right of " y _ _ Hplain Hr Hl Hbound Fl) as [ul ->].
  destruct (relate_all_ok objs (rel_left rels) (rel_right rels)
              " on the left of " y _ _ Hplain Hl Hr Hbound Fr) as [ur ->].
  destruct (relate_all_ok objs (rel_behind rels) (rel_front rels)
              " behind " y _ _ Hplain Hb Hf Hbound Ff) as [uf ->].
  destruct (relate_all_ok objs (rel_front rels) (rel_behind rels)
              " in front of " y _ _ Hplain Hf Hb Hbound Fb) as [ub ->].
  cbn [bind]. eexists. reflexivity.
Qed.

Lemma all_name_ok objs rels d y :
  (forall o, In o objs -> plain_object o) -> attribute_of objs y ->
  exists us, utterances_of_name (build_index objs) rels d ("all " ++ y)%string
             = inr us.
Proof.
  intros Hplain Hy.
  destruct (attribute_key_present objs y Hy) as [ids Hids].
  destruct (plain_attribute objs y Hplain Hy) as [Hsp [Hsome _]].
  unfold utterances_of_name. rewrite (no_some_in_all y Hsome).
  unfold utterances_all. rewrite (replace_all_name y Hsp).
  destruct (String.eqb y "objects"); [eexists; reflexivity|].
  unfold dget_exn. rewrite Hids. cbn [ret bind]. eexists. reflexivity.
Qed.

Lemma exactly_name_raises objs rels d y :
  (forall o, In o objs -> plain_object o) -> attribute_of objs y ->
  utterances_of_name (build_index objs) rels d ("Exactly one all " ++ y)%string
  = inl (KeyError ("Exactly one " ++ y)%string).
Proof.
  intros Hplain Hy.
  destruct (plain_attribute objs y Hplain Hy) as [Hsp [Hsome _]].
  unfold utterances_of_name. rewrite (no_some_in_exactly y Hsome).
  unfold utterances_all. rewrite (replace_exactly_name y Hsp).
  change (String.eqb ("Exactly one " ++ y) "objects") with false. cbv iota.
  unfold dget_exn. now rewrite (exactly_key_absent objs y Hplain).
Qed.

(** ** The primary names of an object *)

Lemma primary_name_lone objs o attr :
  (forall o', In o' objs -> plain_object o') ->
  In o objs -> In attr (objd_list_of o) ->
  (primary_name (build_index objs) attr = ("Exactly one all " ++ attr)%string
   <-> lone_attribute objs attr) /\
  (primary_name (build_index objs) attr = ("Exactly one all " ++ attr)%string \/
   primary_name (build_index objs) attr = ("all " ++ attr)%string \/
   primary_name (build_index objs) attr = ("some " ++ attr)%string).
Proof.
  intros Hplain Ho Ha.
  assert (Hsf : forall o', In o' objs -> space_free o')
    by (intros o' Ho'; apply plain_space_free; now apply Hplain).
  destruct (primary_label_cases objs o attr Hsf Ho Ha)
    as [ext [Hext [_ [_ [Hex _]]]]].
  pose proof (stored_2ids objs o [attr] Hsf Ho (singleton_window o attr Ha))
    as Hst.
  change (Py.join " " [attr]) with attr in Hst.
  rewrite Hst in Hext. injection Hext as <-.
  split.
  - rewrite Hex. unfold lone_attribute. split.
    + intros [H1 H2]. split; [now exists o|]. split; [exact H1|].
      intros E. apply H2. rewrite E. exact H1.
    + intros [_ [H1 H2]]. split; [exact H1|].
      intros E. apply H2. rewrite <- E. exact H1.
  - unfold primary_name.
    destruct (dget attr (image_some2ids (build_index objs))) as [ids|];
      [destruct (length ids =? 1)|]; auto.
Qed.

(** what the utterance loop does for one object *)
Lemma utterances_of_object_spec objs rels d i_os o :
  (forall o', In o' objs -> plain_object o') ->
  rows_ok (length objs) rels = true ->
  described_ok objs i_os d -> In o objs ->
  left_names (struct_of d) = primary_names (build_index objs) (objd_list_of o) ->
  ((forall attr, In attr (objd_list_of o) -> ~ lone_attribute objs attr) ->
   exists us, utterances_of_object (build_index objs) rels d = inr us) /\
  ((exists attr, In attr (objd_list_of o) /\ lone_attribute objs attr) ->
   exists attr, lone_attribute objs attr /\
     utterances_of_object (build_index objs) rels d
     = inl (KeyError ("Exactly one " ++ attr)%string)).
Proof.
  intros Hplain Hrows Hd Ho Hnames.
  unfold utterances_of_object. rewrite Hnames, primary_names_objd.
  cbn [for_each]. rewrite some_objects_ok. cbn [bind].
  assert (Hcases : forall attr, In attr (objd_list_of o) ->
            (exists us, utterances_of_name (build_index objs) rels d
                          (primary_name (build_index objs) attr) = inr us) \/
            (exists e, utterances_of_name (build_index objs) rels d
                          (primary_name (build_index objs) attr) = inl e /\
                       exists a, lone_attribute objs a /\
                                 e = KeyError ("Exactly one " ++ a)%string)).
  { intros attr Ha.
    destruct (primary_name_lone objs o attr Hplain Ho Ha) as [Hl [E|[E|E]]].
    - right. rewrite E. eexists. split.
      + apply exactly_name_raises; [exact Hplain|now exists o].
      + exists attr. split; [now apply Hl|reflexivity].
    - left. rewrite E. apply all_name_ok; [exact Hplain|now exists o].
    - left. rewrite E. eapply some_name_ok; eauto. now exists o. }
  split.
  - intros Hno.
    destruct (for_each_ok (utterances_of_name (build_index objs) rels d)
                (map (primary_name (build_index objs)) (objd_list_of o))
                (fun _ => True)) as [us [Hus _]].
    + intros name Hname. apply in_map_iff in Hname.
      destruct Hname as [attr [<- Ha]].
      destruct (Hcases attr Ha) as [[us Hus]|[e [He [a [Hl _]]]]].
      * exists us. split; [exact Hus|]. apply Forall_forall. auto.
      * exfalso.
        destruct (primary_name_lone objs o attr Hplain Ho Ha) as [Hiff Hf].
        destruct Hf as [E|[E|E]].
        -- apply (Hno attr Ha). now apply Hiff.
        -- rewrite E in He.
           destruct (all_name_ok objs rels d attr Hplain) as [us Hus];
             [now exists o|congruence].
        -- rewrite E in He.
           destruct (some_name_ok objs rels d i_os attr Hplain Hrows Hd)
             as [us Hus]; [now exists o|congruence].
    + rewrite Hus. eexists. reflexivity.
  - intros [attr [Ha Hlone]].
    destruct (for_each_inl (utterances_of_name (build_index objs) rels d)
                (map (primary_name (build_index objs)) (objd_list_of o))
                (fun e => exists a, lone_attribute objs a /\
                                    e = KeyError ("Exactly one " ++ a)%string))
      as [e [He [a [Hl ->]]]].
    + intros name Hname. apply in_map_iff in Hname.
      destruct Hname as [attr' [<- Ha']]. now apply Hcases.
    + exists (primary_name (build_index objs) attr).
      split; [now apply in_map|].
      destruct (primary_name_lone objs o attr Hplain Ho Ha) as [Hiff _].
      rewrite (proj2 Hiff Hlone). eexists.
      apply exactly_name_raises; [exact Hplain|now exists o].
    + exists a. split; [exact Hl|]. rewrite He. reflexivity.
Qed.

Lemma none_or_some {A} (P : A -> Prop) (l : list A) :
  (forall a, In a l -> P a \/ ~ P a) ->
  (forall a, In a l -> ~ P a) \/ (exists a, In a l /\ P a).
Proof.
  induction l as [|x l IH]; intros Hdec.
  - left. intros a [].
  - destruct (Hdec x (or_introl eq_refl)) as [Hx|Hx].
    + right. exists x. split; [now left|exact Hx].
    + destruct IH as [Hall|[a [Ha HP]]].
      * intros a Ha. apply Hdec. now right.
      * left. intros a [<-|Ha]; auto.
      * right. exists a. split; [now right|exact HP].
Qed.

Lemma lone_or_not objs o attr :
  In o objs -> In attr (objd_list_of o) ->
  lone_attribute objs attr \/ ~ lone_attribute objs attr.
Proof.
  intros Ho Ha. unfold lone_attribute.
  destruct (Nat.eq_dec (length (extension_of objs [attr])) 1) as [E1|E1];
    [|right; tauto].
  destruct (Nat.eq_dec (length objs) 1) as [E2|E2]; [right; tauto|].
  left. split; [now exists o|]. now split.
Qed.

(** every described object belongs to an object of the scene *)
Lemma described_owner objs structs ds d :
  Forall2 (struct_ok (build_index objs) (map objd_list_of objs))
    (Py.enumerate (map objd_of objs)) structs ->
  Forall2 (described_ok objs) (Py.enumerate structs) ds ->
  In d ds ->
  exists i_os o, described_ok objs i_os d /\ In o objs /\
    left_names (struct_of d)
    = primary_names (build_index objs) (objd_list_of o).
Proof.
  intros H2 H3 Hd.
  destruct (Forall2_In_r _ _ _ _ H3 Hd) as [[j s] [Hjs Hok]].
  exists (j, s).
  apply in_enumerate in Hjs. apply nth_error_In in Hjs.
  destruct (Forall2_In_r _ _ _ _ H2 Hjs) as [[i objd] [Hi [Hnames _]]].
  apply in_enumerate_lt in Hi. rewrite length_map in Hi.
  destruct (nth_error objs i) as [o|] eqn:Eo;
    [|apply nth_error_None in Eo; lia].
  exists o. split; [exact Hok|]. split; [eapply nth_error_In; eassumption|].
  destruct Hok as [-> _]. cbn [snd fst] in *. rewrite Hnames.
  f_equal. apply nth_error_nth. now apply map_nth_error.
Qed.

(** every object of the scene has its described object *)
Lemma owner_described objs structs ds o :
  Forall2 (struct_ok (build_index objs) (map objd_list_of objs))
    (Py.enumerate (map objd_of objs)) structs ->
  Forall2 (described_ok objs) (Py.enumerate structs) ds ->
  In o objs ->
  exists i_os d, In d ds /\ described_ok objs i_os d /\
    left_names (struct_of d)
    = primary_names (build_index objs) (objd_list_of o).
Proof.
  intros H2 H3 Ho.
  apply In_nth_error in Ho. destruct Ho as [i Hi].
  assert (Hin : In (i, objd_of o) (Py.enumerate (map objd_of objs))).
  { apply in_enumerate. now apply map_nth_error. }
  destruct (Forall2_In_l _ _ _ _ H2 Hin) as [s [Hs [Hnames _]]].
  apply In_nth_error in Hs. destruct Hs as [j Hj].
  apply in_enumerate in Hj.
  destruct (Forall2_In_l _ _ _ _ H3 Hj) as [d [Hd Hok]].
  exists (j, s), d. split; [exact Hd|]. split; [exact Hok|].
  destruct Hok as [-> _]. cbn [snd fst] in *. rewrite Hnames.
  f_equal. apply nth_error_nth. now apply map_nth_error.
Qed.

(** X2: on a scene with well-formed relationship lists and plain attribute
    values in which no attribute value is held by one of several objects
    only, [parse_scene] returns. *)
Theorem parse_scene_returns (scene_dict : Scene) :
  (forall o, In o (objects scene_dict) -> plain_object o) ->
  rows_ok (length (objects scene_dict)) (relationships scene_dict) = true ->
  (forall attr, ~ lone_attribute (objects scene_dict) attr) ->
  exists out, parse_scene scene_dict = inr out.
Proof.
  destruct scene_dict as [objs rels]. cbn [objects relationships].
  intros Hplain Hrows Hno.
  unfold parse_scene. cbn [objects relationships]. cbv zeta.
  pose proof (structs_spec (build_index objs) (map objd_list_of objs)
                (map objd_of objs) rels) as H2.
  rewrite !length_map in H2. specialize (H2 eq_refl). rewrite Hrows in H2.
  destruct H2 as [structs [-> H2]]. cbn [bind].
  destruct (described_spec objs rels structs Hrows H2) as [ds [-> H3]].
  cbn [bind].
  destruct (for_each_ok (utterances_of_object (build_index objs) rels) ds
              (fun _ => True)) as [us [-> _]].
  - intros d Hd.
    destruct (described_owner objs structs ds d H2 H3 Hd)
      as [i_os [o [Hok [Ho Hnames]]]].
    destruct (utterances_of_object_spec objs rels d i_os o Hplain Hrows Hok Ho
                Hnames) as [Hyes _].
    destruct Hyes as [us Hus]; [intros attr _; apply Hno|].
    exists us. split; [exact Hus|]. apply Forall_forall. auto.
  - cbn [bind]. eexists. reflexivity.
Qed.

(** X3: on a scene with well-formed relationship lists and plain attribute
    values in which some attribute value is held by one of several objects
    only, [parse_scene] raises [KeyError] with the key "Exactly one "
    followed by such a value. *)
Theorem parse_scene_key_error (scene_dict : Scene) :
  (forall o, In o (objects scene_dict) -> plain_object o) ->
  rows_ok (length (objects scene_dict)) (relationships scene_dict) = true ->
  (exists attr, lone_attribute (objects scene_dict) attr) ->
  exists attr, lone_attribute (objects scene_dict) attr /\
    parse_scene scene_dict = inl (KeyError ("Exactly one " ++ attr)%string).
Proof.
  destruct scene_dict as [objs rels]. cbn [objects relationships].
  intros Hplain Hrows [attr Hlone].
  unfold parse_scene. cbn [objects relationships]. cbv zeta.
  pose proof (structs_spec (build_index objs) (map objd_list_of objs)
                (map objd_of objs) rels) as H2.
  rewrite !length_map in H2. specialize (H2 eq_refl). rewrite Hrows in H2.
  destruct H2 as [structs [-> H2]]. cbn [bind].
  destruct (described_spec objs rels structs Hrows H2) as [ds [-> H3]].
  cbn [bind].
  destruct (for_each_inl (utterances_of_object (build_index objs) rels) ds
              (fun e => exists a, lone_attribute objs a /\
                                  e = KeyError ("Exactly one " ++ a)%string))
    as [e [He [a [Hl ->]]]].
  - intros d Hd.
    destruct (described_owner objs structs ds d H2 H3 Hd)
      as [i_os [o [Hok [Ho Hnames]]]].
    destruct (utterances_of_object_spec objs rels d i_os o Hplain Hrows Hok Ho
                Hnames) as [Hyes Hbad].
    destruct (none_or_some (lone_attribute objs) (objd_list_of o))
      as [Hnone|Hsome].
    + intros x Hx. now apply (lone_or_not objs o).
    + left. now apply Hyes.
    + right. destruct (Hbad Hsome) as [x [Hx E]]. eexists. split; [exact E|].
      now exists x.
  - destruct Hlone as [[o [Ho Ha]] Hrest].
    destruct (owner_described objs structs ds o H2 H3 Ho)
      as [i_os [d [Hd [Hok Hnames]]]].
    exists d. split; [exact Hd|].
    destruct (utterances_of_object_spec objs rels d i_os o Hplain Hrows Hok Ho
                Hnames) as [_ Hbad].
    destruct Hbad as [x [_ E]].
    + exists attr. split; [exact Ha|]. split; [now exists o|exact Hrest].
    + eexists. exact E.
  - exists a. split; [exact Hl|]. rewrite He. reflexivity.
Qed.

Lemma plain_obj sz c m sh :
  plain_value sz -> plain_value c -> plain_value m -> plain_value sh ->
  plain_object (Examples.obj sz c m sh).
Proof.
  intros H1 H2 H3 H4 a [<-|[<-|[<-|[<-|[]]]]]; assumption.
Qed.

Ltac plain_word :=
  repeat split; try reflexivity; intros E; discriminate E.

Lemma parse_scene_returns_witness :
  exists out, parse_scene Scenes.scene_pairs = inr out.
Proof.
  apply parse_scene_returns.
  - intros o [<-|[<-|[<-|[<-|[]]]]]; apply plain_obj; plain_word.
  - reflexivity.
  - intros attr [[o [Ho Ha]] [H1 _]]. revert H1.
    destruct Ho as [<-|[<-|[<-|[<-|[]]]]];
      destruct Ha as [<-|[<-|[<-|[<-|[]]]]]; vm_compute; intros E;
      discriminate E.
Defined.

Lemma parse_scene_key_error_witness :
  exists attr, lone_attribute (objects Examples.scene_two_colors) attr /\
    parse_scene Examples.scene_two_colors
    = inl (KeyError ("Exactly one " ++ attr)%string).
Proof.
  apply parse_scene_key_error.
  - intros o [<-|[<-|[]]]; apply plain_obj; plain_word.
  - reflexivity.
  - exists "red". split; [|split; [reflexivity|intros E; discriminate E]].
    eexists. split; [left; reflexivity|]. right. left. reflexivity.
Defined.

(** ** What the utterances look like *)

Lemma map_exn_in {A B} (f : A -> result B) (l : list A) bs b :
  map_exn f l = inr bs -> In b bs -> exists a, In a l /\ f a = inr b.
Proof.
  revert bs. induction l as [|x l IH]; intros bs H Hin; cbn [map_exn] in H.
  - injection H as <-. destruct Hin.
  - destruct (f x) as [e|y] eqn:Ex; [discriminate H|]. cbn [bind] in H.
    destruct (map_exn f l) as [e|ys] eqn:Ey; [discriminate H|].
    cbn [bind ret] in H. injection H as <-.
    destruct Hin as [<-|Hin].
    + exists x. split; [now left|exact Ex].
    + destruct (IH ys eq_refl Hin) as [a [Ha Hf]].
      exists a. split; [now right|exact Hf].
Qed.

Lemma for_each_in {A B} (f : A -> result (list B)) (l : list A) bs b :
  for_each f l = inr bs -> In b bs ->
  exists a xs, In a l /\ f a = inr xs /\ In b xs.
Proof.
  revert bs. induction l as [|x l IH]; intros bs H Hin; cbn [for_each] in H.
  - injection H as <-. destruct Hin.
  - destruct (f x) as [e|xs] eqn:Ex; [discriminate H|]. cbn [bind] in H.
    destruct (for_each f l) as [e|ys] eqn:Ey; [discriminate H|].
    cbn [bind ret] in H. injection H as <-.
    apply in_app_or in Hin. destruct Hin as [Hin|Hin].
    + exists x, xs. split; [now left|]. now split.
    + destruct (IH ys eq_refl Hin) as [a [zs [Ha [Hf Hb]]]].
      exists a, zs. split; [now right|]. now split.
Qed.

Section Stripping.

Local Open Scope string_scope.

Ltac open_word := cbn; rewrite ?prefix_empty; cbn.

Lemma strip_some (y : string) :
  plain_value y -> strip_quantifier ("some " ++ y) = y.
Proof.
  intros [Hsp [Hsome _]]. unfold strip_quantifier.
  rewrite (replace_some_name y Hsome). unfold Py.replace.
  rewrite (replace_absent "Exactly one all " "" y)
    by now apply (absent_longer " ").
  apply replace_absent. now apply (absent_longer " ").
Qed.

Lemma strip_all (y : string) :
  plain_value y -> strip_quantifier ("all " ++ y) = y.
Proof.
  intros [Hsp [Hsome _]]. unfold strip_quantifier.
  assert (H1 : Py.replace "some " "" ("all " ++ y) = "all " ++ y).
  { apply replace_absent. apply (absent_longer "some"); [reflexivity|].
    now apply no_some_in_all. }
  rewrite H1.
  assert (H2 : Py.replace "Exactly one all " "" ("all " ++ y) = "all " ++ y).
  { apply replace_absent. apply (absent_longer "e a"); [reflexivity|].
    open_word. apply (absent_longer " "); [reflexivity|exact Hsp]. }
  rewrite H2. now apply replace_all_name.
Qed.

Lemma strip_exactly (y : string) :
  plain_value y -> strip_quantifier ("Exactly one all " ++ y) = y.
Proof.
  intros [Hsp [Hsome _]]. unfold strip_quantifier.
  assert (H1 : Py.replace "some " "" ("Exactly one all " ++ y)
               = "Exactly one all " ++ y).
  { apply replace_absent. apply (absent_longer "some"); [reflexivity|].
    now apply no_some_in_exactly. }
  rewrite H1.
  assert (H2 : Py.replace "Exactly one all " "" ("Exactly one all " ++ y) = y).
  { unfold Py.replace. open_word. apply replace_absent.
    now apply (absent_longer " "). }
  rewrite H2. apply replace_absent. now apply (absent_longer " ").
Qed.

End Stripping.

Lemma strip_secondary objs descrip :
  (forall o, In o objs -> plain_object o) ->
  secondary_form objs descrip ->
  attribute_of objs (strip_quantifier descrip).
Proof.
  intros Hplain [y [Hy Hform]].
  pose proof (plain_attribute objs y Hplain Hy) as Hp.
  destruct Hform as [->|[->| ->]];
    [rewrite strip_some|rewrite strip_all|rewrite strip_exactly]; auto.
Qed.

Lemma trivial_free_shape objs phrase x descrips u :
  (forall o, In o objs -> plain_object o) ->
  Forall (secondary_form objs) descrips ->
  In u (trivial_free phrase x descrips) ->
  exists y, attribute_of objs y /\ y <> x /\
            u = ("some " ++ x ++ phrase ++ y)%string.
Proof.
  intros Hplain HF Hin. unfold trivial_free in Hin.
  apply in_flat_map in Hin. destruct Hin as [descrip_ [Hd Hu]].
  rewrite Forall_forall in HF.
  destruct (String.eqb_spec (strip_quantifier descrip_) x) as [E|Hne];
    [destruct Hu|].
  destruct Hu as [<-|[]]. exists (strip_quantifier descrip_).
  split; [now apply strip_secondary; auto|]. now split.
Qed.

Lemma all_name_shape objs rels d i_os x us u :
  (forall o, In o objs -> plain_object o) ->
  described_ok objs i_os d -> attribute_of objs x ->
  utterances_of_name (build_index objs) rels d ("all " ++ x)%string = inr us ->
  In u us -> bare_shape objs u.
Proof.
  intros Hplain [_ [Fl [Fr [Ff Fb]]]] Hx Hus Hin.
  destruct (plain_attribute objs x Hplain Hx) as [Hsp [Hsome _]].
  unfold utterances_of_name in Hus. rewrite (no_some_in_all x Hsome) in Hus.
  unfold utterances_all in Hus. rewrite (replace_all_name x Hsp) in Hus.
  destruct (String.eqb x "objects"); [injection Hus as <-; destruct Hin|].
  destruct (dget_exn x _) as [e|ids]; [discriminate Hus|].
  cbn [bind ret] in Hus. injection Hus as <-.
  repeat (apply in_app_or in Hin; destruct Hin as [Hin|Hin]);
    (eapply trivial_free_shape in Hin; [|exact Hplain|eassumption]);
    destruct Hin as [y [Hy [Hne ->]]];
    exists x; eexists; exists y; (split; [exact Hx|]);
    (split; [|split; [exact Hy|split; [exact Hne|reflexivity]]]);
    cbn; auto.
Qed.

Lemma render_shape phrase x descrip st :
  exists q, In q ["some "; "all "; "Exactly one some "; "Exactly one all "] /\
            render phrase x descrip st = (q ++ x ++ phrase ++ descrip)%string.
Proof.
  unfold render. destruct (fst st); destruct (length _ =? 1).
  - exists "Exactly one some ". split; [cbn; auto|reflexivity].
  - exists "some ". split; [cbn; auto|reflexivity].
  - exists "Exactly one all ". split; [cbn; auto|reflexivity].
  - exists "all ". split; [cbn; auto|reflexivity].
Qed.

Lemma relate_shape objs inv_rel same_rel phrase x primary descrips us u :
  attribute_of objs x ->
  Forall (secondary_form objs) descrips ->
  In phrase [" on the right of "; " on the left of "; " behind ";
             " in front of "] ->
  map_exn (relate (build_index objs) inv_rel same_rel phrase x primary)
    descrips = inr us ->
  In u us -> relational_shape objs u.
Proof.
  intros Hx HF Hph Hus Hin.
  destruct (map_exn_in _ _ _ _ Hus Hin) as [descrip [Hd Hr]].
  rewrite Forall_forall in HF. unfold relate in Hr.
  destruct (count_related _ _ _ _ _) as [e|st]; [discriminate Hr|].
  cbn [bind ret] in Hr. injection Hr as <-.
  destruct (render_shape phrase x descrip st) as [q [Hq ->]].
  exists q, x, phrase, descrip. repeat split; auto.
Qed.

Lemma some_name_shape objs rels d i_os x us u :
  (forall o, In o objs -> plain_object o) ->
  described_ok objs i_os d -> attribute_of objs x ->
  utterances_of_name (build_index objs) rels d ("some " ++ x)%string = inr us ->
  In u us -> relational_shape objs u.
Proof.
  intros Hplain [_ [Fl [Fr [Ff Fb]]]] Hx Hus Hin.
  destruct (plain_attribute objs x Hplain Hx) as [_ [Hsome _]].
  unfold utterances_of_name in Hus. rewrite some_in_some in Hus.
  unfold utterances_some in Hus. rewrite (replace_some_name x Hsome) in Hus.
  destruct (String.eqb x "objects"); [injection Hus as <-; destruct Hin|].
  destruct (dget_exn x _) as [e|ids]; [discriminate Hus|].
  cbn [bind] in Hus.
  destruct (map_exn _ (d_left d)) as [e|ul] eqn:El; [discriminate Hus|].
  cbn [bind] in Hus.
  destruct (map_exn _ (d_right d)) as [e|ur] eqn:Er; [discriminate Hus|].
  cbn [bind] in Hus.
  destruct (map_exn _ (d_front d)) as [e|uf] eqn:Ef; [discriminate Hus|].
  cbn [bind] in Hus.
  destruct (map_exn _ (d_behind d)) as [e|ub] eqn:Eb; [discriminate Hus|].
  cbn [bind ret] in Hus. injection Hus as <-.
  repeat (apply in_app_or in Hin; destruct Hin as [Hin|Hin]).
  - eapply relate_shape; [exact Hx|exact Fl| |exact El|exact Hin]. cbn; auto.
  - eapply relate_shape; [exact Hx|exact Fr| |exact Er|exact Hin]. cbn; auto.
  - eapply relate_shape; [exact Hx|exact Ff| |exact Ef|exact Hin]. cbn; auto.
  - eapply relate_shape; [exact Hx|exact Fb| |exact Eb|exact Hin]. cbn; auto.
Qed.

(** X4: every utterance that [parse_scene] writes for a scene with plain
    attribute values is of one of two shapes: a quantifier, the primary
    attribute, a preposition between spaces and a quantified secondary
    name; or "some", the primary attribute, a preposition and another,
    different attribute, run together without spaces. *)
Theorem utterance_shapes (scene_dict : Scene) (out : Output) (u : string) :
  (forall o, In o (objects scene_dict) -> plain_object o) ->
  parse_scene scene_dict = inr out ->
  In u (utterance_set out) ->
  relational_shape (objects scene_dict) u \/ bare_shape (objects scene_dict) u.
Proof.
  destruct scene_dict as [objs rels]. cbn [objects relationships].
  intros Hplain Hout Hin.
  destruct (rows_ok (length objs) rels) eqn:Hrows;
    [|rewrite (rows_bad_index_error objs rels Hrows) in Hout; discriminate Hout].
  unfold parse_scene in Hout. cbn [objects relationships] in Hout.
  cbv zeta in Hout.
  pose proof (structs_spec (build_index objs) (map objd_list_of objs)
                (map objd_of objs) rels) as H2.
  rewrite !length_map in H2. specialize (H2 eq_refl). rewrite Hrows in H2.
  destruct H2 as [structs [Hs H2]]. rewrite Hs in Hout. cbn [bind] in Hout.
  destruct (described_spec objs rels structs Hrows H2) as [ds [Hd H3]].
  rewrite Hd in Hout. cbn [bind] in Hout.
  destruct (for_each _ ds) as [e|us] eqn:Eus; [discriminate Hout|].
  cbn [bind ret] in Hout. injection Hout as <-. cbn [utterance_set] in Hin.
  apply nodup_In in Hin.
  destruct (for_each_in _ _ _ _ Eus Hin) as [d [xs [Hdin [Hxs Hu]]]].
  destruct (described_owner objs structs ds d H2 H3 Hdin)
    as [i_os [o [Hok [Ho Hnames]]]].
  unfold utterances_of_object in Hxs.
  rewrite Hnames, primary_names_objd in Hxs.
  destruct (for_each_in _ _ _ _ Hxs Hu) as [name [ys [Hname [Hys Huy]]]].
  destruct Hname as [<-|Hname].
  - rewrite some_objects_ok in Hys. injection Hys as <-. destruct Huy.
  - apply in_map_iff in Hname. destruct Hname as [attr [<- Ha]].
    assert (Hattr : attribute_of objs attr) by now exists o.
    destruct (primary_name_lone objs o attr Hplain Ho Ha) as [_ [E|[E|E]]];
      rewrite E in Hys.
    + rewrite (exactly_name_raises objs rels d attr Hplain Hattr) in Hys.
      discriminate Hys.
    + right. eapply all_name_shape; eauto.
    + left. eapply some_name_shape; eauto.
Qed.

Lemma utterance_shapes_witness :
  relational_shape (objects Examples.scene_twins) "some smallon the left ofred"
  \/ bare_shape (objects Examples.scene_twins) "some smallon the left ofred".
Proof.
  eapply (utterance_shapes Examples.scene_twins).
  - intros o [<-|[<-|[]]]; apply plain_obj; plain_word.
  - vm_compute. reflexivity.
  - vm_compute. tauto.
Defined.

(** ** The quantifier of a secondary name *)

Lemma outside_iff (all_ids rel_object_ids : list nat) :
  (0 <? length (Py.set_diffn (Py.to_setn all_ids) (Py.to_setn rel_object_ids)))
  = true <->
  exists j, In j all_ids /\ ~ In j rel_object_ids.
Proof.
  rewrite Nat.ltb_lt. split.
  - intros H.
    destruct (Py.set_diffn _ _) as [|j l] eqn:E; [cbn in H; lia|].
    assert (Hj : In j (Py.set_diffn (Py.to_setn all_ids)
                         (Py.to_setn rel_object_ids)))
      by (rewrite E; now left).
    apply set_diffn_In in Hj. destruct Hj as [H1 H2].
    exists j. split; [now apply (proj1 (to_setn_In _ _))|].
    intros Hin. apply H2. now apply (proj2 (to_setn_In _ _)).
  - intros [j [H1 H2]].
    assert (Hj : In j (Py.set_diffn (Py.to_setn all_ids)
                         (Py.to_setn rel_object_ids))).
    { apply set_diffn_In. split; [now apply (proj2 (to_setn_In _ _))|].
      intros Hin. apply H2. now apply (proj1 (to_setn_In _ _)). }
    destruct (Py.set_diffn _ _); [destruct Hj|cbn; lia].
Qed.

Lemma all_inside (all_ids rel_object_ids : list nat) :
  (0 <? length (Py.set_diffn (Py.to_setn all_ids) (Py.to_setn rel_object_ids)))
  = false -> incl all_ids rel_object_ids.
Proof.
  intros H j Hj.
  destruct (in_dec Nat.eq_dec j rel_object_ids) as [Hin|Hout]; [exact Hin|].
  assert (E : (0 <? length (Py.set_diffn (Py.to_setn all_ids)
                              (Py.to_setn rel_object_ids))) = true)
    by (apply outside_iff; now exists j).
  congruence.
Qed.

(** X5: the name given to the attribute value [attr] of an object related
    to the pivot, for attribute values without spaces, where
    [rel_object_ids] are the objects related to the pivot: "some" when an
    object with [attr] in its description is not related to the pivot;
    otherwise "Exactly one all" when there is one such object, and "all"
    when there are several. *)
Theorem secondary_label_by_inclusion (objs : list SceneObject)
    (rel_object_ids : list nat) (attr : string) :
  (forall o, In o objs -> space_free o) -> attribute_of objs attr ->
  let ext := extension_of objs [attr] in
  exists d, secondary_name (build_index objs) rel_object_ids attr = inr d /\
    (d = ("some " ++ attr)%string <->
     exists j, In j ext /\ ~ In j rel_object_ids) /\
    (d = ("Exactly one all " ++ attr)%string <->
     incl ext rel_object_ids /\ length ext = 1) /\
    (d = ("all " ++ attr)%string <->
     incl ext rel_object_ids /\ length ext <> 1).
Proof.
  intros Hsf [o [Ho Ha]]. cbv zeta.
  pose proof (stored_2ids objs o [attr] Hsf Ho (singleton_window o attr Ha))
    as Hst.
  change (Py.join " " [attr]) with attr in Hst.
  unfold secondary_name, dget_exn. rewrite Hst. cbn [ret bind].
  set (ext := extension_of objs [attr]).
  destruct (0 <? length (Py.set_diffn (Py.to_setn ext)
                           (Py.to_setn rel_object_ids))) eqn:E.
  - apply outside_iff in E. eexists. split; [reflexivity|].
    split; [tauto|]. split.
    + split; [intros H; discriminate H|].
      intros [Hincl _]. destruct E as [j [H1 H2]]. exfalso. auto.
    + split; [intros H; discriminate H|].
      intros [Hincl _]. destruct E as [j [H1 H2]]. exfalso. auto.
  - pose proof (all_inside _ _ E) as Hincl.
    assert (Hno : ~ exists j, In j ext /\ ~ In j rel_object_ids).
    { intros [j [H1 H2]]. auto. }
    destruct (length ext =? 1) eqn:El.
    + apply Nat.eqb_eq in El. eexists. split; [reflexivity|].
      split; [split; [intros H; discriminate H|intros H; contradiction]|].
      split; [tauto|].
      split; [intros H; discriminate H|intros [_ H]; contradiction].
    + apply Nat.eqb_neq in El. eexists. split; [reflexivity|].
      split; [split; [intros H; discriminate H|intros H; contradiction]|].
      split; [|tauto].
      split; [intros H; discriminate H|intros [_ H]; contradiction].
Qed.

Lemma secondary_label_by_inclusion_witness :
  exists d,
    secondary_name (build_index Examples.objs3) [0; 1] "red" = inr d /\
    (d = "some red" <->
     exists j, In j (extension_of Examples.objs3 ["red"]) /\ ~ In j [0; 1]) /\
    (d = "Exactly one all red" <->
     incl (extension_of Examples.objs3 ["red"]) [0; 1] /\
     length (extension_of Examples.objs3 ["red"]) = 1) /\
    (d = "all red" <->
     incl (extension_of Examples.objs3 ["red"]) [0; 1] /\
     length (extension_of Examples.objs3 ["red"]) <> 1).
Proof.
  apply (secondary_label_by_inclusion Examples.objs3 [0; 1] "red").
  - intros o [<-|[<-|[<-|[]]]] a [<-|[<-|[<-|[<-|[]]]]]; reflexivity.
  - eexists. split; [left; reflexivity|]. right. left. reflexivity.
Defined.

(** ** Lists built from at most one element per item *)

Lemma NoDup_flat_map_tag {A B C} (tag : A -> C) (h : B -> C)
    (g : A -> list B) (l : list A) :
  NoDup (map tag l) ->
  (forall a p, In a l -> In p (g a) -> h p = tag a) ->
  (forall a, In a l -> length (g a) <= 1) ->
  NoDup (map h (flat_map g l)).
Proof.
  induction l as [|a l IH]; intros Hnd Htag Hlen; cbn [flat_map map].
  - constructor.
  - cbn [map] in Hnd. inversion Hnd as [|? ? Hnin Hnd']; subst.
    assert (IH' : NoDup (map h (flat_map g l))).
    { apply IH; [exact Hnd'| |]; intros; [eapply Htag|apply Hlen]; eauto;
        now right. }
    rewrite map_app.
    pose proof (Hlen a (or_introl eq_refl)) as Hl.
    pose proof (Htag a) as Ht.
    destruct (g a) as [|p [|q r]]; cbn [length] in Hl; [exact IH'| |lia].
    cbn [map app]. constructor; [|exact IH'].
    intros Hin. apply in_map_iff in Hin. destruct Hin as [q [Hq Hin]].
    apply in_flat_map in Hin. destruct Hin as [b [Hb Hqb]].
    apply Hnin. apply in_map_iff. exists b. split; [|exact Hb].
    rewrite <- (Htag b q (or_intror Hb) Hqb), Hq.
    apply Ht; now left.
Qed.

Lemma NoDup_map_fst_inj {A B} (l : list (A * B)) a b b' :
  NoDup (map fst l) -> In (a, b) l -> In (a, b') l -> b = b'.
Proof.
  induction l as [|[x y] l IH]; intros Hnd H1 H2; [destruct H1|].
  cbn [map fst] in Hnd. inversion Hnd as [|? ? Hnin Hnd']; subst.
  destruct H1 as [H1|H1], H2 as [H2|H2].
  - congruence.
  - exfalso. injection H1 as -> ->. apply Hnin. apply in_map_iff.
    now exists (a, b').
  - exfalso. injection H2 as -> ->. apply Hnin. apply in_map_iff.
    now exists (a, b).
  - now apply IH.
Qed.

Lemma length_inds {A} (p : A -> bool) (l : list A) :
  length (Py.inds p l) = length (filter p l).
Proof.
  induction l as [|x l IH] using rev_ind; [reflexivity|].
  rewrite inds_snoc, filter_app, !length_app, IH. cbn [filter].
  now destruct (p x).
Qed.

Lemma dget_In {V} (k : string) (v : V) (d : dict V) :
  dget k d = Some v -> In (k, v) d.
Proof.
  induction d as [|[k0 v0] d IH]; cbn [dget]; [discriminate|].
  destruct (String.eqb_spec k k0) as [->|Hk].
  - intros [= ->]. now left.
  - intros H. right. now apply IH.
Qed.

(** ** The candidates of the scan *)

Lemma candidates_at_fst keys m i p :
  In p (candidates_at keys m i) -> fst p = i.
Proof.
  unfold candidates_at. destruct (_ && _); [|intros []].
  intros [<-|[]]. reflexivity.
Qed.

Lemma candidates_at_length keys m i : length (candidates_at keys m i) <= 1.
Proof. unfold candidates_at. destruct (_ && _); cbn; lia. Qed.

Lemma NoDup_candidates keys m n :
  NoDup (map fst (utterance_obj_pairs (scan keys m n))).
Proof.
  rewrite scan_pairs.
  apply (NoDup_flat_map_tag (fun i => i)).
  - rewrite map_id. apply seq_NoDup.
  - intros a p _. apply candidates_at_fst.
  - intros a _. apply candidates_at_length.
Qed.

Lemma repeated_ties objs v :
  In v (repeat_obj_pairs
          (scan (keys_of objs) (full_matrix_of objs) (length objs))) <->
  exists i, ties_for_best objs v i.
Proof.
  rewrite scan_repeated, in_flat_map. split.
  - intros [i [Hi Hv]]. exists i. apply in_seq in Hi.
    unfold repeated_at in Hv. fold (best_rows objs i) in Hv.
    destruct (length (best_rows objs i) =? 1) eqn:E; [destruct Hv|].
    apply Nat.eqb_neq in E. split; [lia|]. now split.
  - intros [i [Hi [Hlen Hv]]]. exists i. split; [apply in_seq; lia|].
    unfold repeated_at. fold (best_rows objs i).
    destruct (length (best_rows objs i) =? 1) eqn:E; [|exact Hv].
    apply Nat.eqb_eq in E. contradiction.
Qed.

(** ** The values that survive the filter *)

Lemma positions_one (pairs : list (nat * string)) o v :
  NoDup (map fst pairs) -> In (o, v) pairs ->
  (forall j, In (j, v) pairs -> j = o) ->
  length (positions_of v pairs) = 1.
Proof.
  unfold positions_of. rewrite length_inds.
  induction pairs as [|[j w] pairs IH]; intros Hnd Hin Hall; [destruct Hin|].
  cbn [map fst] in Hnd. inversion Hnd as [|? ? Hnin Hnd']; subst.
  cbn [filter snd]. destruct (String.eqb_spec w v) as [->|Hw].
  - assert (j = o) by (apply Hall; now left). subst j.
    cbn [length]. f_equal.
    destruct (filter _ pairs) as [|[j' w'] r] eqn:E; [reflexivity|exfalso].
    assert (Hf : In (j', w') (filter (fun p => (snd p =? v)%string) pairs))
      by (rewrite E; now left).
    apply filter_In in Hf. destruct Hf as [Hf Hv]. cbn [snd] in Hv.
    apply String.eqb_eq in Hv. subst w'.
    assert (j' = o) by (apply Hall; now right). subst j'.
    apply Hnin. apply in_map_iff. now exists (o, v).
  - destruct Hin as [[= -> ->]|Hin]; [congruence|].
    apply IH; auto. intros j' Hj'. apply Hall. now right.
Qed.

Lemma updated_pairs_complete pairs repeated o v :
  In (o, v) pairs -> ~ In v repeated ->
  length (positions_of v pairs) = 1 ->
  In (o, v) (updated_pairs pairs repeated).
Proof.
  intros Hin Hr Hlen.
  destruct (utterance_count_spec pairs) as [_ Hspec].
  specialize (Hspec v).
  destruct (positions_of v pairs) as [|a [|b js]] eqn:Ep; try discriminate.
  apply dget_In in Hspec.
  unfold updated_pairs. rewrite in_flat_map. exists (v, [a]).
  split; [exact Hspec|]. cbn [fst snd length hd].
  destruct (Py.mem v repeated) eqn:Em;
    [apply mem_In in Em; contradiction|].
  cbn. left.
  destruct (In_nth_error _ _ Hin) as [b Hb].
  assert (Hinb : In b (positions_of v pairs))
    by (apply inds_spec; exists (o, v); split; [exact Hb|apply String.eqb_refl]).
  rewrite Ep in Hinb. destruct Hinb as [<-|[]].
  now apply nth_error_nth.
Qed.

Lemma updated_values_distinct pairs repeated :
  NoDup (map snd (updated_pairs pairs repeated)).
Proof.
  unfold updated_pairs.
  destruct (utterance_count_spec pairs) as [Hnd Hspec].
  apply (NoDup_flat_map_tag fst); [exact Hnd| |].
  - intros [k js] p Hin Hp. cbn [fst snd] in *.
    destruct (_ && _) eqn:E; [|destruct Hp].
    destruct Hp as [<-|[]].
    apply andb_true_iff in E. destruct E as [E _]. apply Nat.eqb_eq in E.
    apply In_dget in Hin; [|exact Hnd]. rewrite Hspec in Hin.
    destruct (positions_of k pairs) as [|j0 js0] eqn:Ep; [discriminate|].
    injection Hin as <-. cbn [hd].
    assert (Hj : In j0 (positions_of k pairs)) by (rewrite Ep; now left).
    apply inds_spec in Hj. destruct Hj as [p [Hp Hk]].
    rewrite (nth_error_nth _ _ _ Hp). now apply String.eqb_eq.
  - intros a _. destruct (_ && _); cbn; lia.
Qed.

(** some other object carries the value: the count of object [o] is
    below the total *)
Lemma other_holder (l : list nat) (o : nat) :
  nth o l 0 < sum l <-> exists j, j <> o /\ 0 < nth j l 0.
Proof.
  split.
  - revert o. induction l as [|x l IH]; intros o H.
    + destruct o; cbn in H; lia.
    + destruct o as [|o].
      * cbn [nth] in H. change (sum (x :: l)) with (x + sum l) in H.
        assert (Hs : 0 < sum l) by lia.
        assert (Hex : exists j, 0 < nth j l 0).
        { clear -Hs. induction l as [|y l IH]; [cbn in Hs; lia|].
          change (sum (y :: l)) with (y + sum l) in Hs.
          destruct y as [|y].
          - destruct IH as [j Hj]; [exact Hs|]. now exists (S j).
          - exists 0. cbn. lia. }
        destruct Hex as [j Hj]. exists (S j). split; [lia|exact Hj].
      * cbn [nth] in H. change (sum (x :: l)) with (x + sum l) in H.
        destruct x as [|x].
        -- destruct (IH o) as [j [Hne Hj]]; [lia|].
           exists (S j). split; [lia|exact Hj].
        -- exists 0. split; [lia|]. cbn. lia.
  - intros [j [Hne Hj]]. pose proof (sum_ge_two l o j) as H.
    assert (o <> j) by congruence. specialize (H H0). lia.
Qed.

Lemma mult_positive v o : 0 < mult v o <-> In v (values_of o).
Proof.
  unfold mult, values_of. split.
  - intros H.
    destruct (filter (String.eqb v) _) as [|x r] eqn:Ef; [cbn in H; lia|].
    assert (Hx : In x (filter (String.eqb v)
                         [shape o; size o; material o; color o]))
      by (rewrite Ef; now left).
    apply filter_In in Hx. destruct Hx as [Hx Hxv].
    apply String.eqb_eq in Hxv. now subst.
  - intros H.
    assert (Hf : In v (filter (String.eqb v)
                         [shape o; size o; material o; color o]))
      by (apply filter_In; split; [exact H|apply String.eqb_refl]).
    destruct (filter (String.eqb v) _); [destruct Hf|cbn; lia].
Qed.

Lemma returned_object_carries objs o v :
  In (o, v) (filtered objs) ->
  exists ob, nth_error objs o = Some ob /\ In v (values_of ob).
Proof.
  intros Hin. unfold filtered in Hin.
  apply updated_pairs_sound in Hin. destruct Hin as [Hp _].
  apply candidate_inv in Hp. destruct Hp as [[Ho _] [Hpos _]].
  destruct (nth_error objs o) as [ob|] eqn:E;
    [|apply nth_error_None in E; lia].
  exists ob. split; [reflexivity|].
  assert (Hm : nth o (map (mult v) objs) 0 = mult v ob).
  { apply nth_error_nth. now apply map_nth_error. }
  rewrite Hm in Hpos. now apply mult_positive.
Qed.

(** X6: what [calculate_ad_hoc_matrix] keeps: the pair of object [o] and value
    [v] is in the final set exactly when [v] is the only best value of
    [o], some other object carries [v] too, [v] is not among several best
    values of any object, and [v] is the only best value of no other
    object. *)
Theorem returned_iff (objs : list SceneObject) (o : nat) (v : string) :
  In (o, v) (filtered objs) <->
  unique_best objs v o /\
  (exists j, j <> o /\ 0 < nth j (map (mult v) objs) 0) /\
  (forall i, ~ ties_for_best objs v i) /\
  (forall j, unique_best objs v j -> j = o).
Proof.
  unfold filtered. split.
  - intros Hin. apply updated_pairs_sound in Hin.
    destruct Hin as [Hp [Hr Hc]].
    pose proof (candidate_inv objs o v Hp) as [Hbest [Hpos Hlt]].
    split; [exact Hbest|]. split; [now apply other_holder|]. split.
    + intros i Hi. apply Hr. apply repeated_ties. now exists i.
    + intros j Hj. destruct (Nat.eq_dec j o) as [E|Hne]; [exact E|exfalso].
      revert Hc. apply (two_positions _ v o j); [congruence|exact Hp|].
      apply (unique_best_candidate objs v j o); auto.
  - intros [Hbest [[j [Hne Hj]] [Hties Huniq]]].
    assert (Hp : In (o, v) (utterance_obj_pairs
                   (scan (keys_of objs) (full_matrix_of objs) (length objs))))
      by (apply (unique_best_candidate objs v o j); auto).
    apply updated_pairs_complete; [exact Hp| |].
    + intros Hr. apply repeated_ties in Hr. destruct Hr as [i Hi].
      now apply (Hties i).
    + apply (positions_one _ o v); [apply NoDup_candidates|exact Hp|].
      intros j' Hj'. apply Huniq. now apply candidate_inv in Hj'.
Qed.

(** X7: in the final set no object and no value occurs twice, every object
    is an object of the scene, and it carries its value. *)
Theorem returned_pairs_distinct (objs : list SceneObject) :
  NoDup (map fst (filtered objs)) /\ NoDup (map snd (filtered objs)) /\
  forall o v, In (o, v) (filtered objs) ->
    exists ob, nth_error objs o = Some ob /\ In v (values_of ob).
Proof.
  assert (Hv : NoDup (map snd (filtered objs)))
    by apply updated_values_distinct.
  split; [|split; [exact Hv|apply returned_object_carries]].
  apply NoDup_map_NoDup_ForallPairs; [|eapply NoDup_map_inv; exact Hv].
  intros [o v] [o' v'] H1 H2 E. cbn [fst] in E. subst o'. f_equal.
  unfold filtered in H1, H2.
  apply updated_pairs_sound in H1. apply updated_pairs_sound in H2.
  eapply NoDup_map_fst_inj;
    [apply NoDup_candidates|apply (proj1 H1)|apply (proj1 H2)].
Qed.

(** ** Scenes that are too small *)

Lemma nth_positive_lt (l : list nat) j : 0 < nth j l 0 -> j < length l.
Proof.
  intros H. destruct (Nat.lt_ge_cases j (length l)) as [Hlt|Hge]; [exact Hlt|].
  rewrite nth_overflow in H; [lia|exact Hge].
Qed.

Lemma returned_needs_two objs o v :
  In (o, v) (filtered objs) -> 2 <= length objs.
Proof.
  intros Hin. apply returned_value_shared in Hin. destruct Hin as [Hpos Hlt].
  apply other_holder in Hlt. destruct Hlt as [j [Hne Hj]].
  apply nth_positive_lt in Hpos. apply nth_positive_lt in Hj.
  rewrite length_map in Hpos, Hj. lia.
Qed.

Lemma small_scene_none objs :
  length objs < 2 -> calculate_ad_hoc_matrix objs = None.
Proof.
  intros Hlen.
  destruct (calculate_ad_hoc_matrix objs) as [[[full updated] m]|] eqn:E;
    [exfalso|reflexivity].
  apply calculate_some in E. destruct E as [-> Hne].
  destruct (filtered objs) as [|[o v] r] eqn:Ef; [congruence|].
  assert (Hin : In (o, v) (filtered objs)) by (rewrite Ef; now left).
  apply returned_needs_two in Hin. lia.
Qed.

(** X8: with fewer than two objects to place, [calculate_ad_hoc_matrix] has no
    result and [add_ad_hoc_random_objects] accepts none of its attempts. *)
Theorem fewer_than_two_objects_never_accepted
    (num_objects : nat) (attempts : list Attempt) :
  num_objects < 2 ->
  (forall objs all_visible,
     In (Placed objs all_visible) attempts -> length objs = num_objects) ->
  (forall objs, length objs = num_objects ->
                calculate_ad_hoc_matrix objs = None) /\
  add_ad_hoc_random_objects attempts = None.
Proof.
  intros Hn Hall. split.
  - intros objs Hlen. apply small_scene_none. lia.
  - induction attempts as [|[|objs vis] rest IH]; [reflexivity| |].
    + cbn [add_ad_hoc_random_objects]. apply IH.
      intros objs vis Hin. apply (Hall objs vis). now right.
    + cbn [add_ad_hoc_random_objects].
      rewrite small_scene_none.
      * apply IH. intros objs' vis' Hin. apply (Hall objs' vis'). now right.
      * rewrite (Hall objs vis); [exact Hn|now left].
Qed.

Lemma fewer_than_two_objects_never_accepted_witness :
  (forall objs, length objs = 1 -> calculate_ad_hoc_matrix objs = None) /\
  add_ad_hoc_random_objects
    [Placed [Examples.obj "large" "blue" "rubber" "cube"] true; OutOfRetries;
     Placed [Examples.obj "small" "red" "metal" "sphere"] true] = None.
Proof.
  apply (fewer_than_two_objects_never_accepted 1).
  - lia.
  - intros objs vis [E|[E|[E|[]]]]; [|discriminate E|];
      injection E as <- _; reflexivity.
Defined.

(** ** The matrix *)

Lemma sum_positive_in (l : list nat) : 0 < sum l <-> exists x, In x l /\ 0 < x.
Proof.
  induction l as [|y l IH].
  - cbn. split; [lia|]. intros [x [[] _]].
  - change (sum (y :: l)) with (y + sum l). split.
    + intros H. destruct y as [|y].
      * destruct (proj1 IH) as [x [Hx Hp]]; [lia|]. exists x. split; [now right|exact Hp].
      * exists (S y). split; [now left|lia].
    + intros [x [[->|Hx] Hp]]; [lia|].
      assert (0 < sum l) by (apply IH; now exists x). lia.
Qed.

Lemma key_iff_value objs v :
  In v (keys_of objs) <-> exists o, In o objs /\ In v (values_of o).
Proof.
  rewrite key_held, sum_positive_in. split.
  - intros [x [Hx Hp]]. apply in_map_iff in Hx. destruct Hx as [o [<- Ho]].
    exists o. split; [exact Ho|]. now apply mult_positive.
  - intros [o [Ho Hv]]. exists (mult v o).
    split; [now apply in_map|]. now apply mult_positive.
Qed.

(** X9: [full_matrix] has one row for every attribute value that occurs in the
    scene, no value twice, and the entry in the row of [v] and the column of
    object [i] is the number of times object [i] carries [v], divided by the
    number of times [v] is carried in the scene plus 1/1000. *)
Theorem full_matrix_entries (objs : list SceneObject) :
  NoDup (keys_of objs) /\
  (forall v, In v (keys_of objs) <->
             exists o, In o objs /\ In v (values_of o)) /\
  length (full_matrix_of objs) = length (keys_of objs) /\
  (forall r i, r < length (keys_of objs) -> i < length objs ->
     nth i (nth r (full_matrix_of objs) []) 0%Q
     = score objs (key_at (keys_of objs) r) i) /\
  (forall full updated m,
     calculate_ad_hoc_matrix objs = Some (full, updated, m) ->
     m = full_matrix_of objs).
Proof.
  split; [apply NoDup_keys|]. split; [apply key_iff_value|].
  split; [unfold full_matrix_of, keys_of, dkeys; now rewrite !length_map|].
  split.
  - intros r i Hr Hi.
    pose proof (column_scores objs i Hi) as Hc.
    apply (f_equal (fun l => nth r l 0%Q)) in Hc.
    unfold column in Hc at 1.
    assert (Hr' : r < length (full_matrix_of objs))
      by (unfold full_matrix_of, keys_of, dkeys in *; now rewrite length_map in *).
    rewrite (nth_indep _ 0%Q (nth i [] 0%Q)) in Hc
      by (rewrite length_map; exact Hr').
    rewrite (map_nth (fun row => nth i row 0%Q)) in Hc.
    rewrite Hc. unfold key_at.
    rewrite (nth_indep _ 0%Q (score objs EmptyString i))
      by (rewrite length_map; exact Hr).
    now rewrite (map_nth (fun v => score objs v i)).
  - unfold calculate_ad_hoc_matrix. intros full updated m.
    destruct (updated_pairs _ _); [discriminate|]. now intros [= _ _ <-].
Qed.

(** ** One entry per object *)

Lemma scan_object_full keys m st i :
  full_utterance_obj_pairs (scan_object keys m st i)
  = full_utterance_obj_pairs st ++ [entry_at keys m i].
Proof.
  unfold scan_object, entry_at. cbv zeta.
  destruct (length (where_max (column m i)) =? 1);
    destruct (Qle_bool (9 # 10) (maximum (column m i))); reflexivity.
Qed.

Lemma scan_full_from keys m l st :
  full_utterance_obj_pairs (fold_left (scan_object keys m) l st)
  = full_utterance_obj_pairs st ++ map (entry_at keys m) l.
Proof.
  revert st. induction l as [|i l IH]; intros st; cbn [fold_left map].
  - now rewrite app_nil_r.
  - rewrite IH, scan_object_full, <- app_assoc. reflexivity.
Qed.

Lemma scan_full keys m n :
  full_utterance_obj_pairs (scan keys m n) = map (entry_at keys m) (seq 0 n).
Proof. unfold scan. now rewrite scan_full_from. Qed.

Lemma entry_at_id keys m i : entry_id (entry_at keys m i) = i.
Proof.
  unfold entry_at. cbv zeta.
  destruct (_ && _); [reflexivity|]. now destruct (negb _).
Qed.

(** the maximum of a column is one of its entries *)
Lemma fold_qmax_in (c : list Q) (x : Q) : In (fold_left qmax c x) (x :: c).
Proof.
  revert x. induction c as [|y c IH]; intros x; cbn [fold_left].
  - now left.
  - destruct (IH (qmax x y)) as [H|H].
    + rewrite <- H. unfold qmax. destruct (Qle_bool x y); cbn; auto.
    + right. now right.
Qed.

Lemma where_max_nonempty (c : list Q) : c <> [] -> where_max c <> [].
Proof.
  intros Hc. destruct c as [|x c]; [congruence|].
  pose proof (fold_qmax_in c x) as Hin. fold (maximum (x :: c)) in Hin.
  apply In_nth_error in Hin. destruct Hin as [j Hj].
  assert (H : In j (where_max (x :: c))).
  { apply inds_spec. exists (maximum (x :: c)). split; [exact Hj|].
    apply Qeq_bool_iff. reflexivity. }
  intros E. rewrite E in H. destruct H.
Qed.

Lemma where_max_bound (c : list Q) r : In r (where_max c) -> r < length c.
Proof.
  intros H. apply inds_spec in H. destruct H as [x [Hx _]].
  apply nth_error_Some. congruence.
Qed.

Lemma key_at_in keys r : r < length keys -> In (key_at keys r) keys.
Proof. intros H. unfold key_at. now apply nth_In. Qed.

Lemma argmax_in (c : list Q) : c <> [] -> In (argmax c) (where_max c).
Proof.
  intros Hc. apply where_max_nonempty in Hc. unfold argmax.
  destruct (where_max c); [congruence|now left].
Qed.

(** the keys of an entry are attribute values of the scene, and a list of
    keys is never empty *)
Lemma entry_at_keys objs i :
  i < length objs ->
  match entry_at (keys_of objs) (full_matrix_of objs) i with
  | Listed _ ks => ks <> [] /\ Forall (fun k => In k (keys_of objs)) ks
  | Dominant _ k => In k (keys_of objs)
  end.
Proof.
  intros Hi. unfold entry_at. cbv zeta.
  set (c := column (full_matrix_of objs) i).
  assert (Hlen : length c = length (keys_of objs)).
  { unfold c, column, full_matrix_of, keys_of, dkeys. now rewrite !length_map. }
  assert (Hc : c <> []).
  { intros E. rewrite E in Hlen. cbn in Hlen.
    destruct (nth_error objs i) as [o|] eqn:Eo;
      [|apply nth_error_None in Eo; lia].
    assert (Hk : In (shape o) (keys_of objs)).
    { apply key_iff_value. exists o. split.
      - eapply nth_error_In; eassumption.
      - now left. }
    destruct (keys_of objs); [destruct Hk|discriminate Hlen]. }
  assert (Hkey : forall r, In r (where_max c) ->
                           In (key_at (keys_of objs) r) (keys_of objs)).
  { intros r Hr. apply key_at_in. rewrite <- Hlen. now apply where_max_bound. }
  destruct (_ && _).
  - split; [discriminate|]. constructor; [|constructor].
    apply Hkey. now apply argmax_in.
  - destruct (negb _).
    + split.
      * intros E. apply map_eq_nil in E. now apply where_max_nonempty in E.
      * apply Forall_forall. intros k Hk. apply in_map_iff in Hk.
        destruct Hk as [r [<- Hr]]. now apply Hkey.
    + apply Hkey. now apply argmax_in.
Qed.

(** X10: [full_utterance_obj_pairs] holds exactly one entry for every object,
    in the order of the objects; the keys in it are attribute values that
    occur in the scene, and no list of keys is empty. *)
Theorem one_full_entry_per_object (objs : list SceneObject) :
  let full := full_utterance_obj_pairs
                (scan (keys_of objs) (full_matrix_of objs) (length objs)) in
  map entry_id full = seq 0 (length objs) /\
  (forall i ks, In (Listed i ks) full ->
     ks <> [] /\ forall k, In k ks -> In k (keys_of objs)) /\
  (forall i k, In (Dominant i k) full -> In k (keys_of objs)).
Proof.
  cbv zeta. rewrite scan_full. split; [|split].
  - rewrite map_map. rewrite (map_ext _ (fun i => i)); [apply map_id|].
    intros i. apply entry_at_id.
  - intros i ks Hin. apply in_map_iff in Hin. destruct Hin as [j [E Hj]].
    apply in_seq in Hj.
    pose proof (entry_at_keys objs j (proj2 Hj)) as H. rewrite E in H.
    destruct H as [H1 H2]. split; [exact H1|]. now apply Forall_forall.
  - intros i k Hin. apply in_map_iff in Hin. destruct Hin as [j [E Hj]].
    apply in_seq in Hj.
    pose proof (entry_at_keys objs j (proj2 Hj)) as H. now rewrite E in H.
Qed.

(** ** What an accepted scene is *)

Lemma accepted_attempt attempts objs pairs m raw :
  add_ad_hoc_random_objects attempts = Some (objs, pairs, m, raw) ->
  In (Placed objs true) attempts /\
  calculate_ad_hoc_matrix objs = Some (raw, pairs, m).
Proof.
  induction attempts as [|[|objs' vis] rest IH]; cbn [add_ad_hoc_random_objects].
  - discriminate.
  - intros H. destruct (IH H) as [H1 H2]. split; [now right|exact H2].
  - destruct (calculate_ad_hoc_matrix objs') as [[[raw' pairs'] m']|] eqn:E.
    + destruct vis.
      * intros [= <- <- <- <-]. split; [now left|exact E].
      * intros H. destruct (IH H) as [H1 H2]. split; [now right|exact H2].
    + intros H. destruct (IH H) as [H1 H2]. split; [now right|exact H2].
Qed.

Lemma calculate_parts objs raw pairs m :
  calculate_ad_hoc_matrix objs = Some (raw, pairs, m) ->
  raw = full_utterance_obj_pairs
          (scan (keys_of objs) (full_matrix_of objs) (length objs)) /\
  pairs = filtered objs /\ pairs <> [] /\ m = full_matrix_of objs.
Proof.
  unfold calculate_ad_hoc_matrix, filtered.
  destruct (updated_pairs _ _); [discriminate|].
  intros [= <- <- <-]. repeat split. discriminate.
Qed.

(** X11: what [add_ad_hoc_random_objects] returns comes from an attempt whose
    objects were placed and all visible; the scene has at least two
    objects, the candidate set is the non-empty final set of
    [calculate_ad_hoc_matrix] for these objects, and there is one raw
    entry for every object. *)
Theorem accepted_scene (attempts : list Attempt) (objs : list SceneObject)
    (pairs : list (nat * string)) (m : list (list Q)) (raw : list FullEntry) :
  add_ad_hoc_random_objects attempts = Some (objs, pairs, m, raw) ->
  In (Placed objs true) attempts /\
  2 <= length objs /\
  pairs = filtered objs /\ pairs <> [] /\
  m = full_matrix_of objs /\
  map entry_id raw = seq 0 (length objs).
Proof.
  intros H. apply accepted_attempt in H. destruct H as [Hin Hc].
  apply calculate_parts in Hc. destruct Hc as [-> [-> [Hne ->]]].
  split; [exact Hin|]. split.
  - destruct (filtered objs) as [|[o v] r] eqn:Ef; [congruence|].
    apply (returned_needs_two objs o v). rewrite Ef. now left.
  - repeat split; try assumption.
    rewrite scan_full, map_map.
    rewrite (map_ext _ (fun i => i)); [apply map_id|].
    intros i. apply entry_at_id.
Qed.

Lemma accepted_scene_witness :
  In (Placed Examples.two_blue_one_sphere true)
    [OutOfRetries; Placed Examples.one_blue true;
     Placed Examples.two_blue_one_sphere false;
     Placed Examples.two_blue_one_sphere true] /\
  2 <= length Examples.two_blue_one_sphere /\
  [(0, "blue")] = filtered Examples.two_blue_one_sphere /\
  [(0, "blue")] <> [] /\
  full_matrix_of Examples.two_blue_one_sphere
  = full_matrix_of Examples.two_blue_one_sphere /\
  map entry_id
    (full_utterance_obj_pairs
       (scan (keys_of Examples.two_blue_one_sphere)
          (full_matrix_of Examples.two_blue_one_sphere) 4))
  = seq 0 (length Examples.two_blue_one_sphere).
Proof.
  apply (accepted_scene
           [OutOfRetries; Placed Examples.one_blue true;
            Placed Examples.two_blue_one_sphere false;
            Placed Examples.two_blue_one_sphere true]).
  vm_compute. reflexivity.
Defined.

(** ** The best value of an object is its rarest *)

Lemma NoDup_inds {A} (p : A -> bool) (l : list A) : NoDup (Py.inds p l).
Proof.
  induction l as [|x l IH] using rev_ind; [constructor|].
  rewrite inds_snoc. destruct (p x); [|now rewrite app_nil_r].
  apply NoDup_app; [exact IH|repeat constructor; intros []|].
  intros j Hj [<-|[]]. apply inds_bound in Hj. lia.
Qed.

Lemma unit_score_lt (a b : nat) :
  a < b ->
  (of_nat 1 / (of_nat b + (1 # 1000)) < of_nat 1 / (of_nat a + (1 # 1000)))%Q.
Proof.
  intros H. apply Qlt_shift_div_l; [apply denominator_pos|].
  setoid_replace (of_nat 1 / (of_nat b + (1 # 1000)) * (of_nat a + (1 # 1000)))%Q
    with ((of_nat a + (1 # 1000)) / (of_nat b + (1 # 1000)))%Q.
  - apply Qlt_shift_div_r; [apply denominator_pos|].
    unfold of_nat, Qlt, Qmult, Qplus, inject_Z; cbn [Qnum Qden]; lia.
  - unfold Qdiv. unfold of_nat at 1. change (inject_Z (Z.of_nat 1)) with 1%Q.
    ring.
Qed.

Lemma unit_score_le (a b : nat) :
  (of_nat 1 / (of_nat b + (1 # 1000)) <= of_nat 1 / (of_nat a + (1 # 1000)))%Q
  <-> a <= b.
Proof.
  split.
  - intros H. destruct (Nat.le_gt_cases a b) as [Hle|Hgt]; [exact Hle|].
    apply unit_score_lt in Hgt. exfalso. apply (Qlt_not_le _ _ Hgt H).
  - intros H. destruct (Nat.eq_dec a b) as [->|Hne]; [apply Qle_refl|].
    apply Qlt_le_weak. apply unit_score_lt. lia.
Qed.

Section OneObject.

Variable objs : list SceneObject.
Variable i : nat.
Variable o : SceneObject.
Hypothesis Hi : nth_error objs i = Some o.
Hypothesis Hnd : NoDup (values_of o).

Let total (v : string) : nat := sum (map (mult v) objs).

Lemma index_lt : i < length objs.
Proof. apply nth_error_Some. congruence. Qed.

Lemma count_here v : nth i (map (mult v) objs) 0 = mult v o.
Proof. apply nth_error_nth. now apply map_nth_error. Qed.

Lemma mult_one v : In v (values_of o) -> mult v o = 1.
Proof.
  intros Hv. unfold mult. fold (values_of o).
  assert (H : forall l, NoDup l -> In v l ->
                length (filter (String.eqb v) l) = 1).
  { induction l as [|x l IH]; intros Hl Hin; [destruct Hin|].
    inversion Hl as [|? ? Hnin Hl']; subst. cbn [filter].
    destruct (String.eqb_spec v x) as [->|Hne].
    - cbn [length]. f_equal.
      destruct (filter (String.eqb x) l) as [|y r] eqn:E; [reflexivity|].
      exfalso. assert (Hy : In y (filter (String.eqb x) l))
        by (rewrite E; now left).
      apply filter_In in Hy. destruct Hy as [Hy Hxy].
      apply String.eqb_eq in Hxy. now subst.
    - destruct Hin as [->|Hin]; [congruence|]. now apply IH. }
  now apply H.
Qed.

Lemma mult_zero v : ~ In v (values_of o) -> mult v o = 0.
Proof.
  intros Hv. destruct (mult v o) eqn:E; [reflexivity|exfalso].
  apply Hv. apply mult_positive. lia.
Qed.

Lemma score_held v :
  In v (values_of o) ->
  score objs v i = (of_nat 1 / (of_nat (total v) + (1 # 1000)))%Q.
Proof.
  intros Hv. unfold score. now rewrite count_here, (mult_one v Hv).
Qed.

Lemma score_unheld v : ~ In v (values_of o) -> (score objs v i == 0)%Q.
Proof.
  intros Hv. unfold score. rewrite count_here, (mult_zero v Hv).
  unfold of_nat at 1. change (inject_Z (Z.of_nat 0)) with 0%Q.
  unfold Qdiv. apply Qmult_0_l.
Qed.

Lemma score_held_pos v : In v (values_of o) -> (0 < score objs v i)%Q.
Proof.
  intros Hv. apply score_positive. rewrite count_here, (mult_one v Hv). lia.
Qed.

Lemma value_is_key v : In v (values_of o) -> In v (keys_of objs).
Proof.
  intros Hv. apply key_iff_value. exists o. split; [|exact Hv].
  eapply nth_error_In; eassumption.
Qed.

(** a key scores at least as much as every key exactly when the object
    carries it and none of its values is carried less often *)
Lemma top_score v :
  In v (keys_of objs) ->
  ((forall k, In k (keys_of objs) -> (score objs k i <= score objs v i)%Q) <->
   In v (values_of o) /\
   forall w, In w (values_of o) -> total v <= total w).
Proof.
  intros Hk. split.
  - intros Htop.
    assert (Hv : In v (values_of o)).
    { destruct (in_dec string_dec v (values_of o)) as [Hv|Hv]; [exact Hv|].
      exfalso. pose proof (score_unheld v Hv) as E.
      assert (Hs : In (shape o) (values_of o)) by now left.
      pose proof (score_held_pos _ Hs) as Hp.
      specialize (Htop _ (value_is_key _ Hs)). rewrite E in Htop.
      apply (Qlt_not_le _ _ Hp Htop). }
    split; [exact Hv|]. intros w Hw.
    specialize (Htop w (value_is_key w Hw)).
    rewrite (score_held w Hw), (score_held v Hv) in Htop.
    now apply unit_score_le in Htop.
  - intros [Hv Hmin] k Hkk.
    destruct (in_dec string_dec k (values_of o)) as [Hkv|Hkv].
    + rewrite (score_held k Hkv), (score_held v Hv).
      apply unit_score_le. now apply Hmin.
    + rewrite (score_unheld k Hkv). apply Qlt_le_weak.
      now apply score_held_pos.
Qed.

Lemma best_row_iff r :
  In r (best_rows objs i) <->
  r < length (keys_of objs) /\
  In (key_at (keys_of objs) r) (values_of o) /\
  forall w, In w (values_of o) -> total (key_at (keys_of objs) r) <= total w.
Proof.
  pose proof index_lt as Hlt.
  assert (Hmax : exists k0, In k0 (keys_of objs) /\
            maximum (column (full_matrix_of objs) i) = score objs k0 i).
  { rewrite (column_scores objs i Hlt).
    destruct (keys_of objs) as [|k ks] eqn:Ek.
    - exfalso. assert (H : In (shape o) (keys_of objs))
        by (apply value_is_key; now left).
      rewrite Ek in H. destruct H.
    - cbn [map maximum].
      pose proof (fold_qmax_in (map (fun v => score objs v i) ks)
                    (score objs k i)) as H.
      change (score objs k i :: map (fun v => score objs v i) ks)
        with (map (fun v => score objs v i) (k :: ks)) in H.
      apply in_map_iff in H. destruct H as [k0 [E Hin]].
      exists k0. split; [exact Hin|now rewrite E]. }
  destruct Hmax as [k0 [Hk0 Hmax]].
  assert (Hge : forall k, In k (keys_of objs) ->
            (score objs k i <= maximum (column (full_matrix_of objs) i))%Q).
  { intros k Hk. apply maximum_ge. rewrite (column_scores objs i Hlt).
    now apply (in_map (fun v => score objs v i)). }
  split.
  - intros Hr. destruct (best_row_score objs i r Hlt Hr) as [Hlen [Heq _]].
    split; [exact Hlen|]. apply top_score; [now apply key_at_in|].
    intros k Hk. rewrite Heq. now apply Hge.
  - intros [Hlen Htop'].
    pose proof (proj2 (top_score _ (key_at_in _ _ Hlen)) Htop') as Htop.
    unfold best_rows, where_max. apply inds_spec.
    exists (score objs (key_at (keys_of objs) r) i). split.
    + rewrite (column_scores objs i Hlt). unfold key_at.
      apply (map_nth_error (fun v => score objs v i)).
      now apply nth_error_nth'.
    + apply Qeq_bool_iff. apply Qle_antisym.
      * apply Hge. now apply key_at_in.
      * rewrite Hmax. now apply Htop.
Qed.

Lemma key_row v :
  In v (keys_of objs) ->
  exists r, r < length (keys_of objs) /\ key_at (keys_of objs) r = v.
Proof.
  intros H. apply (In_nth _ _ EmptyString) in H. destruct H as [r [Hr E]].
  now exists r.
Qed.

Lemma key_row_inj r r' :
  r < length (keys_of objs) -> r' < length (keys_of objs) ->
  key_at (keys_of objs) r = key_at (keys_of objs) r' -> r = r'.
Proof.
  intros Hr Hr' E. apply (proj1 (NoDup_nth (keys_of objs) EmptyString));
    auto. apply NoDup_keys.
Qed.

Lemma unique_best_rarest v :
  unique_best objs v i <->
  In v (values_of o) /\
  forall w, In w (values_of o) -> w <> v -> total v < total w.
Proof.
  split.
  - intros [_ [r [Hrows <-]]].
    assert (Hr : In r (best_rows objs i)) by (rewrite Hrows; now left).
    apply best_row_iff in Hr. destruct Hr as [Hlen [Hv Hmin]].
    split; [exact Hv|]. intros w Hw Hne.
    pose proof (Hmin w Hw) as Hle.
    destruct (Nat.eq_dec (total w) (total (key_at (keys_of objs) r)))
      as [E|E]; [exfalso|lia].
    destruct (key_row w (value_is_key w Hw)) as [r' [Hr' Ew]].
    assert (Hin : In r' (best_rows objs i)).
    { apply best_row_iff. rewrite Ew. split; [exact Hr'|].
      split; [exact Hw|]. intros u Hu. rewrite E. now apply Hmin. }
    rewrite Hrows in Hin. destruct Hin as [<-|[]]. congruence.
  - intros [Hv Hmin]. split; [apply index_lt|].
    destruct (key_row v (value_is_key v Hv)) as [r [Hr Ev]].
    exists r. split; [|exact Ev].
    assert (Hin : In r (best_rows objs i)).
    { apply best_row_iff. rewrite Ev. split; [exact Hr|].
      split; [exact Hv|]. intros w Hw.
      destruct (string_dec w v) as [->|Hne]; [lia|].
      specialize (Hmin w Hw Hne). lia. }
    assert (Hall : forall r', In r' (best_rows objs i) -> r' = r).
    { intros r' Hr'. apply best_row_iff in Hr'.
      destruct Hr' as [Hlen' [Hv' Hmin']].
      apply key_row_inj; auto. rewrite Ev.
      destruct (string_dec (key_at (keys_of objs) r') v) as [E|Hne];
        [exact E|exfalso].
      specialize (Hmin _ Hv' Hne). specialize (Hmin' v Hv). lia. }
    pose proof (NoDup_inds
      (fun x => Qeq_bool x (maximum (column (full_matrix_of objs) i)))
      (column (full_matrix_of objs) i)) as Hnd'.
    fold (where_max (column (full_matrix_of objs) i)) in Hnd'.
    fold (best_rows objs i) in Hnd'.
    destruct (best_rows objs i) as [|a [|b l]].
    + destruct Hin.
    + f_equal. apply Hall. now left.
    + exfalso. inversion Hnd' as [|? ? Hnin _]; subst. apply Hnin.
      rewrite (Hall a) by now left. rewrite (Hall b) by (right; now left).
      now left.
Qed.

Lemma ties_rarest v :
  ties_for_best objs v i <->
  In v (values_of o) /\
  (forall w, In w (values_of o) -> total v <= total w) /\
  exists w, In w (values_of o) /\ w <> v /\ total w = total v.
Proof.
  pose proof (NoDup_inds
    (fun x => Qeq_bool x (maximum (column (full_matrix_of objs) i)))
    (column (full_matrix_of objs) i)) as Hnd'.
  fold (where_max (column (full_matrix_of objs) i)) in Hnd'.
  fold (best_rows objs i) in Hnd'.
  split.
  - intros [_ [Hlen Hv]]. apply in_map_iff in Hv. destruct Hv as [r [<- Hr]].
    pose proof (proj1 (best_row_iff r) Hr) as [Hrl [Hv Hmin]].
    split; [exact Hv|]. split; [exact Hmin|].
    assert (Hother : exists r', In r' (best_rows objs i) /\ r' <> r).
    { destruct (best_rows objs i) as [|a [|b l]]; [destruct Hr|cbn in Hlen; lia|].
      inversion Hnd' as [|? ? Hnin _]; subst.
      destruct (Nat.eq_dec a r) as [->|Hne].
      - exists b. split; [right; now left|]. intros ->. apply Hnin. now left.
      - exists a. split; [now left|exact Hne]. }
    destruct Hother as [r' [Hr' Hne]].
    pose proof (proj1 (best_row_iff r') Hr') as [Hrl' [Hv' Hmin']].
    exists (key_at (keys_of objs) r'). split; [exact Hv'|]. split.
    + intros E. apply Hne. now apply key_row_inj.
    + specialize (Hmin _ Hv'). specialize (Hmin' _ Hv). lia.
  - intros [Hv [Hmin [w [Hw [Hne E]]]]].
    destruct (key_row v (value_is_key v Hv)) as [r [Hr Ev]].
    destruct (key_row w (value_is_key w Hw)) as [r' [Hr' Ew]].
    assert (Hin : In r (best_rows objs i)).
    { apply best_row_iff. rewrite Ev. auto. }
    assert (Hin' : In r' (best_rows objs i)).
    { apply best_row_iff. rewrite Ew. split; [exact Hr'|].
      split; [exact Hw|]. intros u Hu. rewrite E. now apply Hmin. }
    split; [apply index_lt|]. split.
    + intros Hlen. destruct (best_rows objs i) as [|a [|b l]];
        try discriminate Hlen.
      destruct Hin as [<-|[]], Hin' as [<-|[]]. congruence.
    + apply in_map_iff. exists r. split; [exact Ev|exact Hin].
Qed.

End OneObject.

(** X12: for an object whose four attribute values are pairwise distinct, a
    value is its only best value exactly when the object carries it and
    every other value of the object is carried more often in the scene;
    it is one of several best values exactly when it is carried least
    often among the values of the object, together with another one. *)
Theorem best_value_is_rarest (objs : list SceneObject) (i : nat)
    (o : SceneObject) (v : string) :
  nth_error objs i = Some o -> NoDup (values_of o) ->
  (unique_best objs v i <->
   In v (values_of o) /\
   forall w, In w (values_of o) -> w <> v ->
     sum (map (mult v) objs) < sum (map (mult w) objs)) /\
  (ties_for_best objs v i <->
   In v (values_of o) /\
   (forall w, In w (values_of o) ->
      sum (map (mult v) objs) <= sum (map (mult w) objs)) /\
   exists w, In w (values_of o) /\ w <> v /\
     sum (map (mult w) objs) = sum (map (mult v) objs)).
Proof.
  intros Hi Hnd. split.
  - apply (unique_best_rarest objs i o Hi Hnd).
  - apply (ties_rarest objs i o Hi Hnd).
Qed.

Lemma best_value_is_rarest_witness :
  (unique_best Examples.two_blue_one_sphere "sphere" 1 <->
   In "sphere"
     (values_of (Examples.obj "large" "blue" "rubber" "sphere")) /\
   forall w, In w (values_of (Examples.obj "large" "blue" "rubber" "sphere")) ->
     w <> "sphere" ->
     sum (map (mult "sphere") Examples.two_blue_one_sphere)
     < sum (map (mult w) Examples.two_blue_one_sphere)) /\
  (ties_for_best Examples.two_blue_one_sphere "sphere" 1 <->
   In "sphere"
     (values_of (Examples.obj "large" "blue" "rubber" "sphere")) /\
   (forall w, In w (values_of (Examples.obj "large" "blue" "rubber" "sphere")) ->
      sum (map (mult "sphere") Examples.two_blue_one_sphere)
      <= sum (map (mult w) Examples.two_blue_one_sphere)) /\
   exists w, In w (values_of (Examples.obj "large" "blue" "rubber" "sphere")) /\
     w <> "sphere" /\
     sum (map (mult w) Examples.two_blue_one_sphere)
     = sum (map (mult "sphere") Examples.two_blue_one_sphere)).
Proof.
  apply (best_value_is_rarest Examples.two_blue_one_sphere 1
           (Examples.obj "large" "blue" "rubber" "sphere") "sphere").
  - reflexivity.
  - unfold values_of. cbn.
    repeat constructor; cbn; intros H;
      repeat (destruct H as [H|H]; [discriminate H|]); exact H.
Defined.

Import RenderAdHoc.


(** ** The referent of an ad-hoc scene *)

Lemma count_one (pairs : list (nat * string)) o v :
  NoDup (map snd pairs) -> In (o, v) pairs -> count pairs v = 1.
Proof.
  unfold count.
  induction pairs as [|[j w] pairs IH]; intros Hnd Hin; [destruct Hin|].
  cbn [map snd] in Hnd. inversion Hnd as [|? ? Hnin Hnd']; subst.
  cbn [filter snd]. destruct (String.eqb_spec w v) as [->|Hw].
  - cbn [length]. f_equal.
    destruct (filter _ pairs) as [|[j' w'] r] eqn:E; [reflexivity|exfalso].
    assert (Hf : In (j', w') (filter (fun p => (snd p =? v)%string) pairs))
      by (rewrite E; now left).
    apply filter_In in Hf. destruct Hf as [Hf Hv]. cbn [snd] in Hv.
    apply String.eqb_eq in Hv. subst w'.
    apply Hnin. apply in_map_iff. now exists (j', v).
  - destruct Hin as [[= -> ->]|Hin]; [congruence|]. now apply IH.
Qed.

Lemma first_of_entry objs i :
  (forall o, In o objs -> forall a, In a (values_of o) -> a <> "") ->
  i < length objs ->
  exists u, first_of (entry_at (keys_of objs) (full_matrix_of objs) i) = inr u.
Proof.
  intros Hne Hi. pose proof (entry_at_keys objs i Hi) as H.
  destruct (entry_at _ _ i) as [j ks|j k]; cbn [first_of].
  - destruct H as [Hks _]. destruct ks as [|k ks]; [congruence|].
    now exists k.
  - apply key_iff_value in H. destruct H as [o [Ho Hk]].
    specialize (Hne o Ho k Hk). destruct k as [|c k]; [congruence|].
    eexists. reflexivity.
Qed.

Lemma other_utterances_ok objs obj_ind utterance :
  (forall o, In o objs -> forall a, In a (values_of o) -> a <> "") ->
  exists others,
    other_utterances objs
      (full_utterance_obj_pairs
         (scan (keys_of objs) (full_matrix_of objs) (length objs)))
      obj_ind utterance = inr others.
Proof.
  intros Hne. unfold other_utterances. cbv zeta.
  destruct (for_each_ok
    (fun i_obj : nat * SceneObject =>
       if temp_flag (Py.split " " utterance) (snd i_obj)
          && negb (obj_ind =? fst i_obj)
       then e <- nth_exn (full_utterance_obj_pairs
                  (scan (keys_of objs) (full_matrix_of objs) (length objs)))
                  (fst i_obj) ;;
            u <- first_of e ;; ret [u]
       else ret [])
    (Py.enumerate objs) (fun _ => True)) as [others [H _]].
  - intros [i obj] Hin. cbn [fst snd].
    destruct (_ && _); [|exists []; split; [reflexivity|constructor]].
    apply in_enumerate_lt in Hin.
    rewrite scan_full.
    assert (E : nth_error (map (entry_at (keys_of objs) (full_matrix_of objs))
                             (seq 0 (length objs))) i
                = Some (entry_at (keys_of objs) (full_matrix_of objs) i)).
    { apply map_nth_error. rewrite nth_error_nth' with (d := 0)
        by (rewrite length_seq; exact Hin).
      now rewrite seq_nth. }
    apply nth_exn_inr in E. rewrite E. cbn [bind].
    destruct (first_of_entry objs i Hne Hin) as [u ->]. cbn [bind].
    exists [u]. split; [reflexivity|]. constructor; [exact I|constructor].
  - now exists others.
Qed.

(** X13: on what [add_ad_hoc_random_objects] hands over, whichever pair is
    drawn, the choice of the referent does not raise and never gives up:
    the utterance drawn is carried by exactly one pair, so the branch
    [count > 1] is not taken, and the referent is the object of the pair. *)
Theorem referent_always_chosen (objs : list SceneObject)
    (raw : list FullEntry) (pairs : list (nat * string)) (m : list (list Q))
    (obj_uttr_pair : nat * string) :
  calculate_ad_hoc_matrix objs = Some (raw, pairs, m) ->
  In obj_uttr_pair pairs ->
  (forall o, In o objs -> forall a, In a (values_of o) -> a <> "") ->
  count pairs (snd obj_uttr_pair) = 1 /\
  exists level obj,
    nth_error objs (fst obj_uttr_pair) = Some obj /\
    choose_referent objs pairs raw obj_uttr_pair
    = inr (level, Referent (fst obj_uttr_pair) (snd obj_uttr_pair)
                    (description obj)).
Proof.
  intros Hc Hin Hne. apply calculate_parts in Hc.
  destruct Hc as [-> [-> [_ _]]]. destruct obj_uttr_pair as [o v].
  cbn [fst snd].
  assert (Hcount : count (filtered objs) v = 1).
  { apply (count_one _ o); [apply updated_values_distinct|exact Hin]. }
  split; [exact Hcount|].
  unfold choose_referent. cbn [fst snd].
  destruct (other_utterances_ok objs o v Hne) as [others ->]. cbn [bind].
  rewrite Hcount. cbn [Nat.ltb Nat.leb].
  assert (Ho : o < length objs).
  { unfold filtered in Hin. apply updated_pairs_sound in Hin.
    destruct Hin as [Hp _]. apply candidate_inv in Hp.
    now destruct Hp as [[Ho _] _]. }
  destruct (nth_error objs o) as [obj|] eqn:E;
    [|apply nth_error_None in E; lia].
  exists (difficulty others), obj. split; [reflexivity|].
  apply nth_exn_inr in E. rewrite E. reflexivity.
Qed.

Lemma referent_always_chosen_witness :
  count [(0, "blue")] "blue" = 1 /\
  exists level obj,
    nth_error Examples.two_blue_one_sphere 0 = Some obj /\
    choose_referent Examples.two_blue_one_sphere [(0, "blue")]
      [Listed 0 ["blue"]; Dominant 1 "sphere"; Listed 2 ["red"];
       Listed 3 ["red"]] (0, "blue")
    = inr (level, Referent 0 "blue" (description obj)).
Proof.
  apply (referent_always_chosen Examples.two_blue_one_sphere
           [Listed 0 ["blue"]; Dominant 1 "sphere"; Listed 2 ["red"];
            Listed 3 ["red"]]
           [(0, "blue")] (full_matrix_of Examples.two_blue_one_sphere)
           (0, "blue")).
  - vm_compute. reflexivity.
  - now left.
  - intros o [<-|[<-|[<-|[<-|[]]]]] a [<-|[<-|[<-|[<-|[]]]]];
      intros E; discriminate E.
Defined.

Import RenderAdHoc.


Lemma for_each_incl {A B} (f : A -> result (list B)) (l : list A) a bs :
  for_each f l = inr bs -> In a l ->
  exists xs, f a = inr xs /\ incl xs bs.
Proof.
  revert bs. induction l as [|x l IH]; intros bs H Hin; [destruct Hin|].
  cbn [for_each] in H.
  destruct (f x) as [e|xs] eqn:Ex; [discriminate H|]. cbn [bind] in H.
  destruct (for_each f l) as [e|ys] eqn:Ey; [discriminate H|].
  cbn [bind ret] in H. injection H as <-.
  destruct Hin as [<-|Hin].
  - exists xs. split; [exact Ex|]. now apply incl_appl.
  - destruct (IH ys eq_refl Hin) as [zs [Hz Hi]].
    exists zs. split; [exact Hz|]. now apply incl_appr.
Qed.

Lemma description_join obj :
  description obj = Py.join " " (ParseScene.objd_list_of obj).
Proof. reflexivity. Qed.

Lemma value_in_description obj v :
  In v (values_of obj) -> Py.contains v (description obj) = true.
Proof.
  intros H. rewrite description_join. apply contains_join.
  unfold values_of in H. unfold ParseScene.objd_list_of.
  cbn in H |- *. tauto.
Qed.

(** X14: whenever the choice of the referent gets as far as the file of
    difficulty levels, [other_utterances] is not empty: the value drawn is
    carried by another object, which contains it in its description. *)
Theorem referent_has_distractor (objs : list SceneObject)
    (raw : list FullEntry) (pairs : list (nat * string)) (m : list (list Q))
    (obj_uttr_pair : nat * string) (others : list string) :
  calculate_ad_hoc_matrix objs = Some (raw, pairs, m) ->
  In obj_uttr_pair pairs ->
  (forall o, In o objs -> forall a, In a (values_of o) ->
             Py.contains " " a = false) ->
  other_utterances objs raw (fst obj_uttr_pair) (snd obj_uttr_pair)
  = inr others ->
  others <> [].
Proof.
  intros Hc Hin Hsp Hoth. apply calculate_parts in Hc.
  destruct Hc as [-> [-> [_ _]]]. destruct obj_uttr_pair as [o v].
  cbn [fst snd] in Hoth.
  destruct (returned_object_carries objs o v Hin) as [ob [Hob Hv]].
  assert (Hvs : Py.contains " " v = false).
  { apply (Hsp ob); [eapply nth_error_In; eassumption|exact Hv]. }
  pose proof (returned_value_shared objs o v Hin) as [_ Hlt].
  apply other_holder in Hlt. destruct Hlt as [j [Hne Hj]].
  pose proof (nth_positive_lt _ _ Hj) as Hjn. rewrite length_map in Hjn.
  destruct (nth_error objs j) as [oj|] eqn:Ej;
    [|apply nth_error_None in Ej; lia].
  assert (Hm : nth j (map (mult v) objs) 0 = mult v oj).
  { apply nth_error_nth. now apply map_nth_error. }
  rewrite Hm in Hj. apply mult_positive in Hj.
  unfold other_utterances in Hoth. cbv zeta in Hoth.
  destruct (for_each_incl _ _ (j, oj) _ Hoth) as [xs [Hxs Hincl]].
  { now apply in_enumerate. }
  cbn [fst snd] in Hxs.
  unfold Py.split in Hxs. rewrite (split_absent " " v Hvs) in Hxs.
  unfold temp_flag in Hxs. cbn [forallb] in Hxs.
  rewrite (value_in_description oj v Hj) in Hxs.
  assert (Eo : (o =? j) = false) by (apply Nat.eqb_neq; congruence).
  rewrite Eo in Hxs. cbn [andb negb] in Hxs.
  destruct (nth_exn _ j) as [e|en]; [discriminate Hxs|]. cbn [bind] in Hxs.
  destruct (first_of en) as [e|u]; [discriminate Hxs|]. cbn [bind ret] in Hxs.
  injection Hxs as <-. intros E. rewrite E in Hincl.
  apply (Hincl u). now left.
Qed.

Lemma referent_has_distractor_witness : ["s"] <> [].
Proof.
  apply (referent_has_distractor Examples.two_blue_one_sphere
           [Listed 0 ["blue"]; Dominant 1 "sphere"; Listed 2 ["red"];
            Listed 3 ["red"]]
           [(0, "blue")] (full_matrix_of Examples.two_blue_one_sphere)
           (0, "blue") ["s"]).
  - vm_compute. reflexivity.
  - now left.
  - intros o [<-|[<-|[<-|[<-|[]]]]] a [<-|[<-|[<-|[<-|[]]]]]; reflexivity.
  - vm_compute. reflexivity.
Defined.

Import Spatial.


(** ** Relationships between placed objects *)

Lemma Qeq_bool_sym_eq (x y : Q) : Qeq_bool x y = Qeq_bool y x.
Proof.
  destruct (Qeq_bool x y) eqn:E1, (Qeq_bool y x) eqn:E2; try reflexivity.
  - apply Qeq_bool_iff in E1. symmetry in E1. apply Qeq_bool_iff in E1.
    congruence.
  - apply Qeq_bool_iff in E2. symmetry in E2. apply Qeq_bool_iff in E2.
    congruence.
Qed.

Lemma Qeq_bool_refl_eq (x : Q) : Qeq_bool x x = true.
Proof. apply Qeq_bool_iff. reflexivity. Qed.

Lemma vec_eqb_sym (a b : vec) : vec_eqb a b = vec_eqb b a.
Proof.
  destruct a as [[x y] z], b as [[x' y'] z']. unfold vec_eqb.
  now rewrite (Qeq_bool_sym_eq x), (Qeq_bool_sym_eq y), (Qeq_bool_sym_eq z).
Qed.

Lemma vec_eqb_refl (a : vec) : vec_eqb a a = true.
Proof.
  destruct a as [[x y] z]. unfold vec_eqb. now rewrite !Qeq_bool_refl_eq.
Qed.

Lemma list_Qeqb_sym (a b : list Q) : list_Qeqb a b = list_Qeqb b a.
Proof.
  revert b. induction a as [|x a IH]; intros [|y b]; cbn [list_Qeqb];
    try reflexivity.
  now rewrite IH, (Qeq_bool_sym_eq x).
Qed.

Lemma list_Qeqb_refl (a : list Q) : list_Qeqb a a = true.
Proof.
  induction a as [|x a IH]; cbn [list_Qeqb]; [reflexivity|].
  now rewrite IH, Qeq_bool_refl_eq.
Qed.

Lemma same_object_sym (a b : PlacedObject) : same_object a b = same_object b a.
Proof.
  unfold same_object.
  now rewrite (String.eqb_sym (shape (described a))),
    (String.eqb_sym (size (described a))),
    (String.eqb_sym (material (described a))),
    (String.eqb_sym (color (described a))),
    (vec_eqb_sym (coords3d a)), (Qeq_bool_sym_eq (rotation a)),
    (list_Qeqb_sym (pixel_coords a)).
Qed.

Lemma same_object_refl (a : PlacedObject) : same_object a a = true.
Proof.
  unfold same_object.
  now rewrite !String.eqb_refl, vec_eqb_refl, Qeq_bool_refl_eq,
    list_Qeqb_refl.
Qed.

Lemma dot_neg (c1 c2 v : vec) : (dot c1 c2 (neg v) == dot c2 c1 v)%Q.
Proof.
  destruct c1 as [[x1 y1] z1], c2 as [[x2 y2] z2], v as [[dx dy] dz].
  unfold dot, neg. ring.
Qed.

Lemma dot_swap (c1 c2 v : vec) : (dot c1 c2 v == - dot c2 c1 v)%Q.
Proof.
  destruct c1 as [[x1 y1] z1], c2 as [[x2 y2] z2], v as [[dx dy] dz].
  unfold dot. ring.
Qed.

Lemma above_iff (x eps : Q) : Qle_bool x eps = false <-> (eps < x)%Q.
Proof.
  split.
  - intros H. apply Qnot_le_lt. intros Hle. apply Qle_bool_iff in Hle.
    congruence.
  - intros H. destruct (Qle_bool x eps) eqn:E; [|reflexivity].
    apply Qle_bool_iff in E. exfalso. apply (Qlt_not_le _ _ H E).
Qed.

(** when [j] is in the list of object [i] *)
Lemma in_relation (v : vec) (eps : Q) (objs : list PlacedObject) (i j : nat) :
  In j (nth i (related_lists v eps objs) []) <->
  exists o1 o2, nth_error objs i = Some o1 /\ nth_error objs j = Some o2 /\
    same_object o1 o2 = false /\
    (eps < dot (coords3d o1) (coords3d o2) v)%Q.
Proof.
  unfold related_lists. split.
  - intros H.
    destruct (nth_error objs i) as [o1|] eqn:E1.
    + rewrite (nth_error_nth _ _ _ (map_nth_error _ _ _ E1)) in H.
      unfold related in H. apply inds_spec in H.
      destruct H as [o2 [E2 Hp]]. apply andb_true_iff in Hp.
      destruct Hp as [Hs Hd]. apply negb_true_iff in Hs, Hd.
      exists o1, o2. repeat split; auto. now apply above_iff.
    + apply nth_error_None in E1. rewrite nth_overflow in H;
        [destruct H|now rewrite length_map].
  - intros [o1 [o2 [E1 [E2 [Hs Hd]]]]].
    rewrite (nth_error_nth _ _ _ (map_nth_error _ _ _ E1)).
    unfold related. apply inds_spec. exists o2. split; [exact E2|].
    apply above_iff in Hd. now rewrite Hs, Hd.
Qed.

Lemma relation_bound v eps objs i j :
  In j (nth i (related_lists v eps objs) []) ->
  i < length objs /\ j < length objs /\ i <> j.
Proof.
  intros H. apply in_relation in H.
  destruct H as [o1 [o2 [E1 [E2 [Hs _]]]]].
  split; [apply nth_error_Some; congruence|].
  split; [apply nth_error_Some; congruence|].
  intros ->. rewrite E1 in E2. injection E2 as <-.
  rewrite same_object_refl in Hs. discriminate Hs.
Qed.

Lemma relation_asymmetric v eps objs i j :
  (0 <= eps)%Q ->
  In j (nth i (related_lists v eps objs) []) ->
  ~ In i (nth j (related_lists v eps objs) []).
Proof.
  intros Heps H1 H2. apply in_relation in H1, H2.
  destruct H1 as [o1 [o2 [E1 [E2 [_ Hd]]]]].
  destruct H2 as [o2' [o1' [E2' [E1' [_ Hd']]]]].
  rewrite E1 in E1'. injection E1' as <-.
  rewrite E2 in E2'. injection E2' as <-.
  rewrite dot_swap in Hd'.
  assert (H : (0 < dot (coords3d o1) (coords3d o2) v)%Q)
    by (eapply Qle_lt_trans; eassumption).
  assert (H' : (0 < - dot (coords3d o1) (coords3d o2) v)%Q)
    by (eapply Qle_lt_trans; eassumption).
  apply (Qlt_irrefl 0).
  apply (Qlt_trans _ _ _ H').
  apply (Qplus_lt_l _ _ (dot (coords3d o1) (coords3d o2) v)).
  setoid_replace (- dot (coords3d o1) (coords3d o2) v
                  + dot (coords3d o1) (coords3d o2) v)%Q with 0%Q by ring.
  now rewrite Qplus_0_l.
Qed.

Lemma relation_inverse v eps objs i j :
  In j (nth i (related_lists (neg v) eps objs) []) <->
  In i (nth j (related_lists v eps objs) []).
Proof.
  rewrite !in_relation. split.
  - intros [o1 [o2 [E1 [E2 [Hs Hd]]]]]. exists o2, o1.
    repeat split; auto; [now rewrite same_object_sym|].
    now rewrite <- dot_neg.
  - intros [o2 [o1 [E2 [E1 [Hs Hd]]]]]. exists o1, o2.
    repeat split; auto; [now rewrite same_object_sym|].
    now rewrite dot_neg.
Qed.

Lemma relation_rows v eps objs i :
  i < length objs -> row_ok (length objs) (related_lists v eps objs) i = true.
Proof.
  intros Hi. apply row_ok_true.
  destruct (nth_error objs i) as [o|] eqn:E;
    [|apply nth_error_None in E; lia].
  exists (related v eps objs o). split.
  - unfold related_lists. now apply map_nth_error.
  - intros j Hj. unfold related in Hj. apply inds_spec in Hj.
    destruct Hj as [o2 [E2 _]]. apply nth_error_Some. congruence.
Qed.

Lemma computed_rows_ok directions objs :
  rows_ok (length objs) (compute_all_relationships directions objs) = true.
Proof.
  apply rows_ok_true. intros i Hi. unfold rows_at, compute_all_relationships.
  cbn [rel_left rel_right rel_front rel_behind].
  now rewrite !relation_rows.
Qed.

(** X15: on a scene whose relationships were computed by
    [compute_all_relationships] from its own objects, [parse_scene] does
    not raise [IndexError]: every object has its row in each of the four
    lists and every row names objects of the scene. *)
Theorem rendered_scene_no_index_error (directions : Directions)
    (objs : list PlacedObject) :
  rows_ok (length (objects (scene_of directions objs)))
    (relationships (scene_of directions objs)) = true /\
  ParseScene.parse_scene (scene_of directions objs) <> inl IndexError.
Proof.
  unfold scene_of. cbn [objects relationships]. rewrite length_map.
  split; [apply computed_rows_ok|].
  apply rows_ok_no_index_error. rewrite length_map. apply computed_rows_ok.
Qed.

(** X16: with the directions that the renderers store, where 'right' is the
    opposite of 'left' and 'front' the opposite of 'behind', object [j] is
    in the 'right' list of object [i] exactly when [i] is in the 'left'
    list of [j], and the same for 'front' and 'behind'. *)
Theorem opposite_relationships (plane_behind plane_left : vec)
    (objs : list PlacedObject) (i j : nat) :
  let r := compute_all_relationships
             (directions_of plane_behind plane_left) objs in
  (In j (nth i (rel_right r) []) <-> In i (nth j (rel_left r) [])) /\
  (In j (nth i (rel_front r) []) <-> In i (nth j (rel_behind r) [])).
Proof.
  cbv zeta. unfold compute_all_relationships, directions_of.
  cbn [rel_left rel_right rel_front rel_behind dir_left dir_right dir_front
       dir_behind].
  split; apply relation_inverse.
Qed.

(** X17: in each of the four computed lists, an object related to object [i]
    is another object of the scene, and the relation never holds in both
    directions. *)
Theorem relationships_asymmetric (directions : Directions)
    (objs : list PlacedObject) (rel : list (list nat)) (i j : nat) :
  In rel [rel_left (compute_all_relationships directions objs);
          rel_right (compute_all_relationships directions objs);
          rel_front (compute_all_relationships directions objs);
          rel_behind (compute_all_relationships directions objs)] ->
  In j (nth i rel []) ->
  i < length objs /\ j < length objs /\ i <> j /\ ~ In i (nth j rel []).
Proof.
  unfold compute_all_relationships.
  cbn [rel_left rel_right rel_front rel_behind].
  assert (Heps : (0 <= 2 # 10)%Q) by (unfold Qle; cbn; lia).
  intros [<-|[<-|[<-|[<-|[]]]]] H;
    (destruct (relation_bound _ _ _ _ _ H) as [H1 [H2 H3]];
     repeat split; auto; now apply relation_asymmetric).
Qed.

Lemma relationships_asymmetric_witness :
  1 < length Placements.placed_pair /\ 0 < length Placements.placed_pair /\
  1 <> 0 /\
  ~ In 1 (nth 0 (rel_left (compute_all_relationships
                             (directions_of Placements.plane_behind
                                Placements.plane_left)
                             Placements.placed_pair)) []).
Proof.
  apply (relationships_asymmetric
           (directions_of Placements.plane_behind Placements.plane_left)
           Placements.placed_pair
           (rel_left (compute_all_relationships
                        (directions_of Placements.plane_behind
                           Placements.plane_left)
                        Placements.placed_pair)) 1 0).
  - left. reflexivity.
  - vm_compute. left. reflexivity.
Defined.

Import Visibility.


(** ** Counting the colours of the shadeless image *)

Lemma count_color_total c cc :
  counted_pixels (count_color c cc) = S (counted_pixels cc).
Proof.
  induction cc as [|[c' k] cc IH]; [reflexivity|].
  cbn [count_color]. destruct (rgba_eqb c c'); cbn [counted_pixels fold_right snd].
  - lia.
  - fold (counted_pixels (count_color c cc)). rewrite IH.
    fold (counted_pixels cc). lia.
Qed.

Lemma Counter_total_from cs cc :
  counted_pixels (fold_left (fun color_count c => count_color c color_count)
                    cs cc)
  = counted_pixels cc + length cs.
Proof.
  revert cc. induction cs as [|c cs IH]; intros cc; cbn [fold_left length].
  - lia.
  - rewrite IH, count_color_total. lia.
Qed.

Lemma Counter_total cs : counted_pixels (Counter cs) = length cs.
Proof. unfold Counter. now rewrite Counter_total_from. Qed.

Lemma counted_at_least (m : nat) (cc : list (rgba * nat)) :
  forallb (fun kc => negb (snd kc <? m)) cc = true ->
  length cc * m <= counted_pixels cc.
Proof.
  induction cc as [|[c k] cc IH]; cbn [forallb length counted_pixels fold_right snd].
  - lia.
  - intros H. apply andb_true_iff in H. destruct H as [Hk Hrest].
    apply negb_true_iff, Nat.ltb_ge in Hk. specialize (IH Hrest).
    fold (counted_pixels cc). lia.
Qed.

Lemma colors_of_length p cs :
  colors_of p = inr cs -> length p = 4 * length cs.
Proof.
  revert cs. induction p as [p IH] using (induction_ltof1 _ (@length Q)).
  unfold ltof in IH. intros cs H.
  destruct p as [|r [|g [|b [|a rest]]]]; cbn [colors_of] in H;
    try discriminate H.
  - injection H as <-. reflexivity.
  - destruct (colors_of rest) as [e|cs'] eqn:E; [discriminate H|].
    cbn [bind ret] in H. injection H as <-.
    cbn [length]. rewrite (IH rest) with (cs := cs'); [lia|cbn; lia|exact E].
Qed.

Lemma colors_of_cases p :
  if length p mod 4 =? 0
  then exists cs, colors_of p = inr cs
  else colors_of p = inl IndexError.
Proof.
  induction p as [p IH] using (induction_ltof1 _ (@length Q)).
  unfold ltof in IH.
  destruct p as [|r [|g [|b [|a rest]]]]; cbn [colors_of];
    try reflexivity.
  - now exists [].
  - assert (Hlt : length rest < length (r :: g :: b :: a :: rest))
      by (cbn; lia).
    specialize (IH rest Hlt).
    assert (E : length (r :: g :: b :: a :: rest) mod 4 = length rest mod 4).
    { cbn [length].
      replace (S (S (S (S (length rest))))) with (length rest + 1 * 4) by lia.
      apply Nat.Div0.mod_add. }
    rewrite E. destruct (length rest mod 4 =? 0).
    + destruct IH as [cs ->]. eexists. reflexivity.
    + rewrite IH. reflexivity.
Qed.

(** X18: when [check_visibility] answers [True], the pixel list consists of
    whole colours and holds at least the minimum number of pixels for
    each object and for the background. *)
Theorem visible_needs_pixels (p : list Q) (blender_objects : nat)
    (min_pixels_per_object : nat) :
  check_visibility p blender_objects min_pixels_per_object = inr true ->
  length p mod 4 = 0 /\
  (blender_objects + 1) * min_pixels_per_object <= length p / 4.
Proof.
  unfold check_visibility. intros H.
  destruct (colors_of p) as [e|cs] eqn:E; [discriminate H|].
  cbn [bind] in H. cbv zeta in H.
  destruct (length (Counter cs) =? blender_objects + 1) eqn:El;
    cbn [negb] in H; [|discriminate H].
  unfold ret in H. injection H as H.
  apply Nat.eqb_eq in El. apply counted_at_least in H.
  rewrite Counter_total, El in H.
  apply colors_of_length in E. rewrite E. split.
  - rewrite (Nat.mul_comm 4 (length cs)). apply Nat.Div0.mod_mul.
  - rewrite (Nat.mul_comm 4 (length cs)), Nat.div_mul by lia. exact H.
Qed.

Lemma visible_needs_pixels_witness :
  length [1; 0; 0; 1; 0; 0; 0; 1; 1; 0; 0; 1; 0; 0; 0; 1]%Q mod 4 = 0 /\
  (1 + 1) * 2 <= length [1; 0; 0; 1; 0; 0; 0; 1; 1; 0; 0; 1; 0; 0; 0; 1]%Q / 4.
Proof.
  apply (visible_needs_pixels
           [1; 0; 0; 1; 0; 0; 0; 1; 1; 0; 0; 1; 0; 0; 0; 1]%Q 1 2).
  vm_compute. reflexivity.
Defined.

(** X19: [check_visibility] raises [IndexError] exactly when the length of the
    pixel list is not a multiple of four. *)
Theorem ragged_pixels_raise (p : list Q) (blender_objects : nat)
    (min_pixels_per_object : nat) :
  check_visibility p blender_objects min_pixels_per_object = inl IndexError
  <-> length p mod 4 <> 0.
Proof.
  unfold check_visibility. pose proof (colors_of_cases p) as H.
  destruct (length p mod 4 =? 0) eqn:E.
  - apply Nat.eqb_eq in E. destruct H as [cs ->]. cbn [bind]. cbv zeta.
    split; [|congruence]. destruct (negb _); discriminate.
  - apply Nat.eqb_neq in E. rewrite H. cbn [bind]. tauto.
Qed.
